(** * DeepSeek-OCR Gradio application: the OCR output pipeline

    A shallow embedding of the four modules under [gradio_app/modules] that
    carry the data transformations of the application:

    - [ImageProcessor.get_resolution_params]  (image_processor.py)
    - [ResultProcessor.extract_bounding_boxes], [clean_markdown],
      [parse_result] and [draw_bounding_boxes]  (result_processor.py)
    - [OCREngine.infer] and [infer_batch]  (ocr_engine.py)

    Python values are modelled as the code has them: a [str] is a sequence of
    Unicode code points, a [float] is an IEEE binary64 number (the kernel's
    primitive floats), an [int] is an unbounded integer.  Calls that leave
    the repository (the [re] and [tempfile] modules, PIL, the OCR model) are
    modelled by their documented behaviour; where that behaviour is chosen by
    the environment (a call may fail, the model answers what it answers) it is
    an explicit oracle argument. *)

From Stdlib Require Import ZArith NArith List String Ascii Bool Lia Floats.
From stdpp Require Import gmap strings.
Import ListNotations.

#[local] Open Scope Z_scope.

(** ** Python strings *)

Module PyStr.

(** A character is a Unicode code point, a string a sequence of them. *)
Definition char := N.
Definition pystr := list char.

(** ASCII literals of the source, as code points. *)
Definition lit (s : string) : pystr := map N_of_ascii (list_ascii_of_string s).

Definition NEWLINE : char := 10%N.
Definition LT : char := 60%N.

(** [s.startswith(p)] *)
Fixpoint startswith (p s : pystr) : bool :=
  match p, s with
  | [], _ => true
  | _ :: _, [] => false
  | a :: p', b :: s' => N.eqb a b && startswith p' s'
  end.

(** [k in s] for strings: substring containment, case-sensitive. *)
Fixpoint contains (k s : pystr) : bool :=
  match s with
  | [] => startswith k []
  | _ :: s' => startswith k s || contains k s'
  end.

(** The code points [str.strip()] removes ([str.isspace] of one character). *)
Definition isspace (c : char) : bool :=
  ((9 <=? c) && (c <=? 13) || (28 <=? c) && (c <=? 32) || (c =? 133) || (c =? 160)
   || (c =? 5760) || (8192 <=? c) && (c <=? 8202) || (c =? 8232) || (c =? 8233)
   || (c =? 8239) || (c =? 8287) || (c =? 12288))%N.

Fixpoint lstrip (s : pystr) : pystr :=
  match s with
  | [] => []
  | c :: s' => if isspace c then lstrip s' else s
  end.

Definition rstrip (s : pystr) : pystr := rev (lstrip (rev s)).

(** [s.strip()] *)
Definition strip (s : pystr) : pystr := rstrip (lstrip s).

(** [s.replace(old, '')] for a non-empty [old]: occurrences are found left
    to right and do not overlap.  The fuel bounds the number of steps; each
    step consumes at least one character, so [length s] steps suffice. *)
Fixpoint remove_loop (fuel : nat) (old s : pystr) : pystr :=
  match fuel with
  | O => []
  | S fuel' =>
      if startswith old s then remove_loop fuel' old (drop (length old) s)
      else match s with
           | [] => []
           | c :: s' => c :: remove_loop fuel' old s'
           end
  end.

Definition remove_all (old s : pystr) : pystr :=
  match old with
  | [] => s
  | _ :: _ => remove_loop (length s) old s
  end.

End PyStr.
Export PyStr.

(** ** Python numbers *)

Module PyNum.

(** The binary64 number nearest to an integer, ties to even (an infinity
    when the integer is beyond the range). *)
Definition to_float (z : Z) : float := SF2Prim (binary_normalize prec emax z 0 false).

(** [float(z)] for an [int]; [None] is the [OverflowError] of an integer too
    large for a float. *)
Definition float_of_int (z : Z) : option float :=
  let f := to_float z in
  if PrimFloat.is_infinity f then None else Some f.

(** [int(f)] for a [float]: truncation towards zero; [None] is the
    [ValueError] of a NaN or the [OverflowError] of an infinity. *)
Definition int_of_float (f : float) : option Z :=
  match Prim2SF f with
  | S754_zero _ => Some 0
  | S754_finite s m e =>
      let mag := if (0 <=? e) then Z.shiftl (Z.pos m) e else Z.shiftr (Z.pos m) (- e) in
      Some (if s then - mag else mag)
  | S754_infinity _ | S754_nan => None
  end.

End PyNum.
Export PyNum.

(** ** image_processor.py *)

Module ImageProcessor.

(** (base_size, image_size, crop_mode) *)
Definition params : Type := Z * Z * bool.

(** The dict literal [mode_mapping]; a Python dict iterates in insertion
    order, so the order of the entries is part of the behaviour. *)
Definition mode_mapping : list (pystr * params) :=
  [ (lit "Tiny",   (512, 512, false));
    (lit "Small",  (640, 640, false));
    (lit "Base",   (1024, 1024, false));
    (lit "Large",  (1280, 1280, false));
    (lit "Gundam", (1024, 640, true)) ].

(** [d[key]]; [None] is the [KeyError]. *)
Fixpoint dict_get (key : pystr) (d : list (pystr * params)) : option params :=
  match d with
  | [] => None
  | (k, v) :: d' => if decide (k = key) then Some v else dict_get key d'
  end.

(** The loop [for key, params in mode_mapping.items(): if key in mode: return params]. *)
Fixpoint first_key_in (d : list (pystr * params)) (mode : pystr) : option params :=
  match d with
  | [] => None
  | (key, p) :: d' => if contains key mode then Some p else first_key_in d' mode
  end.

(** [get_resolution_params(mode)]; [None] would be an exception. *)
Definition get_resolution_params (mode : pystr) : option params :=
  match first_key_in mode_mapping mode with
  | Some p => Some p
  | None => dict_get (lit "Base") mode_mapping
  end.

End ImageProcessor.

(** ** Python's [eval] on the coordinate text *)

Module PyEval.

(** The values the loop body of [extract_bounding_boxes] tells apart: numbers
    (a [bool] counts as its integer), lists and tuples, and every other
    object ([None], a string, a function, ...). *)
#[local] Unset Elimination Schemes.
Inductive pyval : Type :=
| VInt (z : Z)
| VFloat (f : float)
| VList (items : list pyval)
| VTuple (items : list pyval)
| VQuitter                       (* the site builtins [exit] and [quit] *)
| VOther.
#[local] Set Elimination Schemes.

(** How a Python computation ends: with a value, with an exception that
    [except Exception] catches, or with one that it does not catch (a
    [BaseException] outside [Exception], such as [SystemExit]). *)
Inductive outcome (A : Type) : Type :=
| Returns (a : A)
| Raises
| Escapes.
Arguments Returns {A} a.
Arguments Raises {A}.
Arguments Escapes {A}.

Definition bind {A B} (m : outcome A) (k : A -> outcome B) : outcome B :=
  match m with
  | Returns a => k a
  | Raises => Raises
  | Escapes => Escapes
  end.

Definition of_option {A} (o : option A) : outcome A :=
  match o with Some a => Returns a | None => Raises end.

(** *** A fragment of Python's expressions

    [eval] runs any Python expression.  The evaluator below covers the
    expressions built from decimal integers, names, [+], [-], [*], list and
    tuple displays and calls without arguments; this contains the wire
    format [[[x0,y0],[x1,y1]]].  The only names bound are [exit] and [quit];
    every other name is unbound ([NameError]). *)

Inductive token : Type :=
| TInt (z : Z) | TName (n : pystr)
| TLBrack | TRBrack | TLPar | TRPar | TComma | TPlus | TMinus | TStar.

#[local] Unset Elimination Schemes.
Inductive expr : Type :=
| EInt (z : Z)
| EName (n : pystr)
| EList (es : list expr)
| ETuple (es : list expr)
| ENeg (e : expr)
| EPos (e : expr)
| EAdd (a b : expr)
| ESub (a b : expr)
| EMul (a b : expr)
| ECall (f : expr).
#[local] Set Elimination Schemes.

Definition is_digit (c : char) : bool := ((48 <=? c) && (c <=? 57))%N.
Definition is_name_start (c : char) : bool :=
  ((65 <=? c) && (c <=? 90) || (97 <=? c) && (c <=? 122) || (c =? 95))%N.
Definition is_blank (c : char) : bool := ((c =? 32) || (c =? 9) || (c =? 12))%N.

Fixpoint span_while (p : char -> bool) (s : pystr) : pystr * pystr :=
  match s with
  | [] => ([], [])
  | c :: s' => if p c then let '(a, b) := span_while p s' in (c :: a, b) else ([], s)
  end.

Definition digits_value (ds : pystr) : Z :=
  fold_left (fun acc d => 10 * acc + (Z.of_N d - 48)) ds 0.

(** A decimal literal has no leading zero unless it is all zeros. *)
Definition int_literal (ds : pystr) : option Z :=
  match ds with
  | 48%N :: _ :: _ => if forallb (N.eqb 48) ds then Some 0 else None
  | _ => Some (digits_value ds)
  end.

Fixpoint lex (fuel : nat) (s : pystr) : option (list token) :=
  match fuel with
  | O => match s with [] => Some [] | _ => None end
  | S fuel' =>
      match s with
      | [] => Some []
      | c :: s' =>
          if is_blank c then lex fuel' s'
          else if is_digit c then
            let '(ds, rest) := span_while is_digit s in
            match int_literal ds, rest with
            | Some z, r :: _ =>
                if is_name_start r then None
                else option_map (cons (TInt z)) (lex fuel' rest)
            | Some z, [] => Some [TInt z]
            | None, _ => None
            end
          else if is_name_start c then
            let '(n, rest) := span_while (fun x => is_name_start x || is_digit x) s in
            option_map (cons (TName n)) (lex fuel' rest)
          else
            let one t := option_map (cons t) (lex fuel' s') in
            if (c =? 91)%N then one TLBrack
            else if (c =? 93)%N then one TRBrack
            else if (c =? 40)%N then one TLPar
            else if (c =? 41)%N then one TRPar
            else if (c =? 44)%N then one TComma
            else if (c =? 43)%N then one TPlus
            else if (c =? 45)%N then one TMinus
            else if (c =? 42)%N then one TStar
            else None
      end
  end.

(** Calls without arguments after an atom: [f()()]. *)
Fixpoint call_tail (fuel : nat) (e : expr) (ts : list token) {struct fuel}
  : option (expr * list token) :=
  match fuel with
  | O => None
  | S fuel' =>
      match ts with
      | TLPar :: TRPar :: r => call_tail fuel' (ECall e) r
      | _ => Some (e, ts)
      end
  end.

(** Recursive descent by precedence: sums, products, signs, calls, atoms.
    The fuel is decreased at every call; [eval_fuel] below is enough for
    every token list. *)
Fixpoint parse_sum (fuel : nat) (ts : list token) {struct fuel}
  : option (expr * list token) :=
  match fuel with
  | O => None
  | S fuel' =>
      match parse_product fuel' ts with
      | Some (e, r) => sum_tail fuel' e r
      | None => None
      end
  end
with sum_tail (fuel : nat) (e : expr) (ts : list token) {struct fuel}
  : option (expr * list token) :=
  match fuel with
  | O => None
  | S fuel' =>
      match ts with
      | TPlus :: r =>
          match parse_product fuel' r with
          | Some (e', r') => sum_tail fuel' (EAdd e e') r'
          | None => None
          end
      | TMinus :: r =>
          match parse_product fuel' r with
          | Some (e', r') => sum_tail fuel' (ESub e e') r'
          | None => None
          end
      | _ => Some (e, ts)
      end
  end
with parse_product (fuel : nat) (ts : list token) {struct fuel}
  : option (expr * list token) :=
  match fuel with
  | O => None
  | S fuel' =>
      match parse_unary fuel' ts with
      | Some (e, r) => product_tail fuel' e r
      | None => None
      end
  end
with product_tail (fuel : nat) (e : expr) (ts : list token) {struct fuel}
  : option (expr * list token) :=
  match fuel with
  | O => None
  | S fuel' =>
      match ts with
      | TStar :: r =>
          match parse_unary fuel' r with
          | Some (e', r') => product_tail fuel' (EMul e e') r'
          | None => None
          end
      | _ => Some (e, ts)
      end
  end
with parse_unary (fuel : nat) (ts : list token) {struct fuel}
  : option (expr * list token) :=
  match fuel with
  | O => None
  | S fuel' =>
      match ts with
      | TMinus :: r =>
          match parse_unary fuel' r with
          | Some (e, r') => Some (ENeg e, r')
          | None => None
          end
      | TPlus :: r =>
          match parse_unary fuel' r with
          | Some (e, r') => Some (EPos e, r')
          | None => None
          end
      | TInt z :: r => call_tail fuel' (EInt z) r
      | TName n :: r => call_tail fuel' (EName n) r
      | TLBrack :: r =>
          match parse_items fuel' r with
          | Some (es, _, TRBrack :: r') => call_tail fuel' (EList es) r'
          | _ => None
          end
      | TLPar :: r =>
          match parse_items fuel' r with
          | Some ([e], false, TRPar :: r') => call_tail fuel' e r'
          | Some (es, _, TRPar :: r') => call_tail fuel' (ETuple es) r'
          | _ => None
          end
      | _ => None
      end
  end
(** Comma-separated expressions up to a closing bracket; the flag tells
    whether a comma was read (so that [(e)] is [e] and [(e,)] a tuple). *)
with parse_items (fuel : nat) (ts : list token) {struct fuel}
  : option (list expr * bool * list token) :=
  match fuel with
  | O => None
  | S fuel' =>
      match ts with
      | [] | TRBrack :: _ | TRPar :: _ => Some ([], false, ts)
      | _ =>
          match parse_sum fuel' ts with
          | Some (e, TComma :: r) =>
              match parse_items fuel' r with
              | Some (es, _, r') => Some (e :: es, true, r')
              | None => None
              end
          | Some (e, r) => Some ([e], false, r)
          | None => None
          end
      end
  end.

Definition eval_fuel (ts : list token) : nat := 8 * length ts + 8.

(** [eval] takes an expression list: [1, 2] is a tuple. *)
Definition parse (s : pystr) : option expr :=
  match lex (length s) s with
  | Some ts =>
      match parse_items (eval_fuel ts) ts with
      | Some ([e], false, []) => Some e
      | Some (e :: es, true, []) => Some (ETuple (e :: es))
      | _ => None
      end
  | None => None
  end.

Definition repeat_items (n : Z) (l : list pyval) : list pyval :=
  concat (repeat l (Z.to_nat n)).

Fixpoint eval_expr (e : expr) : outcome pyval :=
  let fix eval_list (es : list expr) : outcome (list pyval) :=
    match es with
    | [] => Returns []
    | e :: es' => bind (eval_expr e) (fun v => bind (eval_list es') (fun vs => Returns (v :: vs)))
    end in
  match e with
  | EInt z => Returns (VInt z)
  | EName n =>
      if decide (n = lit "exit") then Returns VQuitter
      else if decide (n = lit "quit") then Returns VQuitter
      else Raises                                     (* NameError *)
  | EList es => bind (eval_list es) (fun vs => Returns (VList vs))
  | ETuple es => bind (eval_list es) (fun vs => Returns (VTuple vs))
  | ENeg a =>
      bind (eval_expr a) (fun v =>
        match v with VInt z => Returns (VInt (- z)) | _ => Raises end)
  | EPos a =>
      bind (eval_expr a) (fun v =>
        match v with VInt z => Returns (VInt z) | _ => Raises end)
  | EAdd a b =>
      bind (eval_expr a) (fun va => bind (eval_expr b) (fun vb =>
        match va, vb with
        | VInt x, VInt y => Returns (VInt (x + y))
        | VList x, VList y => Returns (VList (x ++ y))
        | VTuple x, VTuple y => Returns (VTuple (x ++ y))
        | _, _ => Raises                              (* TypeError *)
        end))
  | ESub a b =>
      bind (eval_expr a) (fun va => bind (eval_expr b) (fun vb =>
        match va, vb with
        | VInt x, VInt y => Returns (VInt (x - y))
        | _, _ => Raises
        end))
  | EMul a b =>
      bind (eval_expr a) (fun va => bind (eval_expr b) (fun vb =>
        match va, vb with
        | VInt x, VInt y => Returns (VInt (x * y))
        | VList x, VInt n | VInt n, VList x => Returns (VList (repeat_items n x))
        | VTuple x, VInt n | VInt n, VTuple x => Returns (VTuple (repeat_items n x))
        | _, _ => Raises
        end))
  | ECall f =>
      bind (eval_expr f) (fun vf =>
        match vf with
        | VQuitter => Escapes                         (* raise SystemExit *)
        | _ => Raises                                 (* not callable *)
        end)
  end.

(** [eval(s)] on the fragment; a string that does not parse is a
    [SyntaxError]. *)
Definition py_eval (s : pystr) : outcome pyval :=
  match parse s with
  | Some e => eval_expr e
  | None => Raises
  end.

End PyEval.
Export PyEval.

(** ** result_processor.py: the markup parser *)

Module ResultProcessor.

(** The literals of [PATTERN], [<\|ref\|>(.*?)<\|/ref\|><\|det\|>(.*?)<\|/det\|>]. *)
Definition REF_OPEN : pystr := Eval cbv in lit "<|ref|>".
Definition REF_CLOSE : pystr := Eval cbv in lit "<|/ref|>".
Definition DET_OPEN : pystr := Eval cbv in lit "<|det|>".
Definition DET_CLOSE : pystr := Eval cbv in lit "<|/det|>".
Definition REF_CLOSE_DET_OPEN : pystr := Eval cbv in REF_CLOSE ++ DET_OPEN.
Definition GROUNDING : pystr := Eval cbv in lit "<|grounding|>".

(** *** The regular expression

    The backtracking matcher of [re], specialised to [PATTERN].  A lazy
    group [(.*?)] first tries to go on with the rest of the pattern and
    takes one more character only when that fails; [.] takes any character
    but a newline. *)

(** [(.*?)<\|/det\|>] at the head of [s]: the coordinates and what follows
    the closing tag. *)
Fixpoint lazy_coords (s : pystr) : option (pystr * pystr) :=
  if startswith DET_CLOSE s then Some ([], drop (length DET_CLOSE) s)
  else match s with
       | [] => None
       | c :: s' =>
           if (c =? NEWLINE)%N then None
           else match lazy_coords s' with
                | Some (coords, rest) => Some (c :: coords, rest)
                | None => None
                end
       end.

(** [(.*?)<\|/ref\|><\|det\|>(.*?)<\|/det\|>] at the head of [s]. *)
Fixpoint lazy_label (s : pystr) : option (pystr * pystr * pystr) :=
  let here :=
    if startswith REF_CLOSE_DET_OPEN s
    then lazy_coords (drop (length REF_CLOSE_DET_OPEN) s)
    else None in
  match here with
  | Some (coords, rest) => Some ([], coords, rest)
  | None =>
      match s with
      | [] => None
      | c :: s' =>
          if (c =? NEWLINE)%N then None
          else match lazy_label s' with
               | Some (label, coords, rest) => Some (c :: label, coords, rest)
               | None => None
               end
      end
  end.

(** A match of [PATTERN] at the head of [s]: groups 2 and 3 and the rest. *)
Definition match_here (s : pystr) : option (pystr * pystr * pystr) :=
  if startswith REF_OPEN s then lazy_label (drop (length REF_OPEN) s) else None.

(** The text of a whole match (group 1 of [PATTERN]). *)
Definition span (label coords : pystr) : pystr :=
  REF_OPEN ++ label ++ REF_CLOSE_DET_OPEN ++ coords ++ DET_CLOSE.

(** The scan of [re.findall] and [re.sub]: leftmost matches, one after the
    other, no two overlapping; a character at which no match starts is
    passed over.  Each step consumes at least one character. *)
Inductive segment : Type :=
| Unmatched (c : char)
| Matched (label coords : pystr).

Fixpoint scan_loop (fuel : nat) (s : pystr) : list segment :=
  match fuel with
  | O => []
  | S fuel' =>
      match match_here s with
      | Some (label, coords, rest) => Matched label coords :: scan_loop fuel' rest
      | None =>
          match s with
          | [] => []
          | c :: s' => Unmatched c :: scan_loop fuel' s'
          end
      end
  end.

Definition scan (s : pystr) : list segment := scan_loop (length s) s.

(** [re.findall(PATTERN, raw_text)]: the three groups of every match. *)
Definition re_findall (raw_text : pystr) : list (pystr * pystr * pystr) :=
  flat_map (fun seg => match seg with
                       | Unmatched _ => []
                       | Matched label coords => [(span label coords, label, coords)]
                       end) (scan raw_text).

(** [re.sub(pattern, r'\1', raw_text)] with the pattern of [clean_markdown],
    which is [PATTERN] without its outer group. *)
Definition re_sub (raw_text : pystr) : pystr :=
  flat_map (fun seg => match seg with
                       | Unmatched c => [c]
                       | Matched label _ => label
                       end) (scan raw_text).

(** *** [extract_bounding_boxes] *)

(** A box, the dict [{"text": ..., "bbox": [...]}]. *)
Record box : Type := Box { text : pystr; bbox : list float }.

(** [len(v)] *)
Definition len (v : pyval) : outcome nat :=
  match v with
  | VList l | VTuple l => Returns (length l)
  | _ => Raises
  end.

(** [v[i]] on a list or a tuple *)
Definition getitem (v : pyval) (i : nat) : outcome pyval :=
  match v with
  | VList l | VTuple l => of_option (nth_error l i)
  | _ => Raises
  end.

(** [a, b = v] *)
Definition unpack2 (v : pyval) : outcome (pyval * pyval) :=
  match v with
  | VList [a; b] | VTuple [a; b] => Returns (a, b)
  | _ => Raises
  end.

(** [v / d] for a float [d] *)
Definition truediv (v : pyval) (d : float) : outcome float :=
  match v with
  | VInt z => match float_of_int z with
              | Some f => Returns (f / d)%float
              | None => Raises
              end
  | VFloat f => Returns (f / d)%float
  | _ => Raises
  end.

(** *** [clean_markdown] *)

Definition clean_markdown (raw_text : pystr) : pystr :=
  let clean_text := re_sub raw_text in
  let clean_text := remove_all GROUNDING clean_text in
  strip clean_text.

Record parsed : Type := Parsed {
  raw_text : pystr;
  clean_text : pystr;
  bounding_boxes : list box;
  has_grounding : bool
}.

Section Extract.

(** [eval] in the scope of the loop body, as a function of the text it is
    given. *)
Variable eval : pystr -> outcome pyval.

(** The body of the [try] block for one match: the box appended, if any. *)
Definition box_of_match (text coords : pystr) : outcome (option box) :=
  let coords_clean := strip coords in
  bind (eval coords_clean) (fun coord_list =>
  bind (len coord_list) (fun n =>
  if Nat.eqb n 2 then
    bind (getitem coord_list 0) (fun p0 =>
    bind (unpack2 p0) (fun '(x1, y1) =>
    bind (getitem coord_list 1) (fun p1 =>
    bind (unpack2 p1) (fun '(x2, y2) =>
    bind (truediv x1 999) (fun a =>
    bind (truediv y1 999) (fun b =>
    bind (truediv x2 999) (fun c =>
    bind (truediv y2 999) (fun d =>
    Returns (Some (Box text [a; b; c; d]))))))))))
  else Returns None)).

(** The loop over the matches; [except Exception: continue] drops a
    match whose body raised. *)
Fixpoint collect_boxes (matches : list (pystr * pystr * pystr)) (boxes : list box)
  : outcome (list box) :=
  match matches with
  | [] => Returns boxes
  | (full_match, text, coords) :: rest =>
      match box_of_match text coords with
      | Returns (Some b) => collect_boxes rest (boxes ++ [b])
      | Returns None => collect_boxes rest boxes
      | Raises => collect_boxes rest boxes
      | Escapes => Escapes
      end
  end.

Definition extract_bounding_boxes (raw_text : pystr) : outcome (list box) :=
  collect_boxes (re_findall raw_text) [].

(** [parse_result]: the dict with its four keys. *)
Definition parse_result (raw : pystr) : outcome parsed :=
  let clean := clean_markdown raw in
  bind (extract_bounding_boxes raw) (fun boxes =>
  Returns (Parsed raw clean boxes (contains REF_OPEN raw && contains DET_OPEN raw))).

End Extract.

(** *** [draw_bounding_boxes]

    PIL images are mutable objects: the heap maps an object to its size and
    raster, [image.copy()] allocates a new object, and every drawing call
    goes to the object its [ImageDraw.Draw] was made for.  What a drawing
    call does to a raster, how a text is measured and which fonts load is
    PIL's business and a parameter here; a call may raise. *)

Definition color : Type := Z * Z * Z.

Section Render.

Variable pixels : Type.
Variable font : Type.

Inductive draw_call : Type :=
| Rectangle (xy : Z * Z * Z * Z) (fill outline : option color) (width : Z)
| Text (xy : Z * Z) (s : pystr) (fill : color) (f : font).

(** [None]: the call raises. *)
Variable draw : pixels -> draw_call -> option pixels.
Variable textbbox : Z * Z -> pystr -> font -> option (Z * Z * Z * Z).
Variable truetype : Z -> option font.
Variable load_default : font.

Record image : Type := Image { size : Z * Z; raster : pixels }.

Definition obj := positive.

(** The objects and the drawing calls issued so far, newest last. *)
Record store : Type := Store {
  heap : gmap obj image;
  calls : list (obj * draw_call)
}.

(** [image.copy()] *)
Definition copy (st : store) (im : image) : obj * store :=
  let o := fresh (dom (heap st)) in
  (o, Store (<[o := im]> (heap st)) (calls st)).

(** A drawing call on the object [o]. *)
Definition draw_on (o : obj) (c : draw_call) (st : store) : outcome unit * store :=
  match heap st !! o with
  | Some im =>
      match draw (raster im) c with
      | Some px => (Returns tt, Store (<[o := Image (size im) px]> (heap st)) (calls st ++ [(o, c)]))
      | None => (Raises, Store (heap st) (calls st ++ [(o, c)]))
      end
  | None => (Raises, st)
  end.

Definition colors : list color :=
  [ (255, 0, 0); (0, 255, 0); (0, 0, 255); (255, 255, 0);
    (255, 0, 255); (0, 255, 255); (255, 128, 0); (128, 0, 255) ].

(** [int(f * n)] for a float [f] and an int [n] *)
Definition to_pixel (f : float) (n : Z) : outcome Z :=
  match float_of_int n with
  | Some fn => of_option (int_of_float (f * fn)%float)
  | None => Raises
  end.

(** The label of a box, inside its own [try]: a failure is logged only. *)
Definition draw_label (o : obj) (x1 text_y : Z) (text_display : pystr) (c : color)
    (f : font) (st : store) : store :=
  match textbbox (x1, text_y) text_display f with
  | Some bbox_text =>
      match draw_on o (Rectangle bbox_text (Some c) None 1) st with
      | (Returns _, st1) => snd (draw_on o (Text (x1, text_y) text_display (255, 255, 255) f) st1)
      | (_, st1) => st1
      end
  | None => st
  end.

(** One iteration of the loop over [enumerate(boxes)]. *)
Definition draw_box (o : obj) (img_width img_height font_size : Z) (f : font)
    (show_text : bool) (box_width : Z) (idx : nat) (box_info : box) (st : store)
  : outcome unit * store :=
  let coords :=
    bind (of_option (nth_error (bbox box_info) 0)) (fun b0 =>
    bind (to_pixel b0 img_width) (fun x1 =>
    bind (of_option (nth_error (bbox box_info) 1)) (fun b1 =>
    bind (to_pixel b1 img_height) (fun y1 =>
    bind (of_option (nth_error (bbox box_info) 2)) (fun b2 =>
    bind (to_pixel b2 img_width) (fun x2 =>
    bind (of_option (nth_error (bbox box_info) 3)) (fun b3 =>
    bind (to_pixel b3 img_height) (fun y2 =>
    Returns (x1, y1, x2, y2))))))))) in
  match coords with
  | Returns (x1, y1, x2, y2) =>
      let c := nth (idx mod length colors) colors (0, 0, 0) in
      match draw_on o (Rectangle (x1, y1, x2, y2) None (Some c) box_width) st with
      | (Returns _, st1) =>
          let t := text box_info in
          if show_text && negb (Nat.eqb (length t) 0) then
            let text_display :=
              if (20 <? length t)%nat then take 20 t ++ lit "..." else t in
            let text_y := Z.max 0 (y1 - font_size - 5) in
            (Returns tt, draw_label o x1 text_y text_display c f st1)
          else (Returns tt, st1)
      | (r, st1) => (r, st1)
      end
  | Raises => (Raises, st)
  | Escapes => (Escapes, st)
  end.

Fixpoint draw_boxes (o : obj) (img_width img_height font_size : Z) (f : font)
    (show_text : bool) (box_width : Z) (idx : nat) (boxes : list box) (st : store)
  : outcome unit * store :=
  match boxes with
  | [] => (Returns tt, st)
  | box_info :: rest =>
      match draw_box o img_width img_height font_size f show_text box_width idx box_info st with
      | (Returns _, st1) =>
          draw_boxes o img_width img_height font_size f show_text box_width (S idx) rest st1
      | (r, st1) => (r, st1)
      end
  end.

(** [draw_bounding_boxes(image, boxes, show_text, box_width)]: the object
    returned, or the exception of a drawing call, and the store after. *)
Definition draw_bounding_boxes (image : obj) (boxes : list box) (show_text : bool)
    (box_width : Z) (st : store) : outcome obj * store :=
  match heap st !! image with
  | None => (Raises, st)          (* no such object: not a state of the program *)
  | Some im =>
      match boxes with
      | [] =>
          let '(o, st1) := copy st im in (Returns o, st1)
      | _ :: _ =>
          let '(img_with_boxes, st1) := copy st im in
          let '(img_width, img_height) := size im in
          let font_size := Z.max 12 (Z.min img_width img_height / 50) in
          let f := match truetype font_size with
                   | Some f => f
                   | None => load_default
                   end in
          match draw_boxes img_with_boxes img_width img_height font_size f
                  show_text box_width 0 boxes st1 with
          | (Returns _, st2) => (Returns img_with_boxes, st2)
          | (Raises, st2) => (Raises, st2)
          | (Escapes, st2) => (Escapes, st2)
          end
      end
  end.

End Render.

Arguments Image {pixels} size raster.
Arguments size {pixels} i.
Arguments raster {pixels} i.
Arguments Store {pixels font} heap calls.
Arguments heap {pixels font} s.
Arguments calls {pixels font} s.
Arguments Rectangle {font} xy fill outline width.
Arguments Text {font} xy s fill f.
Arguments copy {pixels font} st im.
Arguments draw_on {pixels font} draw o c st.
Arguments draw_label {pixels font} draw textbbox o x1 text_y text_display c f st.
Arguments draw_box {pixels font} draw textbbox o img_width img_height font_size f show_text
  box_width idx box_info st.
Arguments draw_boxes {pixels font} draw textbbox o img_width img_height font_size f show_text
  box_width idx boxes st.
Arguments draw_bounding_boxes {pixels font} draw textbbox truetype load_default image boxes
  show_text box_width st.

End ResultProcessor.

(** ** ocr_engine.py *)

Module OCREngine.

Definition path := string.

(** The exceptions of the module, named after their class and message, and
    the ones raised by the calls it makes ([tempfile], PIL, [os], [shutil],
    the model), all of them ordinary exceptions. *)
Inductive exn : Type :=
| RuntimeError_model_not_loaded       (* RuntimeError("模型未加载，请先加载模型") *)
| RuntimeError_manager_not_loaded     (* raised by get_model / get_tokenizer *)
| RuntimeError_model_returned_None    (* RuntimeError("模型推理返回 None") *)
| RuntimeError_inference_failed (cause : exn)  (* RuntimeError(f"OCR推理失败: {str(e)}") *)
| ValueError_length_mismatch          (* ValueError("图像数量和Prompt数量必须相同") *)
| OSError_cannot_write_mode           (* PIL: cannot write mode ... as JPEG *)
| External (name : string).

Inductive result (A : Type) : Type :=
| Ok (a : A)
| Exn (e : exn).
Arguments Ok {A} a.
Arguments Exn {A} e.

(** What the program does to the world, in order. *)
Inductive event : Type :=
| CreatedFile (p : path)
| SavedImage (p : path)
| CreatedDir (p : path)
| ModelInfer (prompt : pystr) (image_file output_path : path)
             (base_size image_size : Z) (crop_mode save_results : bool)
| Removed (p : path)
| RemovedTree (p : path)
| LogWarning (e : exn)
| LogError (e : exn).

Record world : Type := World {
  is_loaded : bool;              (* ModelManager._is_loaded *)
  fs : gset path;                (* the files and directories that exist *)
  trace : list event
}.

(** A PIL image, as far as [save] looks at it. *)
Record pil_image : Type := PilImage { mode : string; image_size : Z * Z }.

(** The modes the JPEG writer of PIL accepts. *)
Definition jpeg_modes : list string := ["1"; "L"; "RGB"; "RGBX"; "CMYK"; "YCbCr"]%string.

(** What the environment decides during one call of [infer]: the names
    [tempfile] picks, which calls fail, what the model answers, what it
    does to the file system, and the time it takes. *)
Record oracle : Type := Oracle {
  named_temporary_file : path + exn;
  image_save : option exn;               (* a failure besides the mode check *)
  mkdtemp : path + exn;
  model_answer : option pystr + exn;     (* the text, [None], or an exception *)
  model_effect : gset path -> gset path;
  elapsed : float;
  os_remove : option exn;
  shutil_rmtree : option exn
}.

(** State and exceptions. *)
Definition M (A : Type) : Type := world -> result A * world.

Definition ret {A} (a : A) : M A := fun w => (Ok a, w).
Definition raise {A} (e : exn) : M A := fun w => (Exn e, w).
Definition mbind {A B} (m : M A) (k : A -> M B) : M B :=
  fun w => match m w with
           | (Ok a, w') => k a w'
           | (Exn e, w') => (Exn e, w')
           end.

#[local] Notation "x <- m ;; k" := (mbind m (fun x => k))
  (at level 100, m at next level, right associativity).
#[local] Notation "m ;;; k" := (mbind m (fun _ => k))
  (at level 100, right associativity).

(** [try: m except Exception as e: handler e] *)
Definition try_except {A} (m : M A) (handler : exn -> M A) : M A :=
  fun w => match m w with
           | (Ok a, w') => (Ok a, w')
           | (Exn e, w') => handler e w'
           end.

(** [try: m finally: cleanup]: the cleanup runs on every exit; an exception
    of the cleanup would replace the outcome of [m]. *)
Definition try_finally {A} (m : M A) (cleanup : M unit) : M A :=
  fun w => match m w with
           | (r, w') => match cleanup w' with
                        | (Ok _, w'') => (r, w'')
                        | (Exn e, w'') => (Exn e, w'')
                        end
           end.

Definition emit (ev : event) : M unit :=
  fun w => (Ok tt, World (is_loaded w) (fs w) (trace w ++ [ev])).
Definition set_fs (f : gset path -> gset path) : M unit :=
  fun w => (Ok tt, World (is_loaded w) (f (fs w)) (trace w)).
Definition exists_ (p : path) : M bool :=
  fun w => (Ok (bool_decide (p ∈ fs w)), w).
Definition when (b : bool) (m : M unit) : M unit := if b then m else ret tt.

(** [model_manager.get_model()] and [get_tokenizer()] *)
Definition get_model : M unit :=
  fun w => if is_loaded w then (Ok tt, w) else (Exn RuntimeError_manager_not_loaded, w).

Section Infer.

Variable o : oracle.

(** [tempfile.NamedTemporaryFile(suffix='.jpg', delete=False)] *)
Definition NamedTemporaryFile : M path :=
  match named_temporary_file o with
  | inl p => set_fs (fun s => {[p]} ∪ s) ;;; emit (CreatedFile p) ;;; ret p
  | inr e => raise e
  end.

(** [image.save(p, format='JPEG', quality=95)] *)
Definition save_jpeg (image : pil_image) (p : path) : M unit :=
  if bool_decide (mode image ∈ jpeg_modes) then
    match image_save o with
    | None => set_fs (fun s => {[p]} ∪ s) ;;; emit (SavedImage p)
    | Some e => raise e
    end
  else raise OSError_cannot_write_mode.

(** [tempfile.mkdtemp()] *)
Definition mkdtemp_ : M path :=
  match mkdtemp o with
  | inl p => set_fs (fun s => {[p]} ∪ s) ;;; emit (CreatedDir p) ;;; ret p
  | inr e => raise e
  end.

(** [model.infer(tokenizer, prompt=..., image_file=..., ...)] *)
Definition model_infer (prompt : pystr) (image_file output_path : path)
    (base_size image_size : Z) (crop_mode save_results : bool) : M (option pystr) :=
  emit (ModelInfer prompt image_file output_path base_size image_size crop_mode save_results) ;;;
  set_fs (model_effect o) ;;;
  match model_answer o with
  | inl r => ret r
  | inr e => raise e
  end.

(** [os.remove(p)] and [shutil.rmtree(p)] *)
Definition remove (p : path) : M unit :=
  match os_remove o with
  | None => set_fs (fun s => s ∖ {[p]}) ;;; emit (Removed p)
  | Some e => raise e
  end.
Definition rmtree (p : path) : M unit :=
  match shutil_rmtree o with
  | None => set_fs (fun s => s ∖ {[p]}) ;;; emit (RemovedTree p)
  | Some e => raise e
  end.

(** The [finally] block of [infer]. *)
Definition cleanup (temp_image_path temp_output_dir : path) : M unit :=
  try_except
    (b <- exists_ temp_image_path ;;
     when b (remove temp_image_path) ;;;
     b' <- exists_ temp_output_dir ;;
     when b' (rmtree temp_output_dir))
    (fun e => emit (LogWarning e)).

(** [infer(image, prompt, base_size, image_size, crop_mode, save_results)] *)
Definition infer (image : pil_image) (prompt : pystr) (base_size image_size : Z)
    (crop_mode save_results : bool) : M (pystr * float * Z) :=
  loaded <- (fun w => (Ok (is_loaded w), w)) ;;
  if negb loaded then raise RuntimeError_model_not_loaded
  else
    try_except
      (get_model ;;;
       get_model ;;;
       temp_image_path <-
         (tmp_file <- NamedTemporaryFile ;;
          save_jpeg image tmp_file ;;;
          ret tmp_file) ;;
       temp_output_dir <- mkdtemp_ ;;
       try_finally
         (result_text <- model_infer prompt temp_image_path temp_output_dir
                           base_size image_size crop_mode save_results ;;
          let inference_time := elapsed o in
          match result_text with
          | None => raise RuntimeError_model_returned_None
          | Some t =>
              let num_tokens :=
                match t with
                | [] => 0
                | _ :: _ => Z.of_nat (length t) / 4
                end in
              ret (t, inference_time, num_tokens)
          end)
         (cleanup temp_image_path temp_output_dir))
      (fun e => emit (LogError e) ;;; raise (RuntimeError_inference_failed e)).

End Infer.

(** [infer_batch(images, prompts, base_size, image_size, crop_mode)]; the
    call for item [i] (from 0) meets the oracle [oracles i]. *)
Section Batch.

Variable oracles : nat -> oracle.
Variables (base_size image_size : Z) (crop_mode : bool).

Definition placeholder : pystr * float * Z := ([], 0%float, 0).

Fixpoint batch_loop (i : nat) (items : list (pil_image * pystr))
    (results : list (pystr * float * Z)) : M (list (pystr * float * Z)) :=
  match items with
  | [] => ret results
  | (image, prompt) :: rest =>
      result <- try_except
                  (infer (oracles i) image prompt base_size image_size crop_mode false)
                  (fun e => emit (LogError e) ;;; ret placeholder) ;;
      batch_loop (S i) rest (results ++ [result])
  end.

Definition infer_batch (images : list pil_image) (prompts : list pystr)
  : M (list (pystr * float * Z)) :=
  if negb (Nat.eqb (length images) (length prompts))
  then raise ValueError_length_mismatch
  else batch_loop 0 (zip images prompts) [].

End Batch.

End OCREngine.

(** * The rest of the application

    The modules around the pipeline: the prompts ([prompt_builder.py]), the
    preparation of the image ([ImageProcessor.validate_image] and
    [preprocess_image]), the life cycle of the model ([model_manager.py]),
    the files written for a result ([ResultProcessor.save_results]) and the
    lists, globals and callbacks of the two servers ([gradio_ocr_app.py],
    [api_server.py]) that the modules are used through. *)

(** ** Source literals outside ASCII *)

Module PyText.

(** The code points of a UTF-8 byte sequence (the source files are UTF-8);
    a byte that starts no complete sequence is kept as it is. *)
Fixpoint utf8_decode (bs : list N) : pystr :=
  match bs with
  | [] => []
  | b0 :: r0 =>
      if (b0 <? 192)%N then b0 :: utf8_decode r0
      else if (b0 <? 224)%N then
        match r0 with
        | b1 :: r1 => ((b0 - 192) * 64 + (b1 - 128))%N :: utf8_decode r1
        | _ => b0 :: utf8_decode r0
        end
      else if (b0 <? 240)%N then
        match r0 with
        | b1 :: b2 :: r2 =>
            ((b0 - 224) * 4096 + (b1 - 128) * 64 + (b2 - 128))%N :: utf8_decode r2
        | _ => b0 :: utf8_decode r0
        end
      else
        match r0 with
        | b1 :: b2 :: b3 :: r3 =>
            ((b0 - 240) * 262144 + (b1 - 128) * 4096 + (b2 - 128) * 64 + (b3 - 128))%N
              :: utf8_decode r3
        | _ => b0 :: utf8_decode r0
        end
  end.

(** A string literal of the source, as code points. *)
Definition utf8 (s : string) : pystr := utf8_decode (lit s).

End PyText.
Export PyText.

(** ** Python dicts with string keys, in insertion order *)

Module PyDict.

Section Dict.

Context {V : Type}.

(** [d[key]]; [None] is the [KeyError]. *)
Fixpoint item (d : list (pystr * V)) (key : pystr) : option V :=
  match d with
  | [] => None
  | (k, v) :: d' => if decide (k = key) then Some v else item d' key
  end.

(** [d.get(key, default)] *)
Definition get (d : list (pystr * V)) (key : pystr) (default : V) : V :=
  match item d key with
  | Some v => v
  | None => default
  end.

(** [list(d.keys())] *)
Definition keys (d : list (pystr * V)) : list pystr := map fst d.

End Dict.

End PyDict.

(** ** prompt_builder.py *)

Module PromptBuilder.

Import PyDict.

Definition IMAGE_TAG : pystr := Eval cbv in lit "<image>".

(** The task of a prompt typed by the user. *)
Definition CUSTOM_TASK : pystr := Eval cbv in utf8 "自定义Prompt".

(** The task whose template is the fallback. *)
Definition DEFAULT_TASK : pystr := Eval cbv in utf8 "文档转Markdown".

Definition PROMPT_TEMPLATES : list (pystr * pystr) :=
  [ (utf8 "文档转Markdown",
       lit "<image>" ++ [NEWLINE] ++ lit "<|grounding|>Convert the document to markdown.");
    (utf8 "通用OCR",
       lit "<image>" ++ [NEWLINE] ++ lit "<|grounding|>OCR this image.");
    (utf8 "纯文本提取",
       lit "<image>" ++ [NEWLINE] ++ lit "Free OCR.");
    (utf8 "图表解析",
       lit "<image>" ++ [NEWLINE] ++ lit "Parse the figure.");
    (utf8 "图像描述",
       lit "<image>" ++ [NEWLINE] ++ lit "Describe this image in detail.") ].

(** [build_prompt(task, custom_prompt)]; the callers pass a string or
    [None] for [custom_prompt], and both [None] and the empty string are
    false values.  [None] as a result would be the [KeyError] of a missing
    default template. *)
Definition build_prompt (task : pystr) (custom_prompt : option pystr) : option pystr :=
  if decide (task = CUSTOM_TASK) then
    match custom_prompt with
    | Some (c :: cs) =>
        let custom := c :: cs in
        match strip custom with
        | [] => item PROMPT_TEMPLATES DEFAULT_TASK
        | _ :: _ =>
            if negb (contains IMAGE_TAG custom)
            then Some (IMAGE_TAG ++ [NEWLINE] ++ strip custom)
            else Some (strip custom)
        end
    | _ => item PROMPT_TEMPLATES DEFAULT_TASK
    end
  else
    match item PROMPT_TEMPLATES DEFAULT_TASK with
    | Some default => Some (get PROMPT_TEMPLATES task default)
    | None => None
    end.

(** The dict literal of [get_task_description]. *)
Definition descriptions : list (pystr * pystr) :=
  [ (utf8 "文档转Markdown", utf8 "识别文档内容并转换为Markdown格式，保留文档结构和布局信息");
    (utf8 "通用OCR", utf8 "识别图像中的所有文字内容，包含位置信息");
    (utf8 "纯文本提取", utf8 "仅提取图像中的文字内容，忽略布局和格式");
    (utf8 "图表解析", utf8 "识别和解析图表、图形、示意图等内容");
    (utf8 "图像描述", utf8 "生成图像的详细文字描述");
    (utf8 "自定义Prompt", utf8 "使用自定义的识别指令") ].

Definition UNKNOWN_TASK : pystr := Eval cbv in utf8 "未知任务类型".

Definition get_task_description (task : pystr) : pystr :=
  get descriptions task UNKNOWN_TASK.

Definition get_all_tasks : list pystr := keys PROMPT_TEMPLATES ++ [CUSTOM_TASK].

Definition MSG_EMPTY : pystr := Eval cbv in utf8 "Prompt不能为空".
Definition MSG_NO_IMAGE : pystr := Eval cbv in utf8 "Prompt必须包含<image>标记".
Definition MSG_TOO_LONG : pystr := Eval cbv in utf8 "Prompt长度不能超过1000个字符".

(** [validate_prompt(prompt)]: (valid, error message) *)
Definition validate_prompt (prompt : pystr) : bool * pystr :=
  match prompt, strip prompt with
  | _ :: _, _ :: _ =>
      if negb (contains IMAGE_TAG prompt) then (false, MSG_NO_IMAGE)
      else if (1000 <? length prompt)%nat then (false, MSG_TOO_LONG)
      else (true, [])
  | _, _ => (false, MSG_EMPTY)
  end.

End PromptBuilder.

(** ** image_processor.py: validation and preparation *)

Module ImagePrep.

Import OCREngine.

(** A PIL image as [validate_image] looks at it: the format it was decoded
    from ([None] for an image made in memory), its mode and its size. *)
Record picture : Type := Picture {
  format : option pystr;
  pil : pil_image
}.

Definition SUPPORTED_FORMATS : list pystr :=
  [lit "JPEG"; lit "JPG"; lit "PNG"; lit "WEBP"].

Definition MAX_IMAGE_SIZE : Z := 10000.

(** [s.upper()], on the ASCII letters.  Only membership in
    [SUPPORTED_FORMATS] is asked of the result, and no character outside
    ASCII has an upper case among the letters of the four names. *)
Definition upper (s : pystr) : pystr :=
  map (fun c => if ((97 <=? c) && (c <=? 122))%N then (c - 32)%N else c) s.

(** The verdicts of [validate_image]; the text of a message is built from
    the fields shown. *)
Inductive verdict : Type :=
| Valid                                     (* (True, "") *)
| NoImage                                   (* "图像为空，请上传有效的图片" *)
| UnsupportedFormat (fmt : pystr)           (* "不支持的图像格式: ..." *)
| InvalidSize (width height : Z)            (* "无效的图像尺寸: ..." *)
| TooLarge (width height : Z).              (* "图像尺寸过大: ..." *)

(** [validate_image(image)] *)
Definition validate_image (image : option picture) : verdict :=
  match image with
  | None => NoImage
  | Some im =>
      let unsupported :=
        match format im with
        | Some (c :: cs) =>
            negb (bool_decide (upper (c :: cs) ∈ SUPPORTED_FORMATS))
        | _ => false
        end in
      if unsupported then UnsupportedFormat (default [] (format im))
      else
        let '(width, height) := image_size (pil im) in
        if (width <=? 0) || (height <=? 0) then InvalidSize width height
        else if (MAX_IMAGE_SIZE <? width) || (MAX_IMAGE_SIZE <? height)
             then TooLarge width height
             else Valid
  end.

(** What PIL decides during one call of [preprocess_image]: the image
    [ImageOps.exif_transpose] returns, and whether the conversion in the
    [try] block and the one in the handler fail. *)
Record oracle : Type := Oracle {
  exif_transpose : pil_image + exn;
  convert_first : option exn;
  convert_again : option exn
}.

(** [image.convert('RGB')]: the same raster size in mode RGB. *)
Definition convert_rgb (failure : option exn) (image : pil_image) : result pil_image :=
  match failure with
  | None => Ok (PilImage "RGB" (image_size image))
  | Some e => Exn e
  end.

(** The handler of [preprocess_image], with the image the name [image] is
    bound to when the exception arrives. *)
Definition fallback (o : oracle) (image : pil_image) : result pil_image :=
  if negb (String.eqb (mode image) "RGB") then convert_rgb (convert_again o) image
  else Ok image.

(** [preprocess_image(image)] *)
Definition preprocess_image (o : oracle) (image : pil_image) : result pil_image :=
  match exif_transpose o with
  | inr _ => fallback o image
  | inl image1 =>
      if negb (String.eqb (mode image1) "RGB") then
        match convert_rgb (convert_first o) image1 with
        | Ok image2 => Ok image2
        | Exn _ => fallback o image1
        end
      else Ok image1
  end.

End ImagePrep.

(** ** model_manager.py *)

Module ModelManager.

Inductive torch_dtype : Type := bfloat16 | float32.

(** A loaded model or tokenizer. *)
Definition handle := N.

Inductive exn : Type :=
| Exception_load_failed (cause : exn)     (* Exception(f"模型加载失败: {str(e)}") *)
| RuntimeError_model_not_loaded           (* RuntimeError("模型未加载，请先调用 load_model()") *)
| RuntimeError_tokenizer_not_loaded       (* RuntimeError("分词器未加载，请先调用 load_model()") *)
| External (name : string).

Inductive result (A : Type) : Type :=
| Ok (a : A)
| Exn (e : exn).
Arguments Ok {A} a.
Arguments Exn {A} e.

(** The calls into [transformers] and [torch], in order. *)
Inductive call : Type :=
| TokenizerFromPretrained (name : pystr)
| ModelFromPretrained (name : pystr) (flash_attention : bool) (dtype : option torch_dtype)
| ModelEval
| ConvertToFloat32
| ModelTo (device : string)
| CudaEmptyCache
| MpsEmptyCache.

(** The attributes of a [ModelManager]. *)
Record manager : Type := Manager {
  model_name : pystr;
  device : string;
  dtype : torch_dtype;
  model : option handle;
  tokenizer : option handle;
  _is_loaded : bool
}.

Record state : Type := State {
  self : manager;
  calls : list call
}.

(** What the libraries decide during one call of [load_model]. *)
Record oracle : Type := Oracle {
  tokenizer_from_pretrained : handle + exn;
  flash_from_pretrained : handle + exn;     (* with flash attention *)
  model_from_pretrained : handle + exn;     (* without *)
  model_eval : option exn;
  convert_to_float32 : option exn;
  model_to : option exn
}.

Definition M (A : Type) : Type := state -> result A * state.

Definition ret {A} (a : A) : M A := fun s => (Ok a, s).
Definition raise {A} (e : exn) : M A := fun s => (Exn e, s).
Definition mbind {A B} (m : M A) (k : A -> M B) : M B :=
  fun s => match m s with
           | (Ok a, s') => k a s'
           | (Exn e, s') => (Exn e, s')
           end.

#[local] Notation "x <- m ;; k" := (mbind m (fun x => k))
  (at level 100, m at next level, right associativity).
#[local] Notation "m ;;; k" := (mbind m (fun _ => k))
  (at level 100, right associativity).

Definition try_except {A} (m : M A) (handler : exn -> M A) : M A :=
  fun s => match m s with
           | (Ok a, s') => (Ok a, s')
           | (Exn e, s') => handler e s'
           end.

Definition emit (c : call) : M unit :=
  fun s => (Ok tt, State (self s) (calls s ++ [c])).
Definition update (f : manager -> manager) : M unit :=
  fun s => (Ok tt, State (f (self s)) (calls s)).
Definition read {A} (f : manager -> A) : M A :=
  fun s => (Ok (f (self s)), s).

Definition set_model (h : option handle) (m : manager) : manager :=
  Manager (model_name m) (device m) (dtype m) h (tokenizer m) (_is_loaded m).
Definition set_tokenizer (h : option handle) (m : manager) : manager :=
  Manager (model_name m) (device m) (dtype m) (model m) h (_is_loaded m).
Definition set_is_loaded (b : bool) (m : manager) : manager :=
  Manager (model_name m) (device m) (dtype m) (model m) (tokenizer m) b.

(** A call into a library that returns a value or raises. *)
Definition library {A} (c : call) (r : A + exn) : M A :=
  emit c ;;;
  match r with
  | inl a => ret a
  | inr e => raise e
  end.

(** A call into a library for its effect. *)
Definition effect (c : call) (failure : option exn) : M unit :=
  emit c ;;;
  match failure with
  | None => ret tt
  | Some e => raise e
  end.

(** [_detect_device()] *)
Definition _detect_device : string := "cpu".

(** [_get_dtype()], for the device detected *)
Definition _get_dtype (device : string) : torch_dtype :=
  if String.eqb device "cuda" then bfloat16 else float32.

(** [ModelManager(model_name)] *)
Definition init (model_name : pystr) : manager :=
  let device := _detect_device in
  Manager model_name device (_get_dtype device) None None false.

Section Load.

Variable o : oracle.

(** [load_model()] *)
Definition load_model : M unit :=
  loaded <- read _is_loaded ;;
  if loaded then ret tt
  else
    try_except
      (name <- read model_name ;;
       dev <- read device ;;
       tok <- library (TokenizerFromPretrained name) (tokenizer_from_pretrained o) ;;
       update (set_tokenizer (Some tok)) ;;;
       (if String.eqb dev "cuda" then
          try_except
            (m <- library (ModelFromPretrained name true None) (flash_from_pretrained o) ;;
             update (set_model (Some m)))
            (fun _ =>
               m <- library (ModelFromPretrained name false None) (model_from_pretrained o) ;;
               update (set_model (Some m)))
        else if negb (String.eqb dev "cuda") then
          m <- library (ModelFromPretrained name false (Some float32))
                 (model_from_pretrained o) ;;
          update (set_model (Some m))
        else
          m <- library (ModelFromPretrained name false None) (model_from_pretrained o) ;;
          update (set_model (Some m))) ;;;
       effect ModelEval (model_eval o) ;;;
       (if negb (String.eqb dev "cuda")
        then effect ConvertToFloat32 (convert_to_float32 o)
        else ret tt) ;;;
       effect (ModelTo dev) (model_to o) ;;;
       update (set_is_loaded true))
      (fun e => update (set_is_loaded false) ;;; raise (Exception_load_failed e)).

End Load.

(** [is_loaded()] *)
Definition is_loaded : M bool := read _is_loaded.

(** [unload_model()] *)
Definition unload_model : M unit :=
  loaded <- read _is_loaded ;;
  if loaded then
    update (set_model None) ;;;
    update (set_tokenizer None) ;;;
    update (set_is_loaded false) ;;;
    dev <- read device ;;
    if String.eqb dev "cuda" then emit CudaEmptyCache
    else if String.eqb dev "mps" then emit MpsEmptyCache
    else ret tt
  else ret tt.

(** [get_model()] and [get_tokenizer()]: the attribute, which Python lets
    be [None]. *)
Definition get_model : M (option handle) :=
  loaded <- read _is_loaded ;;
  if negb loaded then raise RuntimeError_model_not_loaded else read model.

Definition get_tokenizer : M (option handle) :=
  loaded <- read _is_loaded ;;
  if negb loaded then raise RuntimeError_tokenizer_not_loaded else read tokenizer.

(** The methods a client can call on a manager. *)
Inductive operation : Type :=
| LoadModel (o : oracle)
| UnloadModel
| GetModel
| GetTokenizer
| IsLoaded.

Definition apply (op : operation) (s : state) : state :=
  match op with
  | LoadModel o => snd (load_model o s)
  | UnloadModel => snd (unload_model s)
  | GetModel => snd (get_model s)
  | GetTokenizer => snd (get_tokenizer s)
  | IsLoaded => snd (is_loaded s)
  end.

Definition run (ops : list operation) (s : state) : state :=
  fold_left (fun s op => apply op s) ops s.

End ModelManager.

(** ** result_processor.py: the files of a result *)

Module ResultFiles.

Import OCREngine.

(** What the operating system and PIL decide during one call of
    [save_results]. *)
Record oracle : Type := Oracle {
  makedirs : option exn;
  open_text : option exn;          (* [open(text_path, 'w', encoding='utf-8')] *)
  write_text : option exn;         (* [f.write(text)], on the file just created *)
  save_image : option exn          (* a failure besides the mode check *)
}.

#[local] Notation "x <- m ;; k" := (mbind m (fun x => k))
  (at level 100, m at next level, right associativity).
#[local] Notation "m ;;; k" := (mbind m (fun _ => k))
  (at level 100, right associativity).

Section Save.

Variable o : oracle.

(** [os.path.join(output_dir, name)] *)
Variable join : path -> string -> path.

(** [os.makedirs(output_dir, exist_ok=True)] *)
Definition os_makedirs (output_dir : path) : M unit :=
  match makedirs o with
  | None => set_fs (fun s => {[output_dir]} ∪ s) ;;; emit (CreatedDir output_dir)
  | Some e => raise e
  end.

(** [with open(p, 'w', encoding='utf-8') as f: f.write(text)]: the file
    exists once it is opened, also when the write fails. *)
Definition write_file (p : path) : M unit :=
  match open_text o with
  | None =>
      set_fs (fun s => {[p]} ∪ s) ;;; emit (CreatedFile p) ;;;
      match write_text o with
      | None => ret tt
      | Some e => raise e
      end
  | Some e => raise e
  end.

(** [image.save(p, format='JPEG', quality=95)] *)
Definition save_jpeg (image : pil_image) (p : path) : M unit :=
  if bool_decide (mode image ∈ jpeg_modes) then
    match save_image o with
    | None => set_fs (fun s => {[p]} ∪ s) ;;; emit (SavedImage p)
    | Some e => raise e
    end
  else raise OSError_cannot_write_mode.

(** [save_results(text, image, output_dir, prefix)] *)
Definition save_results (text : pystr) (image : option pil_image) (output_dir : path)
    (prefix : string) : M (option path * option path) :=
  os_makedirs output_dir ;;;
  text_path <-
    match text with
    | [] => ret None
    | _ :: _ =>
        let text_path := join output_dir (prefix ++ ".md")%string in
        try_except
          (write_file text_path ;;; ret (Some text_path))
          (fun e => emit (LogError e) ;;; ret None)
    end ;;
  image_path <-
    match image with
    | None => ret None
    | Some im =>
        let image_path := join output_dir (prefix ++ "_visualization.jpg")%string in
        try_except
          (save_jpeg im image_path ;;; ret (Some image_path))
          (fun e => emit (LogError e) ;;; ret None)
    end ;;
  ret (text_path, image_path).

End Save.

End ResultFiles.

(** ** gradio_ocr_app.py and api_server.py: lists, globals and callbacks *)

Module App.

(** The list of [get_tasks] (api_server.py). *)
Definition tasks : list pystr :=
  [ utf8 "文档转Markdown"; utf8 "通用OCR"; utf8 "纯文本提取"; utf8 "图表解析";
    utf8 "图像描述"; utf8 "自定义Prompt" ].

(** The labels of the resolution selector (gradio_ocr_app.py). *)
Definition RESOLUTION_CHOICES : list pystr :=
  [ utf8 "Tiny (512×512) - 快速";
    utf8 "Small (640×640) - 中等";
    utf8 "Base (1024×1024) - 推荐";
    utf8 "Large (1280×1280) - 高质量";
    utf8 "Gundam (动态) - 大图像" ].

(** The list of [get_resolutions] (api_server.py). *)
Definition resolutions : list pystr :=
  [ utf8 "Tiny (512×512) - 快速";
    utf8 "Small (640×640) - 中等";
    utf8 "Base (1024×1024) - 推荐";
    utf8 "Large (1280×1280) - 高质量";
    utf8 "Gundam (动态分辨率) - 大图像" ].

(** The globals [model_manager] and [ocr_engine] of gradio_ocr_app.py; the
    engine holds a reference to the manager and nothing else. *)
Record globals : Type := Globals {
  model_manager : option ModelManager.state;
  ocr_engine : bool                          (* [ocr_engine is not None] *)
}.

Inductive exn : Type :=
| RuntimeError_manager_not_initialized       (* RuntimeError("模型管理器未初始化") *)
| FromManager (e : ModelManager.exn).

(** [load_model_if_needed()] of gradio_ocr_app.py *)
Definition load_model_if_needed (o : ModelManager.oracle) (g : globals)
  : (unit + exn) * globals :=
  match model_manager g with
  | None => (inr RuntimeError_manager_not_initialized, g)
  | Some s =>
      match ModelManager.is_loaded s with
      | (ModelManager.Ok true, s1) => (inl tt, Globals (Some s1) true)
      | (ModelManager.Ok false, s1) =>
          match ModelManager.load_model o s1 with
          | (ModelManager.Ok _, s2) => (inl tt, Globals (Some s2) true)
          | (ModelManager.Exn e, s2) => (inr (FromManager e), Globals (Some s2) (ocr_engine g))
          end
      | (ModelManager.Exn e, s1) => (inr (FromManager e), Globals (Some s1) (ocr_engine g))
      end
  end.

(** The world of the engine made for a manager: [is_loaded] is read from
    the manager. *)
Definition engine_world (s : ModelManager.state) (files : gset OCREngine.path)
    (tr : list OCREngine.event) : OCREngine.world :=
  OCREngine.World (ModelManager._is_loaded (ModelManager.self s)) files tr.

(** [gr.update(value=..., interactive=...)] for the crop check box *)
Record checkbox_update : Type := CheckboxUpdate { value : bool; interactive : bool }.

(** [update_crop_option(mode)] *)
Definition update_crop_option (mode : pystr) : checkbox_update :=
  let is_gundam := contains (lit "Gundam") mode in
  CheckboxUpdate is_gundam (negb is_gundam).

(** [update_custom_prompt_visibility(task)]: the [visible] of the update *)
Definition update_custom_prompt_visibility (task : pystr) : bool :=
  bool_decide (task = PromptBuilder.CUSTOM_TASK).

End App.

(** * The vocabulary of the statements *)

Import ImageProcessor ResultProcessor OCREngine.

(** [k in s] is substring containment. *)
Definition Substring (k s : pystr) : Prop := exists a b, s = a ++ k ++ b.

(** The rule of the specification: the keywords are tried in the order Tiny,
    Small, Base, Large, Gundam and the first that occurs in the label decides;
    a label with none of them gets the Base tuple. *)
Definition resolves_to (mode : pystr) (p : params) : Prop :=
  let has k := Substring (lit k) mode in
  (has "Tiny" /\ p = (512, 512, false))
  \/ (~ has "Tiny" /\ has "Small" /\ p = (640, 640, false))
  \/ (~ has "Tiny" /\ ~ has "Small" /\ has "Base" /\ p = (1024, 1024, false))
  \/ (~ has "Tiny" /\ ~ has "Small" /\ ~ has "Base" /\ has "Large" /\ p = (1280, 1280, false))
  \/ (~ has "Tiny" /\ ~ has "Small" /\ ~ has "Base" /\ ~ has "Large" /\ has "Gundam"
      /\ p = (1024, 640, true))
  \/ (~ has "Tiny" /\ ~ has "Small" /\ ~ has "Base" /\ ~ has "Large" /\ ~ has "Gundam"
      /\ p = (1024, 1024, false)).

Definition plain (s : pystr) : Prop := Forall (fun c => c <> LT) s.

Definition one_line (s : pystr) : Prop := Forall (fun c => c <> NEWLINE) s.

Definition starts_nonspace (s : pystr) : Prop :=
  match s with
  | [] => False
  | c :: _ => isspace c = false
  end.

Definition ends_nonspace (s : pystr) : Prop := starts_nonspace (rev s).

(** A text made of spans with other text before, between and after them:
    each item gives the label, the coordinate text and the text up to the
    next span. *)
Definition markup (before : pystr) (items : list (pystr * pystr * pystr)) : pystr :=
  before ++ flat_map (fun '(label, coords, after) => span label coords ++ after) items.

(** The same text with every span replaced by its label. *)
Definition labels_only (before : pystr) (items : list (pystr * pystr * pystr)) : pystr :=
  before ++ flat_map (fun '(label, _, after) => label ++ after) items.

(** Labels, coordinate texts and the text around the spans hold no [<], and
    the groups of a span hold no newline. *)
Definition well_formed_item (it : pystr * pystr * pystr) : Prop :=
  let '(label, coords, after) := it in
  plain label /\ one_line label /\ plain coords /\ one_line coords /\ plain after.

(** [z / 999.0] for an integer within the range of a float. *)
Definition normalized (z : Z) : float := (to_float z / 999)%float.

(** A float in [[0.0, 1.0]]. *)
Definition in_unit (f : float) : Prop :=
  (0 <=? f)%float = true /\ (f <=? 1)%float = true.

Definition in_unit_b (f : float) : bool := ((0 <=? f)%float && (f <=? 1)%float)%bool.

(** The integer range of the wire format. *)
Definition in_source_range (z : Z) : Prop := 0 <= z <= 999.


(** The value [[[x0, y0], [x1, y1]]] of integers. *)
Definition points_value (pts : Z * Z * Z * Z) : pyval :=
  let '(x0, y0, x1, y1) := pts in
  VList [VList [VInt x0; VInt y0]; VList [VInt x1; VInt y1]].

(** The decimal numeral of an integer of the source range, and the coordinate
    literal [[[x0,y0],[x1,y1]]] of the wire format. *)
Definition digit (d : Z) : char := Z.to_N (48 + d).

Definition decimal (z : Z) : pystr :=
  if z <? 10 then [digit z]
  else if z <? 100 then [digit (z / 10); digit (z mod 10)]
  else [digit (z / 100); digit (z / 10 mod 10); digit (z mod 10)].

Definition coord_literal (pts : Z * Z * Z * Z) : pystr :=
  let '(x0, y0, x1, y1) := pts in
  lit "[[" ++ decimal x0 ++ lit "," ++ decimal y0 ++ lit "],["
  ++ decimal x1 ++ lit "," ++ decimal y1 ++ lit "]]".


(** The box of a span with the label [label] and the points [pts]. *)
Definition box_of_points (label : pystr) (pts : Z * Z * Z * Z) : box :=
  let '(x0, y0, x1, y1) := pts in
  Box label [normalized x0; normalized y0; normalized x1; normalized y1].

Definition points_in_source_range (pts : Z * Z * Z * Z) : Prop :=
  let '(x0, y0, x1, y1) := pts in
  in_source_range x0 /\ in_source_range y0 /\ in_source_range x1 /\ in_source_range y1.

(** The coordinate text of an item evaluates to the points [pts]. *)
Definition evaluates_to (eval : pystr -> outcome pyval) (it : pystr * pystr * pystr)
    (pts : Z * Z * Z * Z) : Prop :=
  let '(_, coords, _) := it in
  eval (strip coords) = Returns (points_value pts) /\ points_in_source_range pts.

Definition item_label (it : pystr * pystr * pystr) : pystr := let '(label, _, _) := it in label.








(** Neither lazy group can be completed from the head of [s]. *)
Definition dead (s : pystr) : Prop := lazy_coords s = None /\ lazy_label s = None.

(** A text that begins like a span and at whose head nothing can be matched
    or completed. *)
Definition blocker (t : pystr) : Prop :=
  (exists t', t = 60%N :: 124%N :: 114%N :: t') /\ dead t /\ match_here t = None.

Definition lift_coords (t : pystr) (r : option (pystr * pystr)) : option (pystr * pystr) :=
  match r with
  | Some (coords, rest) => Some (coords, rest ++ t)
  | None => None
  end.

Definition lift_label (t : pystr) (r : option (pystr * pystr * pystr))
  : option (pystr * pystr * pystr) :=
  match r with
  | Some (label, coords, rest) => Some (label, coords, rest ++ t)
  | None => None
  end.

Definition sample_before : pystr :=
  Eval cbv in lit "  <|ref|>ok<|/ref|><|det|>[[1,2],[3,4]]<|/det|> then ".

Definition sample_broken_label : pystr := Eval cbv in lit "two" ++ [NEWLINE] ++ lit "lines".

Definition sample_after : pystr := Eval cbv in lit " end<|grounding|> ".

Definition sample_nested_label : pystr :=
  Eval cbv in lit "a" ++ [NEWLINE] ++ lit "<|ref|>b".

Definition sample_nested : pystr :=
  Eval cbv in lit "<|ref|>a" ++ [NEWLINE] ++ lit "<|ref|>b<|/ref|><|det|>[[1,2],[3,4]]<|/det|>".

(** The staged image and the scratch directory, when staging goes through. *)
Definition staged (o : oracle) (image : pil_image) : option (path * path) :=
  match named_temporary_file o, image_save o, mkdtemp o with
  | inl p, None, inl d => if bool_decide (mode image ∈ jpeg_modes) then Some (p, d) else None
  | _, _, _ => None
  end.

(** The exception that ends a staging that does not go through. *)
Definition staging_error (o : oracle) (image : pil_image) : exn :=
  match named_temporary_file o with
  | inr e => e
  | inl _ =>
      if bool_decide (mode image ∈ jpeg_modes) then
        match image_save o with
        | Some e => e
        | None => match mkdtemp o with inr e => e | inl _ => OSError_cannot_write_mode end
        end
      else OSError_cannot_write_mode
  end.

Definition num_tokens (t : pystr) : Z :=
  match t with
  | [] => 0
  | _ :: _ => Z.of_nat (length t) / 4
  end.

(** What a call of [infer] returns or raises, read off the load state and
    the oracle alone. *)
Definition infer_outcome (loaded : bool) (o : oracle) (image : pil_image)
  : result (pystr * float * Z) :=
  if negb loaded then Exn RuntimeError_model_not_loaded
  else match staged o image with
       | None => Exn (RuntimeError_inference_failed (staging_error o image))
       | Some _ =>
           match model_answer o with
           | inl (Some t) => Ok (t, elapsed o, num_tokens t)
           | inl None => Exn (RuntimeError_inference_failed RuntimeError_model_returned_None)
           | inr e => Exn (RuntimeError_inference_failed e)
           end
       end.

(** The prompts of the model calls in a trace, oldest first. *)
Definition model_prompts (tr : list event) : list pystr :=
  omap (fun ev => match ev with
                  | ModelInfer prompt _ _ _ _ _ _ => Some prompt
                  | _ => None
                  end) tr.

Definition calls_model (loaded : bool) (o : oracle) (image : pil_image) : bool :=
  loaded && bool_decide (is_Some (staged o image)).

(** Sample worlds and oracles. *)
Definition ready_world : world := World true ∅ [].

Definition unloaded_world : world := World false ∅ [].

Definition rgb_image : pil_image := PilImage "RGB" (640, 480).

Definition rgba_image : pil_image := PilImage "RGBA" (640, 480).

Definition plain_oracle (answer : option pystr + exn) : oracle :=
  Oracle (inl "/tmp/tmpimg.jpg"%string) None (inl "/tmp/tmpdir"%string) answer
         (fun s => s) 2%float None None.

(** The entry of the result list for one item: what [infer] returns for it,
    or the placeholder when [infer] raises. *)
Definition item_result (oracles : nat -> oracle) (base_size image_size : Z) (crop_mode : bool)
    (w : world) (i : nat) (item : pil_image * pystr) : pystr * float * Z :=
  match fst (infer (oracles i) (fst item) (snd item) base_size image_size crop_mode false w) with
  | Ok r => r
  | Exn _ => placeholder
  end.

(** The prompt of the model call made for one item, if one is made. *)
Definition item_model_call (oracles : nat -> oracle) (w : world) (i : nat)
    (item : pil_image * pystr) : list pystr :=
  if calls_model (is_loaded w) (oracles i) (fst item) then [snd item] else [].

(** The first item goes through, the second is an RGBA image, the third
    meets a model that yields [None]. *)
Definition sample_oracles (i : nat) : oracle :=
  match i with
  | 2%nat => plain_oracle (inl None)
  | _ => plain_oracle (inl (Some (lit "some text")))
  end.


(** A stand-in for PIL: the raster is the list of the calls drawn on it. *)
Definition sample_store : store (list (draw_call unit)) unit :=
  Store {[ 1%positive := Image (200, 100) [] ]} [].

Definition sample_draw (px : list (draw_call unit)) (c : draw_call unit)
  : option (list (draw_call unit)) := Some (px ++ [c]).

(** ** The vocabulary of the statements about the rest of the application *)

(** A text without white space at either end. *)
Definition trimmed (s : pystr) : Prop := s = [] \/ (starts_nonspace s /\ ends_nonspace s).

(** The prompts of [PROMPT_TEMPLATES]. *)
Definition template_prompts : list pystr := map snd PromptBuilder.PROMPT_TEMPLATES.

(** What [validate_prompt] answers for a prompt that is not blank and holds
    the image tag. *)
Definition length_verdict (p : pystr) : bool * pystr :=
  if (1000 <? length p)%nat then (false, PromptBuilder.MSG_TOO_LONG) else (true, []).

(** The state of a manager just made. *)
Definition fresh_manager (name : pystr) : ModelManager.state :=
  ModelManager.State (ModelManager.init name) [].

(** The calls a manager for the model [name] makes on a CPU: full
    precision, no flash attention, no accelerator cache. *)
Definition cpu_call (name : pystr) (c : ModelManager.call) : Prop :=
  match c with
  | ModelManager.TokenizerFromPretrained n => n = name
  | ModelManager.ModelFromPretrained n flash dt =>
      n = name /\ flash = false /\ dt = Some ModelManager.float32
  | ModelManager.ModelEval | ModelManager.ConvertToFloat32 => True
  | ModelManager.ModelTo d => d = "cpu"%string
  | ModelManager.CudaEmptyCache | ModelManager.MpsEmptyCache => False
  end.

(** The first step of a load on a CPU that fails, if one does. *)
Definition load_failure (o : ModelManager.oracle) : option ModelManager.exn :=
  match ModelManager.tokenizer_from_pretrained o with
  | inr e => Some e
  | inl _ =>
      match ModelManager.model_from_pretrained o with
      | inr e => Some e
      | inl _ =>
          match ModelManager.model_eval o, ModelManager.convert_to_float32 o,
                ModelManager.model_to o with
          | Some e, _, _ => Some e
          | None, Some e, _ => Some e
          | None, None, Some e => Some e
          | None, None, None => None
          end
      end
  end.

(** What holds of a manager for the model [name] at every moment. *)
Definition manager_ok (name : pystr) (s : ModelManager.state) : Prop :=
  ModelManager.model_name (ModelManager.self s) = name
  /\ ModelManager.device (ModelManager.self s) = "cpu"%string
  /\ ModelManager.dtype (ModelManager.self s) = ModelManager.float32
  /\ (ModelManager._is_loaded (ModelManager.self s) = true ->
      is_Some (ModelManager.model (ModelManager.self s))
      /\ is_Some (ModelManager.tokenizer (ModelManager.self s)))
  /\ Forall (cpu_call name) (ModelManager.calls s).

(** Whether [save_results] gets the text, and the image, onto the disk. *)
Definition text_saved (o : ResultFiles.oracle) (text : pystr) : bool :=
  match text, ResultFiles.open_text o, ResultFiles.write_text o with
  | _ :: _, None, None => true
  | _, _, _ => false
  end.

Definition image_saved (o : ResultFiles.oracle) (image : option pil_image) : bool :=
  match image, ResultFiles.save_image o with
  | Some im, None => bool_decide (mode im ∈ jpeg_modes)
  | _, _ => false
  end.

(** The text a segment of the scan stands for. *)
Definition segment_text (seg : segment) : pystr :=
  match seg with
  | Unmatched c => [c]
  | Matched label coords => span label coords
  end.

(** The characters [clean_markdown] drops from a match: the four tags and
    the coordinate text. *)
Definition dropped (m : pystr * pystr * pystr) : nat :=
  let '(_, _, coords) := m in (30 + length coords)%nat.


(** A text made of spans whose coordinate texts are literals of the wire
    format: each item gives the label, the four coordinates and the text up
    to the next span. *)
Definition literal_item (it : pystr * (Z * Z * Z * Z) * pystr) : pystr * pystr * pystr :=
  let '(label, pts, after) := it in (label, coord_literal pts, after).

Definition literal_item_ok (it : pystr * (Z * Z * Z * Z) * pystr) : Prop :=
  let '(label, pts, after) := it in
  plain label /\ one_line label /\ plain after /\ points_in_source_range pts.

Definition literal_box (it : pystr * (Z * Z * Z * Z) * pystr) : box :=
  let '(label, pts, _) := it in box_of_points label pts.

Definition sample_literal_items : list (pystr * (Z * Z * Z * Z) * pystr) :=
  [ (lit "title", (100, 50, 300, 100), lit " and ");
    (lit "plain text", (0, 150, 999, 200), []) ].

Definition sample_no_det : pystr := Eval cbv in lit " <|ref|>no boxes<|grounding|> here ".

(** The pixel corners of a box on an image of the given size, as [int]
    computes them. *)
Definition box_pixels (img_width img_height : Z) (b : box) : outcome (Z * Z * Z * Z) :=
  bind (of_option (nth_error (bbox b) 0)) (fun b0 =>
  bind (to_pixel b0 img_width) (fun x1 =>
  bind (of_option (nth_error (bbox b) 1)) (fun b1 =>
  bind (to_pixel b1 img_height) (fun y1 =>
  bind (of_option (nth_error (bbox b) 2)) (fun b2 =>
  bind (to_pixel b2 img_width) (fun x2 =>
  bind (of_option (nth_error (bbox b) 3)) (fun b3 =>
  bind (to_pixel b3 img_height) (fun y2 =>
  Returns (x1, y1, x2, y2))))))))).

(** The colour of the box at position [idx]: the palette, cyclically. *)
Definition box_color (idx : nat) : color := nth (idx mod 8) colors (0, 0, 0).

(** The text of a label: at most 20 characters of the box text, with an
    ellipsis when something was cut. *)
Definition display_text (t : pystr) : pystr :=
  if (20 <? length t)%nat then take 20 t ++ lit "..." else t.

(** The font size and the font used on an image. *)
Definition font_size_for (size : Z * Z) : Z := Z.max 12 (Z.min (fst size) (snd size) / 50).

Definition font_for {font : Type} (truetype : Z -> option font) (load_default : font)
    (size : Z * Z) : font :=
  match truetype (font_size_for size) with
  | Some f => f
  | None => load_default
  end.

(** The drawing calls for one box: the outline in the colour of the box,
    then nothing more, or the background of the label, or the background
    and the text of the label, in white, above the box and never above the
    top edge of the image. *)
Definition box_calls {font : Type} (size : Z * Z) (f : font) (show_text : bool)
    (box_width : Z) (idx : nat) (b : box) (cs : list (draw_call font)) : Prop :=
  exists x1 y1 x2 y2 labels,
    box_pixels (fst size) (snd size) b = Returns (x1, y1, x2, y2)
    /\ cs = Rectangle (x1, y1, x2, y2) None (Some (box_color idx)) box_width :: labels
    /\ (labels = []
        \/ (show_text = true /\ text b <> []
            /\ exists bb,
                 let background := Rectangle bb (Some (box_color idx)) None 1 in
                 let label := Text (x1, Z.max 0 (y1 - font_size_for size - 5))
                                (display_text (text b)) (255, 255, 255) f in
                 labels = [background] \/ labels = [background; label])).

(** Every outline can be drawn. *)
Definition outlines_drawable {pixels font : Type}
    (draw : pixels -> draw_call font -> option pixels) : Prop :=
  forall px xy c width, is_Some (draw px (Rectangle xy None (Some c) width)).

(** * Proofs *)

(** * Strings *)

Section StringFacts.

Lemma startswith_app (p r : pystr) : startswith p (p ++ r) = true.
Proof.
  induction p as [|a p IH]; simpl; [reflexivity|].
  rewrite N.eqb_refl, IH. reflexivity.
Qed.

Lemma startswith_inv (p s : pystr) :
  startswith p s = true -> s = p ++ drop (length p) s.
Proof.
  revert s. induction p as [|a p IH]; intros [|b s] H; simpl in *; try discriminate; auto.
  apply andb_prop in H as [Hab Hp].
  apply N.eqb_eq in Hab. subst b. f_equal. apply IH, Hp.
Qed.

Lemma startswith_true_iff (p s : pystr) :
  startswith p s = true <-> exists r, s = p ++ r.
Proof.
  split.
  - intros H. eexists. apply startswith_inv, H.
  - intros [r ->]. apply startswith_app.
Qed.

Lemma contains_true_iff (k s : pystr) : contains k s = true <-> Substring k s.
Proof.
  unfold Substring. induction s as [|c s IH]; simpl.
  - rewrite startswith_true_iff. split.
    + intros [r Hr]. exists [], r. exact Hr.
    + intros (a & b & H). destruct a; simpl in H.
      * exists b. exact H.
      * discriminate.
  - rewrite orb_true_iff, startswith_true_iff, IH. split.
    + intros [[r Hr] | (a & b & H)].
      * exists [], r. exact Hr.
      * exists (c :: a), b. simpl. f_equal. exact H.
    + intros (a & b & H). destruct a as [|x a]; simpl in H.
      * left. exists b. exact H.
      * right. injection H as _ H. exists a, b. exact H.
Qed.

Lemma contains_false_iff (k s : pystr) : contains k s = false <-> ~ Substring k s.
Proof.
  rewrite <- contains_true_iff. destruct (contains k s); split; congruence.
Qed.

End StringFacts.

(** * get_resolution_params *)

(** C5: [get_resolution_params] returns for every string (it raises nothing),
    and what it returns is the tuple of the first keyword, in the order Tiny,
    Small, Base, Large, Gundam, that is a case-sensitive substring of the
    label, or the Base tuple when there is none. *)
Theorem get_resolution_params_first_keyword (mode : pystr) :
  exists p, get_resolution_params mode = Some p /\ resolves_to mode p.
Proof.
  unfold get_resolution_params, mode_mapping, first_key_in, resolves_to.
  destruct (contains (lit "Tiny") mode) eqn:HT.
  { eexists; split; [reflexivity|]. apply contains_true_iff in HT. tauto. }
  destruct (contains (lit "Small") mode) eqn:HS.
  { eexists; split; [reflexivity|].
    apply contains_false_iff in HT. apply contains_true_iff in HS. tauto. }
  destruct (contains (lit "Base") mode) eqn:HB.
  { eexists; split; [reflexivity|].
    apply contains_false_iff in HT, HS. apply contains_true_iff in HB. tauto. }
  destruct (contains (lit "Large") mode) eqn:HL.
  { eexists; split; [reflexivity|].
    apply contains_false_iff in HT, HS, HB. apply contains_true_iff in HL. tauto. }
  destruct (contains (lit "Gundam") mode) eqn:HG.
  { eexists; split; [reflexivity|].
    apply contains_false_iff in HT, HS, HB, HL. apply contains_true_iff in HG. tauto. }
  eexists; split; [vm_compute; reflexivity|].
  apply contains_false_iff in HT, HS, HB, HL, HG. tauto.
Qed.

Example resolve_xyz_base :
  get_resolution_params (lit "XYZ Base mode") = Some (1024, 1024, false).
Proof. vm_compute. reflexivity. Qed.

Example resolve_unknown :
  get_resolution_params (lit "unknown-mode") = Some (1024, 1024, false).
Proof. vm_compute. reflexivity. Qed.

Example resolve_case_sensitive :
  get_resolution_params (lit "tiny or Gundam") = Some (1024, 640, true).
Proof. vm_compute. reflexivity. Qed.

Example resolve_order :
  get_resolution_params (lit "Gundam then Tiny") = Some (512, 512, false).
Proof. vm_compute. reflexivity. Qed.

(** * The regular expression *)

Section Matcher.

Lemma lazy_coords_sound (s coords rest : pystr) :
  lazy_coords s = Some (coords, rest) ->
  s = coords ++ DET_CLOSE ++ rest /\ one_line coords.
Proof.
  revert coords rest. induction s as [|c s IH]; intros coords rest.
  - simpl. discriminate.
  - cbn [lazy_coords]. destruct (startswith DET_CLOSE (c :: s)) eqn:Hp.
    + intros [= <- <-]. split; [|constructor].
      apply startswith_inv in Hp. exact Hp.
    + destruct (N.eqb_spec c NEWLINE) as [|Hc]; [discriminate|].
      destruct (lazy_coords s) as [[cs r]|] eqn:Hs; [|discriminate].
      intros [= <- <-]. destruct (IH _ _ eq_refl) as [-> Hl].
      split; [reflexivity|constructor; assumption].
Qed.

Lemma lazy_label_sound (s label coords rest : pystr) :
  lazy_label s = Some (label, coords, rest) ->
  s = label ++ REF_CLOSE_DET_OPEN ++ coords ++ DET_CLOSE ++ rest
  /\ one_line label /\ one_line coords.
Proof.
  revert label coords rest. induction s as [|c s IH]; intros label coords rest.
  - simpl. discriminate.
  - cbn [lazy_label].
    destruct (if startswith REF_CLOSE_DET_OPEN (c :: s)
              then lazy_coords (drop (length REF_CLOSE_DET_OPEN) (c :: s))
              else None) as [[cs r]|] eqn:Hhere.
    + intros [= <- <- <-].
      destruct (startswith REF_CLOSE_DET_OPEN (c :: s)) eqn:Hp; [|discriminate].
      apply lazy_coords_sound in Hhere as [Hd Hl].
      apply startswith_inv in Hp. rewrite Hd in Hp.
      split; [exact Hp|]. split; [constructor|exact Hl].
    + destruct (N.eqb_spec c NEWLINE) as [|Hc]; [discriminate|].
      destruct (lazy_label s) as [[[l cs] r]|] eqn:Hs; [|discriminate].
      intros [= <- <- <-]. destruct (IH _ _ _ eq_refl) as (-> & Hl & Hcs).
      split; [reflexivity|]. split; [constructor; assumption|assumption].
Qed.

(** A match is the text of a span, and neither group holds a newline. *)
Lemma match_here_sound (s label coords rest : pystr) :
  match_here s = Some (label, coords, rest) ->
  s = span label coords ++ rest /\ one_line label /\ one_line coords.
Proof.
  unfold match_here. destruct (startswith REF_OPEN s) eqn:Hp; [|discriminate].
  intros H. apply lazy_label_sound in H as (Hd & Hl & Hc).
  apply startswith_inv in Hp. rewrite Hd in Hp.
  split; [|tauto]. rewrite Hp. unfold span. rewrite <- !app_assoc. reflexivity.
Qed.

Lemma match_here_shorter (s label coords rest : pystr) :
  match_here s = Some (label, coords, rest) -> (length rest < length s)%nat.
Proof.
  intros H. apply match_here_sound in H as [-> _].
  unfold span. rewrite !length_app. simpl. lia.
Qed.

Lemma scan_loop_enough (n m : nat) (s : pystr) :
  (length s <= n)%nat -> (length s <= m)%nat -> scan_loop n s = scan_loop m s.
Proof.
  revert m s. induction n as [|n IH]; intros m s Hn Hm.
  - destruct s; [|simpl in Hn; lia]. destruct m; reflexivity.
  - destruct m as [|m].
    + destruct s; [reflexivity|simpl in Hm; lia].
    + cbn [scan_loop]. destruct (match_here s) as [[[l c] rest]|] eqn:Hmatch.
      * apply match_here_shorter in Hmatch. f_equal. apply IH; lia.
      * destruct s as [|c s]; [reflexivity|]. simpl in Hn, Hm. f_equal. apply IH; lia.
Qed.

(** The scan, without its fuel. *)
Lemma scan_eq (s : pystr) :
  scan s = match match_here s with
           | Some (label, coords, rest) => Matched label coords :: scan rest
           | None => match s with
                     | [] => []
                     | c :: s' => Unmatched c :: scan s'
                     end
           end.
Proof.
  unfold scan. destruct s as [|c s].
  - reflexivity.
  - cbn [length scan_loop]. destruct (match_here (c :: s)) as [[[l cs] rest]|] eqn:Hmatch.
    + apply match_here_shorter in Hmatch. simpl in Hmatch.
      f_equal. apply scan_loop_enough; lia.
    + reflexivity.
Qed.

Lemma scan_nil : scan [] = [].
Proof. reflexivity. Qed.

Lemma scan_unmatched (c : char) (s : pystr) :
  match_here (c :: s) = None -> scan (c :: s) = Unmatched c :: scan s.
Proof. intros H. rewrite scan_eq, H. reflexivity. Qed.

Lemma scan_matched (s label coords rest : pystr) :
  match_here s = Some (label, coords, rest) -> scan s = Matched label coords :: scan rest.
Proof. intros H. rewrite scan_eq, H. reflexivity. Qed.

(** No tag starts at a character other than [<]. *)
Lemma startswith_lt (p s : pystr) (c : char) :
  c <> LT -> startswith (LT :: p) (c :: s) = false.
Proof.
  intros Hc. change (startswith (LT :: p) (c :: s)) with ((LT =? c)%N && startswith p s).
  destruct (N.eqb_spec LT c) as [<-|]; [contradiction|reflexivity].
Qed.

Lemma match_here_not_lt (c : char) (s : pystr) : c <> LT -> match_here (c :: s) = None.
Proof.
  intros Hc. unfold match_here.
  change REF_OPEN with (LT :: tl REF_OPEN). rewrite startswith_lt by assumption. reflexivity.
Qed.

Lemma scan_plain (x s : pystr) : plain x -> scan (x ++ s) = map Unmatched x ++ scan s.
Proof.
  induction 1 as [|c x Hc Hx IH]; [reflexivity|].
  simpl. rewrite scan_unmatched by (apply match_here_not_lt, Hc). f_equal. exact IH.
Qed.

(** The lazy groups run over plain text up to the tag they wait for. *)
Lemma lazy_coords_plain (coords rest : pystr) :
  plain coords -> one_line coords ->
  lazy_coords (coords ++ DET_CLOSE ++ rest) = Some (coords, rest).
Proof.
  intros Hp Hl. induction coords as [|c coords IH].
  - reflexivity.
  - inversion Hp; inversion Hl; subst.
    change ((c :: coords) ++ DET_CLOSE ++ rest) with (c :: (coords ++ DET_CLOSE ++ rest)).
    cbn [lazy_coords]. change DET_CLOSE with (LT :: tl DET_CLOSE) at 1.
    rewrite startswith_lt by assumption.
    destruct (N.eqb_spec c NEWLINE); [contradiction|].
    rewrite IH by assumption. reflexivity.
Qed.

Lemma lazy_label_here (s coords rest : pystr) :
  startswith REF_CLOSE_DET_OPEN s = true ->
  lazy_coords (drop (length REF_CLOSE_DET_OPEN) s) = Some (coords, rest) ->
  lazy_label s = Some ([], coords, rest).
Proof.
  intros Hp Hc. destruct s as [|c s]; [discriminate|].
  cbn [lazy_label]. rewrite Hp, Hc. reflexivity.
Qed.

Lemma lazy_label_plain (label s coords rest : pystr) :
  plain label -> one_line label ->
  lazy_coords s = Some (coords, rest) ->
  lazy_label (label ++ REF_CLOSE_DET_OPEN ++ s) = Some (label, coords, rest).
Proof.
  intros Hp Hl Hs. induction label as [|c label IH].
  - change ([] ++ REF_CLOSE_DET_OPEN ++ s) with (REF_CLOSE_DET_OPEN ++ s).
    apply lazy_label_here.
    + apply startswith_app.
    + rewrite drop_app_length. exact Hs.
  - inversion Hp; inversion Hl; subst.
    change ((c :: label) ++ REF_CLOSE_DET_OPEN ++ s)
      with (c :: (label ++ REF_CLOSE_DET_OPEN ++ s)).
    cbn [lazy_label]. change REF_CLOSE_DET_OPEN with (LT :: tl REF_CLOSE_DET_OPEN) at 1.
    rewrite startswith_lt by assumption.
    destruct (N.eqb_spec c NEWLINE); [contradiction|].
    rewrite IH by assumption. reflexivity.
Qed.

(** A span with plain one-line groups is matched as it stands. *)
Lemma match_here_span (label coords rest : pystr) :
  plain label -> one_line label -> plain coords -> one_line coords ->
  match_here (span label coords ++ rest) = Some (label, coords, rest).
Proof.
  intros Hpl Hll Hpc Hlc. unfold match_here, span.
  rewrite <- !app_assoc. rewrite startswith_app.
  rewrite drop_app_length.
  apply lazy_label_plain; try assumption.
  apply lazy_coords_plain; assumption.
Qed.

End Matcher.

(** * Trimming and tag removal *)

Section Strip.

Lemma lstrip_fixed (s : pystr) : starts_nonspace s -> lstrip s = s.
Proof. destruct s as [|c s]; simpl; [tauto|]. intros ->. reflexivity. Qed.

Lemma lstrip_app (p x : pystr) : starts_nonspace x -> lstrip (p ++ x) = lstrip p ++ x.
Proof.
  intros Hx. induction p as [|c p IH]; simpl.
  - apply lstrip_fixed, Hx.
  - destruct (isspace c); [exact IH|reflexivity].
Qed.

Lemma rstrip_app (y q : pystr) : ends_nonspace y -> rstrip (y ++ q) = y ++ rstrip q.
Proof.
  intros Hy. unfold rstrip. rewrite rev_app_distr, lstrip_app by exact Hy.
  rewrite rev_app_distr, rev_involutive. reflexivity.
Qed.

Lemma ends_nonspace_app (a m : pystr) : ends_nonspace m -> ends_nonspace (a ++ m).
Proof.
  unfold ends_nonspace. rewrite rev_app_distr.
  destruct (rev m); simpl; tauto.
Qed.

Lemma starts_nonspace_app (m b : pystr) : starts_nonspace m -> starts_nonspace (m ++ b).
Proof. destruct m; simpl; tauto. Qed.

(** Trimming stops at a core that begins and ends with a visible character. *)
Lemma strip_core (p m q : pystr) :
  starts_nonspace m -> ends_nonspace m ->
  strip (p ++ m ++ q) = lstrip p ++ m ++ rstrip q.
Proof.
  intros Hs He. unfold strip.
  rewrite lstrip_app by (apply starts_nonspace_app, Hs).
  rewrite !app_assoc. rewrite rstrip_app by (apply ends_nonspace_app, He).
  reflexivity.
Qed.

Lemma lstrip_split (s : pystr) :
  exists w, s = w ++ lstrip s /\ (lstrip s = [] \/ starts_nonspace (lstrip s)).
Proof.
  induction s as [|c s (w & Hw & Hd)]; simpl.
  - exists []. auto.
  - destruct (isspace c) eqn:Hc.
    + exists (c :: w). simpl. split; [f_equal; exact Hw|exact Hd].
    + exists []. split; [reflexivity|]. right. exact Hc.
Qed.

Lemma rstrip_split (s : pystr) :
  exists w, s = rstrip s ++ w /\ (rstrip s = [] \/ ends_nonspace (rstrip s)).
Proof.
  destruct (lstrip_split (rev s)) as (w & Hw & Hd).
  exists (rev w). unfold rstrip, ends_nonspace. rewrite rev_involutive. split.
  - rewrite <- rev_app_distr, <- Hw, rev_involutive. reflexivity.
  - destruct Hd as [-> | Hd]; [left; reflexivity|right; exact Hd].
Qed.

(** A piece of a text survives the trimming of the text, up to its own
    leading and trailing whitespace. *)
Lemma strip_keeps_piece (a l b : pystr) : Substring (strip l) (strip (a ++ l ++ b)).
Proof.
  unfold strip at 1.
  destruct (lstrip_split l) as (w1 & Hl & Hd1).
  destruct (rstrip_split (lstrip l)) as (w2 & Hm & Hd2).
  set (m := rstrip (lstrip l)) in *.
  destruct Hd2 as [Hnil | He].
  { rewrite Hnil. exists [], (strip (a ++ l ++ b)). reflexivity. }
  assert (Hs : starts_nonspace m).
  { destruct Hd1 as [Hnil | Hs].
    - rewrite Hnil in Hm. destruct m; [destruct He|discriminate].
    - rewrite Hm in Hs. destruct m; [destruct He|exact Hs]. }
  assert (Hdec : a ++ l ++ b = (a ++ w1) ++ m ++ (w2 ++ b)).
  { rewrite Hl at 1. rewrite Hm at 1. rewrite <- !app_assoc. reflexivity. }
  rewrite Hdec, strip_core by assumption.
  eexists _, _. reflexivity.
Qed.

Lemma strip_fixed (l : pystr) : starts_nonspace l -> ends_nonspace l -> strip l = l.
Proof.
  intros Hs He. pose proof (strip_core [] l [] Hs He) as H.
  simpl in H. change (rstrip []) with (@nil char) in H. rewrite app_nil_r in H. exact H.
Qed.




End Strip.

Section Tags.


Lemma remove_loop_plain (n : nat) (p s : pystr) :
  plain s -> (length s <= n)%nat -> remove_loop n (LT :: p) s = s.
Proof.
  intros Hs. revert n. induction Hs as [|c s Hc Hs IH]; intros n Hn.
  - destruct n; reflexivity.
  - destruct n as [|n]; [simpl in Hn; lia|].
    cbn [remove_loop]. rewrite startswith_lt by assumption.
    f_equal. apply IH. simpl in Hn. lia.
Qed.

Lemma remove_all_plain (p s : pystr) : plain s -> remove_all (LT :: p) s = s.
Proof. intros Hs. unfold remove_all. apply remove_loop_plain; [exact Hs|lia]. Qed.

Lemma plain_app (a b : pystr) : plain a -> plain b -> plain (a ++ b).
Proof. apply Forall_app_2. Qed.

(** A text checked character by character. *)
Lemma plain_tail_of_tag (t : pystr) :
  forallb (fun c => negb (c =? LT)%N) t = true -> plain t.
Proof.
  intros H. apply List.Forall_forall. intros c Hin.
  rewrite forallb_forall in H. specialize (H c Hin).
  apply negb_true_iff, N.eqb_neq in H. exact H.
Qed.

End Tags.

(** * Well-formed markup *)

Section Markup.

Lemma scan_markup (before : pystr) (items : list (pystr * pystr * pystr)) :
  plain before -> Forall well_formed_item items ->
  scan (markup before items)
  = map Unmatched before
    ++ flat_map (fun '(label, coords, after) => Matched label coords :: map Unmatched after) items.
Proof.
  intros Hb Hitems. unfold markup. rewrite scan_plain by exact Hb. f_equal.
  induction Hitems as [|[[label coords] after] items Hwf _ IH]; [reflexivity|].
  destruct Hwf as (Hpl & Hll & Hpc & Hlc & Hpa).
  cbn [flat_map]. rewrite <- !app_assoc.
  rewrite (scan_matched _ label coords (after ++ flat_map _ items))
    by (apply match_here_span; assumption).
  rewrite scan_plain by exact Hpa. cbn [app]. f_equal. f_equal. exact IH.
Qed.

Lemma re_findall_markup (before : pystr) (items : list (pystr * pystr * pystr)) :
  plain before -> Forall well_formed_item items ->
  re_findall (markup before items)
  = map (fun '(label, coords, _) => (span label coords, label, coords)) items.
Proof.
  intros Hb Hitems. unfold re_findall. rewrite scan_markup by assumption.
  rewrite flat_map_app.
  replace (flat_map _ (map Unmatched before)) with (@nil (pystr * pystr * pystr)).
  2:{ clear. induction before; [reflexivity|assumption]. }
  simpl. clear. induction items as [|[[label coords] after] items IH]; [reflexivity|].
  cbn [flat_map map]. rewrite flat_map_app. cbn [flat_map app].
  replace (flat_map _ (map Unmatched after)) with (@nil (pystr * pystr * pystr)).
  2:{ clear. induction after; [reflexivity|assumption]. }
  simpl. f_equal. exact IH.
Qed.

Lemma re_sub_markup (before : pystr) (items : list (pystr * pystr * pystr)) :
  plain before -> Forall well_formed_item items ->
  re_sub (markup before items) = labels_only before items.
Proof.
  intros Hb Hitems. unfold re_sub, labels_only. rewrite scan_markup by assumption.
  rewrite flat_map_app.
  assert (Hun : forall x : pystr, flat_map (fun seg => match seg with
                                    | Unmatched c => [c]
                                    | Matched label _ => label
                                    end) (map Unmatched x) = x).
  { induction x as [|c x IHx]; [reflexivity|]. simpl. f_equal. exact IHx. }
  rewrite Hun. f_equal. clear Hb Hitems.
  induction items as [|[[label coords] after] items IH]; [reflexivity|].
  cbn [flat_map]. rewrite flat_map_app. cbn [flat_map].
  rewrite Hun, <- !app_assoc. do 2 apply (f_equal (app _)). exact IH.
Qed.

Lemma labels_only_plain (before : pystr) (items : list (pystr * pystr * pystr)) :
  plain before -> Forall well_formed_item items -> plain (labels_only before items).
Proof.
  intros Hb Hitems. unfold labels_only. apply plain_app; [exact Hb|].
  induction Hitems as [|[[label coords] after] items Hwf _ IH]; [constructor|].
  destruct Hwf as (Hpl & _ & _ & _ & Hpa).
  cbn [flat_map]. rewrite <- app_assoc. repeat apply plain_app; assumption.
Qed.


End Markup.

(** * Normalised coordinates *)

Section Coordinates.

Lemma source_range_table :
  forallb (fun n => negb (PrimFloat.is_infinity (to_float (Z.of_nat n)))
                    && in_unit_b (normalized (Z.of_nat n))) (seq 0 1000) = true.
Proof. vm_compute. reflexivity. Qed.

Lemma source_range_facts (z : Z) :
  in_source_range z ->
  PrimFloat.is_infinity (to_float z) = false /\ in_unit (normalized z).
Proof.
  intros [Hlo Hhi].
  pose proof source_range_table as Htab.
  rewrite forallb_forall in Htab.
  specialize (Htab (Z.to_nat z)).
  rewrite Z2Nat.id in Htab by exact Hlo.
  assert (Hin : In (Z.to_nat z) (seq 0 1000)) by (apply in_seq; lia).
  apply Htab in Hin. apply andb_prop in Hin as [Hfin Hunit].
  apply negb_true_iff in Hfin. apply andb_prop in Hunit.
  split; [exact Hfin|exact Hunit].
Qed.

Lemma truediv_source_range (z : Z) :
  in_source_range z -> truediv (VInt z) 999 = Returns (normalized z).
Proof.
  intros Hz. apply source_range_facts in Hz as [Hfin _].
  unfold truediv, float_of_int. rewrite Hfin. reflexivity.
Qed.


End Coordinates.

(** * extract_bounding_boxes *)

Section Extract.

Variable eval : pystr -> outcome pyval.

Lemma bind_returns {A B} (m : outcome A) (k : A -> outcome B) (b : B) :
  bind m k = Returns b -> exists a, m = Returns a /\ k a = Returns b.
Proof. destruct m; simpl; intros H; try discriminate. eauto. Qed.











Lemma re_findall_full (raw full label coords : pystr) :
  In (full, label, coords) (re_findall raw) ->
  full = span label coords /\ In (Matched label coords) (scan raw).
Proof.
  unfold re_findall. rewrite in_flat_map. intros ([c|l cs] & Hin & Hm); [destruct Hm|].
  destruct Hm as [[= <- <- <-]|[]]. split; [reflexivity|exact Hin].
Qed.

End Extract.

(** * The coordinate literal and the evaluator *)

Section Lexer.

Lemma span_while_length (p : char -> bool) (s a b : pystr) :
  span_while p s = (a, b) -> s = a ++ b.
Proof.
  revert a b. induction s as [|c s IH]; intros a b; simpl.
  - intros [= <- <-]. reflexivity.
  - destruct (p c).
    + destruct (span_while p s) as [a' b'] eqn:Hs. intros [= <- <-].
      simpl. f_equal. apply IH. reflexivity.
    + intros [= <- <-]. reflexivity.
Qed.

Lemma span_while_all (p : char -> bool) (ds rest : pystr) (r : char) :
  forallb p ds = true -> p r = false ->
  span_while p (ds ++ r :: rest) = (ds, r :: rest).
Proof.
  intros Hds Hr. induction ds as [|d ds IH]; simpl.
  - rewrite Hr. reflexivity.
  - simpl in Hds. apply andb_prop in Hds as [Hd Hds]. rewrite Hd, IH by exact Hds.
    reflexivity.
Qed.

Lemma lex_enough (n m : nat) (s : pystr) :
  (length s <= n)%nat -> (length s <= m)%nat -> lex n s = lex m s.
Proof.
  revert m s. induction n as [|n IH]; intros m s Hn Hm.
  - destruct s; [|simpl in Hn; lia]. destruct m; reflexivity.
  - destruct m as [|m]; [destruct s; [reflexivity|simpl in Hm; lia]|].
    destruct s as [|c s]; [reflexivity|]. simpl in Hn, Hm.
    cbn [lex].
    destruct (is_blank c); [apply IH; lia|].
    destruct (is_digit c) eqn:Hdig.
    { destruct (span_while is_digit (c :: s)) as [ds rest] eqn:Hsp.
      pose proof (span_while_length _ _ _ _ Hsp) as Hlen.
      simpl in Hsp. rewrite Hdig in Hsp.
      destruct (span_while is_digit s) as [a' b'] eqn:Hs'. injection Hsp as <- <-.
      apply (f_equal (@length _)) in Hlen. simpl in Hlen. rewrite length_app in Hlen.
      destruct (int_literal (c :: a')); [|reflexivity].
      destruct b' as [|r b']; [reflexivity|].
      destruct (is_name_start r); [reflexivity|].
      f_equal. apply IH; simpl in *; lia. }
    destruct (is_name_start c) eqn:Hname.
    { destruct (span_while (fun x => is_name_start x || is_digit x) (c :: s))
        as [nm rest] eqn:Hsp.
      pose proof (span_while_length _ _ _ _ Hsp) as Hlen.
      simpl in Hsp. rewrite Hname in Hsp. simpl in Hsp.
      destruct (span_while (fun x => is_name_start x || is_digit x) s) as [a' b'] eqn:Hs'.
      injection Hsp as <- <-.
      apply (f_equal (@length _)) in Hlen. simpl in Hlen. rewrite length_app in Hlen.
      f_equal. apply IH; lia. }
    repeat match goal with
           | |- context [if ?b then _ else _] => destruct b
           end; try reflexivity; f_equal; apply IH; lia.
Qed.

(** One punctuation mark. *)
Lemma lex_punctuation (c : char) (t : token) (s : pystr) (n : nat) :
  In (c, t) [(91%N, TLBrack); (93%N, TRBrack); (44%N, TComma)] ->
  (length s <= n)%nat ->
  lex (S n) (c :: s) = option_map (cons t) (lex (length s) s).
Proof.
  intros Hin Hn. rewrite (lex_enough _ n s) by lia.
  destruct Hin as [[= <- <-] | [[= <- <-] | [[= <- <-] | []]]]; reflexivity.
Qed.

End Lexer.

Section CoordLiteral.

Lemma decimal_table :
  forallb (fun n => let ds := decimal (Z.of_nat n) in
                    forallb is_digit ds
                    && forallb (fun c => negb (is_blank c) && negb (c =? LT)%N
                                         && negb (c =? NEWLINE)%N) ds
                    && negb (Nat.eqb (length ds) 0)
                    && match int_literal ds with
                       | Some z => Z.eqb z (Z.of_nat n)
                       | None => false
                       end) (seq 0 1000) = true.
Proof. vm_compute. reflexivity. Qed.

Lemma decimal_facts (z : Z) :
  in_source_range z ->
  forallb is_digit (decimal z) = true
  /\ forallb (fun c => negb (is_blank c) && negb (c =? LT)%N && negb (c =? NEWLINE)%N)
       (decimal z) = true
  /\ decimal z <> []
  /\ int_literal (decimal z) = Some z.
Proof.
  intros [Hlo Hhi]. pose proof decimal_table as Htab.
  rewrite forallb_forall in Htab. specialize (Htab (Z.to_nat z)).
  rewrite Z2Nat.id in Htab by exact Hlo.
  assert (Hin : In (Z.to_nat z) (seq 0 1000)) by (apply in_seq; lia).
  apply Htab in Hin. cbv zeta in Hin.
  apply andb_prop in Hin as [Hin Hval]. apply andb_prop in Hin as [Hin Hne].
  apply andb_prop in Hin as [Hdig Hvis].
  split; [exact Hdig|]. split; [exact Hvis|]. split.
  - intros Heq. rewrite Heq in Hne. discriminate.
  - destruct (int_literal (decimal z)) as [z'|]; [|discriminate].
    apply Z.eqb_eq in Hval. congruence.
Qed.

Lemma decimal_plain (z : Z) : in_source_range z -> plain (decimal z) /\ one_line (decimal z).
Proof.
  intros Hz. destruct (decimal_facts z Hz) as (_ & Hvis & _).
  rewrite forallb_forall in Hvis.
  split; apply List.Forall_forall; intros c Hc; specialize (Hvis c Hc);
    apply andb_prop in Hvis as [Hvis Hnl]; apply andb_prop in Hvis as [_ Hlt].
  - apply negb_true_iff, N.eqb_neq in Hlt. exact Hlt.
  - apply negb_true_iff, N.eqb_neq in Hnl. exact Hnl.
Qed.

(** The lexer with the fuel it is started with. *)
Let lexer (s : pystr) : option (list token) := lex (length s) s.

Lemma lexer_punctuation (c : char) (t : token) (s : pystr) :
  In (c, t) [(91%N, TLBrack); (93%N, TRBrack); (44%N, TComma)] ->
  lexer (c :: s) = option_map (cons t) (lexer s).
Proof. intros Hin. unfold lexer. cbn [length]. apply lex_punctuation; [exact Hin|lia]. Qed.

Lemma lexer_decimal (z : Z) (r : char) (rest : pystr) :
  in_source_range z -> is_digit r = false -> is_name_start r = false ->
  lexer (decimal z ++ r :: rest) = option_map (cons (TInt z)) (lexer (r :: rest)).
Proof.
  intros Hz Hr Hn. destruct (decimal_facts z Hz) as (Hdig & Hvis & Hne & Hval).
  unfold lexer. destruct (decimal z) as [|d ds] eqn:Hd; [contradiction|].
  set (after := lex (length (r :: rest)) (r :: rest)).
  cbn [app length lex].
  simpl in Hvis. apply andb_prop in Hvis as [Hvd _].
  apply andb_prop in Hvd as [Hvd _]. apply andb_prop in Hvd as [Hblank _].
  apply negb_true_iff in Hblank. rewrite Hblank.
  pose proof Hdig as Hdig'. simpl in Hdig'. apply andb_prop in Hdig' as [Hd0 _]. rewrite Hd0.
  change (d :: ds ++ r :: rest) with ((d :: ds) ++ r :: rest).
  rewrite (span_while_all is_digit (d :: ds) rest r Hdig Hr).
  rewrite Hval, Hn. f_equal. subst after.
  apply lex_enough; rewrite ?length_app; simpl; lia.
Qed.

(** The evaluator reads the coordinate literal of four integers of the source
    range as the two points it denotes. *)
Lemma py_eval_coord_literal (pts : Z * Z * Z * Z) :
  points_in_source_range pts -> py_eval (coord_literal pts) = Returns (points_value pts).
Proof.
  destruct pts as [[[x0 y0] x1] y1]. intros (H0 & H1 & H2 & H3).
  unfold py_eval, parse, coord_literal.
  change (lex (length ?s) ?s) with (lexer s).
  assert (Hlex : lexer (lit "[[" ++ decimal x0 ++ lit "," ++ decimal y0 ++ lit "],["
                        ++ decimal x1 ++ lit "," ++ decimal y1 ++ lit "]]")
                 = Some [TLBrack; TLBrack; TInt x0; TComma; TInt y0; TRBrack; TComma;
                         TLBrack; TInt x1; TComma; TInt y1; TRBrack; TRBrack]).
  { cbn [lit list_ascii_of_string map N_of_ascii app].
    change (N_of_ascii _) with 91%N || idtac.
    repeat first
      [ rewrite (lexer_punctuation 91%N TLBrack) by (simpl; tauto)
      | rewrite (lexer_punctuation 93%N TRBrack) by (simpl; tauto)
      | rewrite (lexer_punctuation 44%N TComma) by (simpl; tauto)
      | rewrite lexer_decimal by (assumption || reflexivity) ].
    reflexivity. }
  rewrite Hlex. reflexivity.
Qed.

Lemma coord_literal_plain (pts : Z * Z * Z * Z) :
  points_in_source_range pts ->
  plain (coord_literal pts) /\ one_line (coord_literal pts)
  /\ strip (coord_literal pts) = coord_literal pts.
Proof.
  destruct pts as [[[x0 y0] x1] y1]. intros (H0 & H1 & H2 & H3).
  destruct (decimal_plain x0 H0), (decimal_plain y0 H1), (decimal_plain x1 H2),
    (decimal_plain y1 H3).
  unfold coord_literal. split; [|split].
  - repeat apply plain_app; try assumption; apply plain_tail_of_tag; reflexivity.
  - unfold one_line in *. repeat apply Forall_app_2; try assumption;
      repeat constructor; discriminate.
  - apply strip_fixed; [reflexivity|]. unfold ends_nonspace.
    rewrite !rev_app_distr. reflexivity.
Qed.

(** A span written with the coordinate literal of four integers of the
    source range is well formed, and its coordinate text evaluates to them. *)
Lemma literal_item_evaluates (label after : pystr) (pts : Z * Z * Z * Z) :
  plain label -> one_line label -> plain after -> points_in_source_range pts ->
  well_formed_item (label, coord_literal pts, after)
  /\ evaluates_to py_eval (label, coord_literal pts, after) pts.
Proof.
  intros Hl Hol Ha Hp. destruct (coord_literal_plain pts Hp) as (Hpc & Hoc & Hstrip).
  split.
  - repeat split; assumption.
  - split; [|exact Hp]. rewrite Hstrip. apply py_eval_coord_literal, Hp.
Qed.

End CoordLiteral.







Section RoundTrip.

Variable eval : pystr -> outcome pyval.

Lemma box_of_match_points (label coords : pystr) (pts : Z * Z * Z * Z) :
  eval (strip coords) = Returns (points_value pts) ->
  points_in_source_range pts ->
  box_of_match eval label coords = Returns (Some (box_of_points label pts)).
Proof.
  destruct pts as [[[x0 y0] x1] y1]. intros Hv (H0 & H1 & H2 & H3).
  unfold box_of_match. rewrite Hv. cbn [bind points_value len length Nat.eqb getitem
    nth_error of_option unpack2].
  rewrite !truediv_source_range by assumption. reflexivity.
Qed.

Lemma collect_boxes_points (items : list (pystr * pystr * pystr))
    (pts : list (Z * Z * Z * Z)) (acc : list box) :
  Forall2 (evaluates_to eval) items pts ->
  collect_boxes eval
    (map (fun '(label, coords, _) => (span label coords, label, coords)) items) acc
  = Returns (acc ++ zip_with (fun it p => box_of_points (item_label it) p) items pts).
Proof.
  intros H. revert acc. induction H as [|[[label coords] after] p items pts [Hv Hr] _ IH];
    intros acc.
  - simpl. rewrite app_nil_r. reflexivity.
  - cbn [map collect_boxes zip_with item_label].
    rewrite (box_of_match_points label coords p Hv Hr).
    rewrite IH, <- app_assoc. reflexivity.
Qed.

Lemma clean_markdown_markup (before : pystr) (items : list (pystr * pystr * pystr)) :
  plain before -> Forall well_formed_item items ->
  clean_markdown (markup before items) = strip (labels_only before items).
Proof.
  intros Hb Hitems. unfold clean_markdown.
  rewrite re_sub_markup by assumption.
  change GROUNDING with (LT :: tl GROUNDING).
  rewrite remove_all_plain by (apply labels_only_plain; assumption).
  reflexivity.
Qed.

End RoundTrip.




(** * Spans broken by a newline *)

Section Dead.

Lemma dead_newline (s : pystr) : dead (NEWLINE :: s).
Proof. split; reflexivity. Qed.

Lemma dead_cons (c : char) (s : pystr) : c <> LT -> dead s -> dead (c :: s).
Proof.
  intros Hc [Hcs Hls]. split.
  - cbn [lazy_coords]. change DET_CLOSE with (LT :: tl DET_CLOSE).
    rewrite startswith_lt by exact Hc. rewrite Hcs. destruct (c =? NEWLINE)%N; reflexivity.
  - cbn [lazy_label]. change REF_CLOSE_DET_OPEN with (LT :: tl REF_CLOSE_DET_OPEN).
    rewrite startswith_lt by exact Hc. rewrite Hls. destruct (c =? NEWLINE)%N; reflexivity.
Qed.

Lemma dead_plain (a s : pystr) : plain a -> dead s -> dead (a ++ s).
Proof.
  induction 1 as [|c a Hc Ha IH]; intros Hs; [exact Hs|].
  simpl. apply dead_cons; [exact Hc|apply IH, Hs].
Qed.

Lemma dead_step (c : char) (s : pystr) :
  startswith DET_CLOSE (c :: s) = false ->
  startswith REF_CLOSE_DET_OPEN (c :: s) = false
  \/ lazy_coords (drop (length REF_CLOSE_DET_OPEN) (c :: s)) = None ->
  dead s -> dead (c :: s).
Proof.
  intros Hclose Hmid [Hcs Hls]. split.
  - cbn [lazy_coords]. rewrite Hclose, Hcs. destruct (c =? NEWLINE)%N; reflexivity.
  - cbn [lazy_label].
    assert (Hhere : (if startswith REF_CLOSE_DET_OPEN (c :: s)
                     then lazy_coords (drop (length REF_CLOSE_DET_OPEN) (c :: s))
                     else None) = None).
    { destruct Hmid as [-> | ->]; [reflexivity|].
      destruct (startswith REF_CLOSE_DET_OPEN (c :: s)); reflexivity. }
    rewrite Hhere, Hls. destruct (c =? NEWLINE)%N; reflexivity.
Qed.

Lemma dead_REF_OPEN (s : pystr) : dead s -> dead (REF_OPEN ++ s).
Proof.
  intros Hs. change (REF_OPEN ++ s) with (LT :: (tl REF_OPEN ++ s)).
  apply dead_step; [reflexivity|left; reflexivity|].
  apply dead_plain; [apply plain_tail_of_tag; reflexivity|exact Hs].
Qed.

Lemma dead_REF_CLOSE_DET_OPEN (s : pystr) : dead s -> dead (REF_CLOSE_DET_OPEN ++ s).
Proof.
  intros Hs.
  change (REF_CLOSE_DET_OPEN ++ s) with (LT :: (tl REF_CLOSE ++ LT :: (tl DET_OPEN ++ s))).
  apply dead_step; [reflexivity|right; apply Hs|].
  apply dead_plain; [apply plain_tail_of_tag; reflexivity|].
  apply dead_step; [reflexivity|left; reflexivity|].
  apply dead_plain; [apply plain_tail_of_tag; reflexivity|exact Hs].
Qed.

Lemma plain_app_inv (a b : pystr) : plain (a ++ b) -> plain a /\ plain b.
Proof. apply Forall_app. Qed.

Lemma plain_cons_inv (c : char) (a : pystr) : plain (c :: a) -> plain a.
Proof. intros H. inversion H. assumption. Qed.

(** The text after the opening tag of a span with a newline in one of its
    groups. *)
Lemma broken_tail_dead (label coords y : pystr) :
  plain label -> plain coords -> In NEWLINE (label ++ coords) ->
  dead (label ++ REF_CLOSE_DET_OPEN ++ coords ++ DET_CLOSE ++ y).
Proof.
  intros Hl Hc Hin. apply in_app_or in Hin as [Hin | Hin].
  - apply in_split in Hin as (l1 & l2 & ->).
    apply plain_app_inv in Hl as [Hl1 _].
    rewrite <- app_assoc. apply dead_plain; [exact Hl1|].
    apply dead_newline.
  - apply in_split in Hin as (c1 & c2 & ->).
    apply plain_app_inv in Hc as [Hc1 _].
    apply dead_plain; [exact Hl|].
    apply dead_REF_CLOSE_DET_OPEN.
    rewrite <- app_assoc. apply dead_plain; [exact Hc1|].
    apply dead_newline.
Qed.

Lemma broken_span_blocker (label coords y : pystr) :
  plain label -> plain coords -> In NEWLINE (label ++ coords) ->
  blocker (span label coords ++ y).
Proof.
  intros Hl Hc Hin.
  pose proof (broken_tail_dead label coords y Hl Hc Hin) as Hdead.
  unfold span. rewrite <- !app_assoc. split; [|split].
  - eexists. reflexivity.
  - apply dead_REF_OPEN, Hdead.
  - unfold match_here. rewrite startswith_app, drop_app_length. apply Hdead.
Qed.

End Dead.

Section Blocking.

(** No tag straddles the end of a text and the head of a blocker. *)
Tactic Notation "straddle" integer(n) :=
  let x := fresh "x" in
  intros x ? ?;
  destruct x as [|? x]; [contradiction|];
  do n (destruct x as [|? x]; [cbn; rewrite ?andb_false_r; reflexivity|]);
  reflexivity.

Lemma startswith_REF_OPEN_blocked (x t' : pystr) :
  x <> [] ->
  startswith REF_OPEN (x ++ 60%N :: 124%N :: 114%N :: t') = startswith REF_OPEN x.
Proof. revert x t'. straddle 6. Qed.

Lemma startswith_DET_CLOSE_blocked (x t' : pystr) :
  x <> [] ->
  startswith DET_CLOSE (x ++ 60%N :: 124%N :: 114%N :: t') = startswith DET_CLOSE x.
Proof. revert x t'. straddle 7. Qed.

Lemma startswith_REF_CLOSE_DET_OPEN_blocked (x t' : pystr) :
  x <> [] ->
  startswith REF_CLOSE_DET_OPEN (x ++ 60%N :: 124%N :: 114%N :: t')
  = startswith REF_CLOSE_DET_OPEN x.
Proof. revert x t'. straddle 14. Qed.

Lemma startswith_GROUNDING_blocked (x t' : pystr) :
  x <> [] ->
  startswith GROUNDING (x ++ 60%N :: 124%N :: 114%N :: t') = startswith GROUNDING x.
Proof. revert x t'. straddle 12. Qed.

Lemma startswith_length (p s : pystr) : startswith p s = true -> (length p <= length s)%nat.
Proof.
  intros H. apply startswith_inv in H. rewrite H at 1. rewrite length_app. lia.
Qed.

Variable t : pystr.
Hypothesis Ht : blocker t.

Lemma lazy_coords_blocked (x : pystr) : lazy_coords (x ++ t) = lift_coords t (lazy_coords x).
Proof.
  destruct Ht as ([t' Heq] & [Hdc _] & _).
  induction x as [|c x IH].
  - simpl. exact Hdc.
  - change ((c :: x) ++ t) with (c :: (x ++ t)). cbn [lazy_coords].
    change (c :: (x ++ t)) with ((c :: x) ++ t). rewrite Heq at 1.
    rewrite startswith_DET_CLOSE_blocked by discriminate.
    destruct (startswith DET_CLOSE (c :: x)) eqn:Hp.
    + apply startswith_length in Hp.
      rewrite drop_app_le by exact Hp. reflexivity.
    + destruct (c =? NEWLINE)%N; [reflexivity|].
      rewrite IH. destruct (lazy_coords x) as [[cs r]|]; reflexivity.
Qed.

Lemma lazy_label_blocked (x : pystr) : lazy_label (x ++ t) = lift_label t (lazy_label x).
Proof.
  destruct Ht as ([t' Heq] & [_ Hdl] & _).
  induction x as [|c x IH].
  - simpl. exact Hdl.
  - change ((c :: x) ++ t) with (c :: (x ++ t)). cbn [lazy_label].
    change (c :: (x ++ t)) with ((c :: x) ++ t). rewrite Heq at 1.
    rewrite startswith_REF_CLOSE_DET_OPEN_blocked by discriminate.
    destruct (startswith REF_CLOSE_DET_OPEN (c :: x)) eqn:Hp.
    + apply startswith_length in Hp.
      rewrite drop_app_le by exact Hp. rewrite lazy_coords_blocked.
      destruct (lazy_coords (drop (length REF_CLOSE_DET_OPEN) (c :: x))) as [[cs r]|].
      * reflexivity.
      * simpl. destruct (c =? NEWLINE)%N; [reflexivity|].
        rewrite IH. destruct (lazy_label x) as [[[l cs] r]|]; reflexivity.
    + destruct (c =? NEWLINE)%N; [reflexivity|].
      rewrite IH. destruct (lazy_label x) as [[[l cs] r]|]; reflexivity.
Qed.

Lemma match_here_blocked (x : pystr) : match_here (x ++ t) = lift_label t (match_here x).
Proof.
  destruct x as [|c x].
  - simpl. apply Ht.
  - destruct Ht as ([t' Heq] & _). unfold match_here.
    rewrite Heq at 1. rewrite startswith_REF_OPEN_blocked by discriminate.
    destruct (startswith REF_OPEN (c :: x)) eqn:Hp; [|reflexivity].
    apply startswith_length in Hp. rewrite drop_app_le by exact Hp.
    apply lazy_label_blocked.
Qed.

(** The scan of the text before a blocker does not depend on the blocker. *)
Lemma scan_blocked (x : pystr) : scan (x ++ t) = scan x ++ scan t.
Proof.
  remember (length x) as n eqn:Hn. revert x Hn.
  induction n as [n IH] using lt_wf_ind. intros x Hn.
  rewrite (scan_eq (x ++ t)), (scan_eq x), match_here_blocked.
  destruct (match_here x) as [[[l cs] r]|] eqn:Hm.
  - simpl. f_equal. apply match_here_shorter in Hm.
    apply (IH (length r)); [lia|reflexivity].
  - simpl. destruct x as [|c x].
    + simpl. rewrite (scan_eq t). destruct Ht as (_ & _ & ->).
      reflexivity.
    + simpl. f_equal. apply (IH (length x)); [simpl in Hn; lia|reflexivity].
Qed.

End Blocking.

Section BrokenSpan.

Lemma remove_loop_enough (old : pystr) (n m : nat) (s : pystr) :
  old <> [] -> (length s <= n)%nat -> (length s <= m)%nat ->
  remove_loop n old s = remove_loop m old s.
Proof.
  intros Hold. revert m s. induction n as [|n IH]; intros m s Hn Hm.
  - destruct s; [|simpl in Hn; lia]. destruct m; [reflexivity|].
    simpl. destruct old; [contradiction|reflexivity].
  - destruct m as [|m].
    + destruct s; [|simpl in Hm; lia]. simpl. destruct old; [contradiction|reflexivity].
    + cbn [remove_loop]. destruct (startswith old s) eqn:Hp.
      * apply startswith_length in Hp.
        assert (0 < length old)%nat by (destruct old; [contradiction|simpl; lia]).
        apply IH; rewrite length_drop; lia.
      * destruct s as [|c s]; [reflexivity|]. simpl in Hn, Hm. f_equal. apply IH; lia.
Qed.

(** [replace], without its fuel. *)
Lemma remove_all_eq (old s : pystr) :
  old <> [] ->
  remove_all old s = if startswith old s then remove_all old (drop (length old) s)
                     else match s with
                          | [] => []
                          | c :: s' => c :: remove_all old s'
                          end.
Proof.
  intros Hold. unfold remove_all. destruct old as [|o old]; [contradiction|].
  destruct s as [|c s]; [reflexivity|].
  cbn [length remove_loop]. destruct (startswith (o :: old) (c :: s)) eqn:Hp.
  - apply remove_loop_enough; [discriminate| |lia].
    rewrite length_drop. simpl. lia.
  - reflexivity.
Qed.

Lemma remove_all_cons (c : char) (s : pystr) :
  startswith GROUNDING (c :: s) = false ->
  remove_all GROUNDING (c :: s) = c :: remove_all GROUNDING s.
Proof. intros H. rewrite remove_all_eq by discriminate. rewrite H. reflexivity. Qed.

Lemma remove_all_plain_prefix (p s : pystr) :
  plain p -> remove_all GROUNDING (p ++ s) = p ++ remove_all GROUNDING s.
Proof.
  induction 1 as [|c p Hc Hp IH]; [reflexivity|].
  change ((c :: p) ++ s) with (c :: (p ++ s)). rewrite remove_all_cons.
  - cbn [app]. f_equal. exact IH.
  - change GROUNDING with (LT :: tl GROUNDING). apply startswith_lt, Hc.
Qed.

Lemma remove_all_blocked (x t' : pystr) :
  let t := 60%N :: 124%N :: 114%N :: t' in
  remove_all GROUNDING (x ++ t) = remove_all GROUNDING x ++ remove_all GROUNDING t.
Proof.
  intros t. remember (length x) as n eqn:Hn. revert x Hn.
  induction n as [n IH] using lt_wf_ind. intros x Hn.
  destruct x as [|c x]; [reflexivity|].
  rewrite (remove_all_eq GROUNDING ((c :: x) ++ t)), (remove_all_eq GROUNDING (c :: x))
    by discriminate.
  unfold t at 1. rewrite startswith_GROUNDING_blocked by discriminate.
  destruct (startswith GROUNDING (c :: x)) eqn:Hp.
  - apply startswith_length in Hp. rewrite drop_app_le by exact Hp.
    apply (IH (length (drop (length GROUNDING) (c :: x)))); [|reflexivity].
    rewrite length_drop. simpl in *. lia.
  - simpl. f_equal. apply (IH (length x)); [simpl in Hn; lia|reflexivity].
Qed.

Variables label coords : pystr.
Hypothesis Hlabel : plain label.
Hypothesis Hcoords : plain coords.

(** The characters of a span, tag by tag. *)
Lemma span_chars (y : pystr) :
  span label coords ++ y
  = LT :: (tl REF_OPEN ++ label) ++ LT :: tl REF_CLOSE
       ++ LT :: (tl DET_OPEN ++ coords) ++ LT :: tl DET_CLOSE ++ y.
Proof. unfold span. rewrite <- !app_assoc. reflexivity. Qed.

Lemma remove_all_span (y : pystr) :
  remove_all GROUNDING (span label coords ++ y)
  = span label coords ++ remove_all GROUNDING y.
Proof.
  rewrite !span_chars.
  rewrite remove_all_cons by reflexivity. apply (f_equal (cons _)).
  rewrite remove_all_plain_prefix
    by (apply plain_app; [apply plain_tail_of_tag; reflexivity|exact Hlabel]).
  apply (f_equal (app _)).
  rewrite remove_all_cons by reflexivity. apply (f_equal (cons _)).
  rewrite (remove_all_plain_prefix (tl REF_CLOSE)) by (apply plain_tail_of_tag; reflexivity).
  apply (f_equal (app _)).
  rewrite remove_all_cons by reflexivity. apply (f_equal (cons _)).
  rewrite remove_all_plain_prefix
    by (apply plain_app; [apply plain_tail_of_tag; reflexivity|exact Hcoords]).
  apply (f_equal (app _)).
  rewrite remove_all_cons by reflexivity. apply (f_equal (cons _)).
  rewrite (remove_all_plain_prefix (tl DET_CLOSE)) by (apply plain_tail_of_tag; reflexivity).
  reflexivity.
Qed.

Hypothesis Hnewline : In NEWLINE (label ++ coords).

Lemma match_here_not_open (c2 : char) (s : pystr) :
  c2 <> 114%N -> match_here (LT :: 124%N :: c2 :: s) = None.
Proof.
  intros Hc. unfold match_here. cbn.
  destruct c2 as [|p]; [reflexivity|].
  destruct (Pos.eqb_spec 114 p) as [<-|]; [contradiction|reflexivity].
Qed.

Lemma map_span_chars (z : list segment) :
  map Unmatched (span label coords) ++ z
  = Unmatched LT :: map Unmatched (tl REF_OPEN ++ label)
    ++ Unmatched LT :: map Unmatched (tl REF_CLOSE)
    ++ Unmatched LT :: map Unmatched (tl DET_OPEN ++ coords)
    ++ Unmatched LT :: map Unmatched (tl DET_CLOSE) ++ z.
Proof.
  unfold span. rewrite !List.map_app. cbn [app]. rewrite <- !app_assoc. reflexivity.
Qed.

(** Nothing in a broken span is matched. *)
Lemma scan_broken_span (y : pystr) :
  scan (span label coords ++ y) = map Unmatched (span label coords) ++ scan y.
Proof.
  pose proof (broken_span_blocker label coords y Hlabel Hcoords Hnewline) as (_ & _ & Hm).
  rewrite map_span_chars.
  revert Hm. rewrite !span_chars. intros Hm.
  rewrite scan_unmatched by exact Hm. cbn [app]. apply (f_equal (cons _)).
  rewrite scan_plain by (apply plain_app; [apply plain_tail_of_tag; reflexivity|exact Hlabel]).
  apply (f_equal (app _)).
  rewrite scan_unmatched by (apply match_here_not_open; discriminate).
  cbn [app]. apply (f_equal (cons _)).
  rewrite scan_plain by (apply plain_tail_of_tag; reflexivity).
  apply (f_equal (app _)).
  rewrite scan_unmatched by (apply match_here_not_open; discriminate).
  cbn [app]. apply (f_equal (cons _)).
  rewrite scan_plain by (apply plain_app; [apply plain_tail_of_tag; reflexivity|exact Hcoords]).
  apply (f_equal (app _)).
  rewrite scan_unmatched by (apply match_here_not_open; discriminate).
  cbn [app]. apply (f_equal (cons _)).
  rewrite scan_plain by (apply plain_tail_of_tag; reflexivity). reflexivity.
Qed.

Lemma scan_around_broken_span (x y : pystr) :
  scan (x ++ span label coords ++ y)
  = scan x ++ map Unmatched (span label coords) ++ scan y.
Proof.
  rewrite scan_blocked by (apply broken_span_blocker; assumption).
  rewrite scan_broken_span. reflexivity.
Qed.

End BrokenSpan.

Section LineBreak.

(** No match of the pattern holds a newline. *)
Lemma scan_one_line (s label coords : pystr) :
  In (Matched label coords) (scan s) -> one_line label /\ one_line coords.
Proof.
  remember (length s) as n eqn:Hn. revert s Hn.
  induction n as [n IH] using lt_wf_ind. intros s Hn.
  rewrite scan_eq. destruct (match_here s) as [[[l cs] r]|] eqn:Hm.
  - intros [[= <- <-] | Hin].
    + apply match_here_sound in Hm. tauto.
    + apply match_here_shorter in Hm. apply (IH (length r) ltac:(lia) r eq_refl Hin).
  - destruct s as [|c s]; [intros []|].
    intros [[=] | Hin]. simpl in Hn. apply (IH (length s) ltac:(lia) s eq_refl Hin).
Qed.

Lemma one_line_span (label coords : pystr) :
  one_line label -> one_line coords -> one_line (span label coords).
Proof.
  intros Hl Hc. unfold span, one_line.
  repeat apply Forall_app_2; try assumption;
    apply List.Forall_forall; intros c Hin; vm_compute in Hin;
    repeat (destruct Hin as [<- | Hin]; [discriminate|]); destruct Hin.
Qed.

Lemma re_findall_one_line (raw full label coords : pystr) :
  In (full, label, coords) (re_findall raw) -> one_line full.
Proof.
  intros Hin. apply re_findall_full in Hin as [-> Hin].
  apply scan_one_line in Hin as [Hl Hc]. apply one_line_span; assumption.
Qed.

Lemma re_findall_app_segments (a b : list segment) :
  flat_map (fun seg => match seg with
                       | Unmatched _ => []
                       | Matched label coords => [(span label coords, label, coords)]
                       end) (a ++ b)
  = flat_map (fun seg => match seg with
                         | Unmatched _ => []
                         | Matched label coords => [(span label coords, label, coords)]
                         end) a
    ++ flat_map (fun seg => match seg with
                            | Unmatched _ => []
                            | Matched label coords => [(span label coords, label, coords)]
                            end) b.
Proof. apply flat_map_app. Qed.

Lemma findall_unmatched (u : pystr) :
  flat_map (fun seg => match seg with
                       | Unmatched _ => []
                       | Matched label coords => [(span label coords, label, coords)]
                       end) (map Unmatched u) = [].
Proof. induction u; [reflexivity|assumption]. Qed.

Lemma sub_unmatched (u : pystr) :
  flat_map (fun seg => match seg with
                       | Unmatched c => [c]
                       | Matched label _ => label
                       end) (map Unmatched u) = u.
Proof. induction u as [|c u IH]; [reflexivity|]. simpl. f_equal. exact IH. Qed.

Variables x label coords y : pystr.
Hypothesis Hlabel : plain label.
Hypothesis Hcoords : plain coords.
Hypothesis Hnewline : In NEWLINE (label ++ coords).

Lemma re_findall_around_broken_span :
  re_findall (x ++ span label coords ++ y) = re_findall x ++ re_findall y.
Proof.
  unfold re_findall. rewrite scan_around_broken_span by assumption.
  rewrite !flat_map_app, findall_unmatched. reflexivity.
Qed.

Lemma re_sub_around_broken_span :
  re_sub (x ++ span label coords ++ y) = re_sub x ++ span label coords ++ re_sub y.
Proof.
  unfold re_sub. rewrite scan_around_broken_span by assumption.
  rewrite !flat_map_app, sub_unmatched. reflexivity.
Qed.

Lemma span_visible_ends : starts_nonspace (span label coords) /\ ends_nonspace (span label coords).
Proof.
  split; [reflexivity|].
  unfold span. do 4 apply ends_nonspace_app. reflexivity.
Qed.

Lemma clean_markdown_around_broken_span :
  clean_markdown (x ++ span label coords ++ y)
  = lstrip (remove_all GROUNDING (re_sub x))
    ++ span label coords
    ++ rstrip (remove_all GROUNDING (re_sub y)).
Proof.
  unfold clean_markdown. rewrite re_sub_around_broken_span.
  assert (Hrem : remove_all GROUNDING (re_sub x ++ span label coords ++ re_sub y)
                 = remove_all GROUNDING (re_sub x) ++ span label coords
                   ++ remove_all GROUNDING (re_sub y)).
  { rewrite <- (remove_all_span label coords Hlabel Hcoords).
    rewrite span_chars. apply remove_all_blocked. }
  rewrite Hrem. apply strip_core; apply span_visible_ends.
Qed.

Lemma has_grounding_with_span :
  contains REF_OPEN (x ++ span label coords ++ y)
  && contains DET_OPEN (x ++ span label coords ++ y) = true.
Proof.
  apply andb_true_intro. split; apply contains_true_iff.
  - exists x, (label ++ REF_CLOSE_DET_OPEN ++ coords ++ DET_CLOSE ++ y).
    unfold span. rewrite <- !app_assoc. reflexivity.
  - exists (x ++ REF_OPEN ++ label ++ REF_CLOSE), (coords ++ DET_CLOSE ++ y).
    unfold span. rewrite <- !app_assoc. reflexivity.
Qed.

End LineBreak.

(** C10: a span whose label or coordinate text holds a newline (and no [<])
    is never matched, whatever stands before and after it.  The matches of
    the text are those of the part before and of the part after it, so
    [extract_bounding_boxes] has no box for the span; no match of any text
    crosses a line break; [clean_markdown] leaves the span as it stands, tags
    included, up to the trimming of the whole text; and [parse_result] still
    reports [has_grounding]. *)
Theorem newline_breaks_span (eval : pystr -> outcome pyval) (x label coords y : pystr) :
  plain label -> plain coords -> In NEWLINE (label ++ coords) ->
  let raw := x ++ span label coords ++ y in
  re_findall raw = re_findall x ++ re_findall y
  /\ (forall full l c, In (full, l, c) (re_findall raw) -> one_line full)
  /\ extract_bounding_boxes eval raw = collect_boxes eval (re_findall x ++ re_findall y) []
  /\ clean_markdown raw
     = lstrip (remove_all GROUNDING (re_sub x))
       ++ span label coords
       ++ rstrip (remove_all GROUNDING (re_sub y))
  /\ (forall p, parse_result eval raw = Returns p -> has_grounding p = true).
Proof.
  intros Hl Hc Hn raw. subst raw. split; [|split; [|split; [|split]]].
  - apply re_findall_around_broken_span; assumption.
  - intros full l c. apply re_findall_one_line.
  - unfold extract_bounding_boxes. rewrite re_findall_around_broken_span by assumption.
    reflexivity.
  - apply clean_markdown_around_broken_span; assumption.
  - intros p Hp. unfold parse_result in Hp.
    apply bind_returns in Hp as (boxes & _ & Hp). injection Hp as <-.
    apply has_grounding_with_span.
Qed.

Lemma newline_breaks_span_witness :
  let raw := sample_before ++ span sample_broken_label (lit "[[5,6],[7,8]]") ++ sample_after in
  re_findall raw = re_findall sample_before ++ re_findall sample_after
  /\ (forall full l c, In (full, l, c) (re_findall raw) -> one_line full)
  /\ extract_bounding_boxes py_eval raw
     = collect_boxes py_eval (re_findall sample_before ++ re_findall sample_after) []
  /\ clean_markdown raw
     = lstrip (remove_all GROUNDING (re_sub sample_before))
       ++ span sample_broken_label (lit "[[5,6],[7,8]]")
       ++ rstrip (remove_all GROUNDING (re_sub sample_after))
  /\ (forall p, parse_result py_eval raw = Returns p -> has_grounding p = true).
Proof.
  apply (newline_breaks_span py_eval sample_before sample_broken_label
           (lit "[[5,6],[7,8]]") sample_after).
  - apply plain_tail_of_tag. reflexivity.
  - apply plain_tail_of_tag. reflexivity.
  - vm_compute. tauto.
Defined.

Example broken_span_run :
  let raw := sample_before ++ span sample_broken_label (lit "[[5,6],[7,8]]") ++ sample_after in
  extract_bounding_boxes py_eval raw = Returns [box_of_points (lit "ok") (1, 2, 3, 4)]
  /\ clean_markdown raw
     = lit "ok then " ++ span sample_broken_label (lit "[[5,6],[7,8]]") ++ lit " end".
Proof. split; vm_compute; reflexivity. Qed.

(** C10, counterexample: the label of the outer span holds a newline and,
    after it, the opening tag of a span of its own.  The inner span is
    matched: a box comes out of the text of the outer span, and the cleaned
    text is not the text of the outer span. *)
Lemma clean_markdown_rewrites_nested_span :
  sample_nested = span sample_nested_label (lit "[[1,2],[3,4]]")
  /\ In NEWLINE sample_nested_label
  /\ extract_bounding_boxes py_eval sample_nested
     = Returns [box_of_points (lit "b") (1, 2, 3, 4)]
  /\ clean_markdown sample_nested = lit "<|ref|>a" ++ [NEWLINE] ++ lit "b"
  /\ contains sample_nested (clean_markdown sample_nested) = false.
Proof.
  split; [reflexivity|]. split; [vm_compute; tauto|].
  repeat split; vm_compute; reflexivity.
Qed.

(** * The inference engine *)

Section Infer.

Variable o : oracle.
Variables (image : pil_image) (prompt : pystr) (base_size image_size : Z).
Variables (crop_mode save_results : bool).

Local Abbreviation run := (infer o image prompt base_size image_size crop_mode save_results).

Ltac unfold_infer :=
  unfold infer, cleanup, NamedTemporaryFile, save_jpeg, mkdtemp_, model_infer, remove, rmtree,
    get_model, try_except, try_finally, mbind, ret, raise, emit, set_fs, exists_, when.

Ltac oracle_case :=
  match goal with
  | |- context [match ?x with _ => _ end] =>
      match x with
      | named_temporary_file _ => destruct x eqn:?
      | image_save _ => destruct x eqn:?
      | mkdtemp _ => destruct x eqn:?
      | model_answer _ => destruct x as [[?|]|?] eqn:?
      | os_remove _ => destruct x eqn:?
      | shutil_rmtree _ => destruct x eqn:?
      end
  | |- context [bool_decide ?P] => destruct (bool_decide P) eqn:?
  end.

Ltac oracle_cases := cbn; repeat (oracle_case; cbn).

(** The result of [infer] does not depend on the files that exist nor on
    how the cleanup went. *)
Lemma infer_result (w : world) : fst (run w) = infer_outcome (is_loaded w) o image.
Proof.
  unfold infer_outcome, staged, staging_error. unfold_infer.
  destruct w as [[] s tr]; cbn; [|reflexivity].
  oracle_cases; reflexivity.
Qed.

Lemma infer_keeps_load_state (w : world) : is_loaded (snd (run w)) = is_loaded w.
Proof.
  unfold_infer. destruct w as [[] s tr]; cbn; [|reflexivity].
  oracle_cases; reflexivity.
Qed.

(** [infer] calls the model once when staging goes through, and not at all
    otherwise. *)
Lemma infer_model_prompts (w : world) :
  model_prompts (trace (snd (run w)))
  = model_prompts (trace w)
    ++ (if calls_model (is_loaded w) o image then [prompt] else []).
Proof.
  unfold calls_model, staged, model_prompts. unfold_infer.
  destruct w as [[] s tr]; cbn; [|rewrite app_nil_r; reflexivity].
  oracle_cases;
    rewrite ?omap_app; cbn; rewrite ?app_nil_r, <- ?app_assoc; try reflexivity.
Qed.

End Infer.

Section InferClaims.

Variable o : oracle.
Variables (image : pil_image) (prompt : pystr) (base_size image_size : Z).
Variables (crop_mode save_results : bool).

Local Abbreviation run := (infer o image prompt base_size image_size crop_mode save_results).

Ltac unfold_infer :=
  unfold infer, cleanup, NamedTemporaryFile, save_jpeg, mkdtemp_, model_infer, remove, rmtree,
    get_model, try_except, try_finally, mbind, ret, raise, emit, set_fs, exists_, when.

Ltac set_facts :=
  try assumption;
  unfold not in *; intros;
  repeat match goal with
    | H : _ ∈ _ ∖ _ |- _ => apply elem_of_difference in H as [? ?]
    | H : _ ∈ _ ∪ _ |- _ => apply elem_of_union in H as [?|?]
    | H : _ ∈ {[ _ ]} |- _ => apply elem_of_singleton in H
    | H : _ ∉ {[ _ ]} |- _ => rewrite elem_of_singleton in H
    end;
  try congruence;
  rewrite ?elem_of_difference, ?elem_of_union, ?elem_of_singleton; tauto.

(** Once staging went through, both transient paths are gone after the
    call when [os.remove] and [shutil.rmtree] do not fail, whatever the model
    answered and whatever it did to the files. *)
Lemma infer_releases_when_staged (w : world) (p d : path) :
  is_loaded w = true -> staged o image = Some (p, d) ->
  os_remove o = None -> shutil_rmtree o = None ->
  (p ∉ fs (snd (run w))) /\ (d ∉ fs (snd (run w))).
Proof.
  unfold staged. intros Hl Hs Hrm Hrt. unfold_infer.
  destruct w as [l s tr]. cbn in Hl. subst l. cbn.
  destruct (named_temporary_file o) as [p'|]; [|discriminate].
  destruct (image_save o); [discriminate|].
  destruct (mkdtemp o) as [d'|]; [|discriminate].
  destruct (bool_decide (mode image ∈ jpeg_modes)); [|discriminate].
  injection Hs as -> ->. rewrite Hrm, Hrt. cbn.
  destruct (model_answer o) as [[t|]|e]; cbn;
    repeat (match goal with
            | |- context [bool_decide ?P] => destruct (bool_decide_reflect P)
            end; cbn);
    split; set_facts.
Qed.

(** A failing cleanup is logged, and the call ends as it would have. *)
Lemma infer_logs_failed_cleanup (w : world) (p d : path) (e : exn) :
  is_loaded w = true -> staged o image = Some (p, d) ->
  model_effect o = (fun s => s) -> os_remove o = Some e ->
  fst (run w) = infer_outcome true o image
  /\ In (LogWarning e) (trace (snd (run w)))
  /\ d ∈ fs (snd (run w)).
Proof.
  unfold staged. intros Hl Hs Hid Hrm.
  split; [rewrite infer_result, Hl; reflexivity|].
  unfold_infer.
  destruct w as [l s tr]. cbn in Hl. subst l. cbn.
  destruct (named_temporary_file o) as [p'|]; [|discriminate].
  destruct (image_save o); [discriminate|].
  destruct (mkdtemp o) as [d'|]; [|discriminate].
  destruct (bool_decide (mode image ∈ jpeg_modes)); [|discriminate].
  injection Hs as -> ->. rewrite Hrm, Hid. cbn.
  destruct (model_answer o) as [[t|]|e']; cbn;
    (destruct (bool_decide_reflect (p ∈ {[d]} ∪ ({[p]} ∪ ({[p]} ∪ s)))) as [_|Hn];
     [|exfalso; apply Hn; set_facts]);
    cbn; (split; [rewrite !in_app_iff; simpl; tauto|set_facts]).
Qed.

End InferClaims.

(** C6: when the model yields [None], [infer] never returns; once the model
    is reached (the model is loaded and staging went through) it raises the
    [RuntimeError] that wraps "the model returned None". *)
Theorem infer_fails_on_no_result (o : oracle) (image : pil_image) (prompt : pystr)
    (base_size image_size : Z) (crop_mode save_results : bool) (w : world) :
  model_answer o = inl None ->
  (forall r, fst (infer o image prompt base_size image_size crop_mode save_results w) <> Ok r)
  /\ (calls_model (is_loaded w) o image = true ->
      fst (infer o image prompt base_size image_size crop_mode save_results w)
      = Exn (RuntimeError_inference_failed RuntimeError_model_returned_None)).
Proof.
  intros Hnone. rewrite infer_result. unfold infer_outcome, calls_model. rewrite Hnone.
  split.
  - intros r. destruct (is_loaded w); cbn; [|discriminate].
    destruct (staged o image); discriminate.
  - intros Hc. apply andb_prop in Hc as [-> Hs]. apply bool_decide_eq_true in Hs as [pd ->].
    reflexivity.
Qed.

Lemma infer_fails_on_no_result_witness :
  (forall r, fst (infer (plain_oracle (inl None)) rgb_image (lit "<image>") 1024 640 true false
                    ready_world) <> Ok r)
  /\ fst (infer (plain_oracle (inl None)) rgb_image (lit "<image>") 1024 640 true false
            ready_world)
     = Exn (RuntimeError_inference_failed RuntimeError_model_returned_None).
Proof.
  destruct (infer_fails_on_no_result (plain_oracle (inl None)) rgb_image (lit "<image>")
              1024 640 true false ready_world eq_refl) as [Hnever Hfails].
  split; [exact Hnever|]. apply Hfails. reflexivity.
Defined.

(** C7: on a model that is not loaded, [infer] raises the "model not loaded"
    [RuntimeError] and leaves the world as it was: no file or directory was
    created, and nothing, the model call included, was done. *)
Theorem infer_requires_loaded_model (o : oracle) (image : pil_image) (prompt : pystr)
    (base_size image_size : Z) (crop_mode save_results : bool) (w : world) :
  is_loaded w = false ->
  infer o image prompt base_size image_size crop_mode save_results w
  = (Exn RuntimeError_model_not_loaded, w).
Proof.
  intros Hunloaded. unfold infer, mbind. rewrite Hunloaded. reflexivity.
Qed.

Lemma infer_requires_loaded_model_witness :
  infer (plain_oracle (inl (Some (lit "text")))) rgb_image (lit "<image>") 1024 640 true false
    unloaded_world
  = (Exn RuntimeError_model_not_loaded, unloaded_world).
Proof.
  apply (infer_requires_loaded_model (plain_oracle (inl (Some (lit "text")))) rgb_image
           (lit "<image>") 1024 640 true false unloaded_world).
  reflexivity.
Defined.

(** C1, at the failing input: the model is loaded and the image is of mode
    RGBA, which the JPEG writer refuses.  The temporary file was created with
    [delete=False], [image.save] raises before the inner [try] is entered,
    and the call ends with the file still there and no removal attempted. *)
Theorem infer_leaves_staged_file_when_save_fails :
  infer (plain_oracle (inl (Some (lit "text")))) rgba_image (lit "<image>") 1024 640 true false
    ready_world
  = (Exn (RuntimeError_inference_failed OSError_cannot_write_mode),
     World true {[ "/tmp/tmpimg.jpg"%string ]}
       [CreatedFile "/tmp/tmpimg.jpg"; LogError OSError_cannot_write_mode])
  /\ "/tmp/tmpimg.jpg"%string ∈ fs (snd (infer (plain_oracle (inl (Some (lit "text")))) rgba_image
                                           (lit "<image>") 1024 640 true false ready_world)).
Proof.
  split.
  - vm_compute. f_equal.
  - vm_compute. reflexivity.
Qed.

(** The same slip in the [finally] block: one [try] holds both removals, so
    when [os.remove] fails [shutil.rmtree] is not attempted and the scratch
    directory stays; the failure is logged and the text is returned. *)
Example infer_skips_rmtree_when_remove_fails :
  let o := Oracle (inl "/tmp/tmpimg.jpg"%string) None (inl "/tmp/tmpdir"%string)
             (inl (Some (lit "text"))) (fun s => s) 2%float
             (Some (External "PermissionError")) None in
  let run := infer o rgb_image (lit "<image>") 1024 640 true false ready_world in
  fst run = Ok (lit "text", 2%float, 1)
  /\ trace (snd run)
     = [ CreatedFile "/tmp/tmpimg.jpg"; SavedImage "/tmp/tmpimg.jpg"; CreatedDir "/tmp/tmpdir";
         ModelInfer (lit "<image>") "/tmp/tmpimg.jpg" "/tmp/tmpdir" 1024 640 true false;
         LogWarning (External "PermissionError") ]
  /\ "/tmp/tmpdir"%string ∈ fs (snd run).
Proof.
  split; [vm_compute; reflexivity|]. split; [vm_compute; reflexivity|].
  vm_compute. reflexivity.
Qed.

(** * The batch *)

Section Batch.

Variable oracles : nat -> oracle.
Variables (base_size image_size : Z) (crop_mode : bool).

Lemma item_result_load_state (w w' : world) (i : nat) (item : pil_image * pystr) :
  is_loaded w' = is_loaded w ->
  item_result oracles base_size image_size crop_mode w' i item
  = item_result oracles base_size image_size crop_mode w i item.
Proof. intros H. unfold item_result. rewrite !infer_result, H. reflexivity. Qed.

(** One turn of the loop: the [try] around [infer]. *)
Lemma batch_step (i : nat) (image : pil_image) (prompt : pystr) (w : world) :
  exists w',
    try_except (infer (oracles i) image prompt base_size image_size crop_mode false)
      (fun e => mbind (emit (LogError e)) (fun _ => ret placeholder)) w
    = (Ok (item_result oracles base_size image_size crop_mode w i (image, prompt)), w')
    /\ is_loaded w' = is_loaded w
    /\ model_prompts (trace w')
       = model_prompts (trace w) ++ item_model_call oracles w i (image, prompt).
Proof.
  unfold try_except, item_result, item_model_call. cbn [fst snd].
  pose proof (infer_keeps_load_state (oracles i) image prompt base_size image_size
                crop_mode false w) as Hl.
  pose proof (infer_model_prompts (oracles i) image prompt base_size image_size
                crop_mode false w) as Hp.
  destruct (infer (oracles i) image prompt base_size image_size crop_mode false w)
    as [[r|e] w1]; cbn [fst snd] in *.
  - exists w1. auto.
  - eexists. split; [reflexivity|]. cbn. split; [exact Hl|].
    unfold model_prompts in *. rewrite omap_app, Hp. cbn. rewrite app_nil_r. reflexivity.
Qed.

Lemma batch_loop_spec (items : list (pil_image * pystr)) :
  forall (i : nat) (acc : list (pystr * float * Z)) (w : world),
  exists w',
    batch_loop oracles base_size image_size crop_mode i items acc w
    = (Ok (acc ++ imap (fun j => item_result oracles base_size image_size crop_mode w (i + j))
                    items), w')
    /\ is_loaded w' = is_loaded w
    /\ model_prompts (trace w')
       = model_prompts (trace w)
         ++ concat (imap (fun j => item_model_call oracles w (i + j)) items).
Proof.
  induction items as [|[image prompt] items IH]; intros i acc w.
  - exists w. cbn. rewrite !app_nil_r. auto.
  - cbn [batch_loop]. unfold mbind at 1.
    destruct (batch_step i image prompt w) as (w1 & -> & Hl1 & Hp1).
    destruct (IH (S i) (acc ++ [item_result oracles base_size image_size crop_mode w i
                                  (image, prompt)]) w1) as (w2 & -> & Hl2 & Hp2).
    exists w2. split; [|split].
    + f_equal. f_equal. rewrite <- app_assoc. cbn [app imap]. rewrite Nat.add_0_r.
      do 2 f_equal. apply imap_ext. intros j item _. cbn.
      rewrite Nat.add_succ_r. apply item_result_load_state, Hl1.
    + congruence.
    + rewrite Hp2, Hp1, <- app_assoc. f_equal. cbn [imap concat]. rewrite Nat.add_0_r.
      f_equal. f_equal. apply imap_ext. intros j item _. cbn.
      unfold item_model_call. rewrite Nat.add_succ_r, Hl1. reflexivity.
Qed.

End Batch.

(** C8: with lists of different lengths [infer_batch] raises the
    [ValueError] and does nothing else.  With lists of the same length it
    returns one entry per item, in the order of the input: what [infer]
    returns for the item, or the placeholder [("", 0.0, 0)] when [infer]
    raises; and the model is called one item after the other, in the order
    of the input, at most once per item. *)
Theorem infer_batch_in_order (oracles : nat -> oracle) (base_size image_size : Z)
    (crop_mode : bool) (images : list pil_image) (prompts : list pystr) (w : world) :
  (length images <> length prompts ->
   infer_batch oracles base_size image_size crop_mode images prompts w
   = (Exn ValueError_length_mismatch, w))
  /\ (length images = length prompts ->
      exists w',
        infer_batch oracles base_size image_size crop_mode images prompts w
        = (Ok (imap (item_result oracles base_size image_size crop_mode w) (zip images prompts)),
           w')
        /\ length (imap (item_result oracles base_size image_size crop_mode w)
                     (zip images prompts)) = length images
        /\ model_prompts (trace w')
           = model_prompts (trace w)
             ++ concat (imap (item_model_call oracles w) (zip images prompts))).
Proof.
  unfold infer_batch. split; intros Hlen.
  - apply Nat.eqb_neq in Hlen. rewrite Hlen. reflexivity.
  - pose proof Hlen as Hlen'. apply Nat.eqb_eq in Hlen'. rewrite Hlen'. cbn [negb].
    destruct (batch_loop_spec oracles base_size image_size crop_mode (zip images prompts) 0 [] w)
      as (w' & Hrun & _ & Hp).
    exists w'. split; [exact Hrun|]. split; [|exact Hp].
    rewrite length_imap, length_zip_with. lia.
Qed.

Lemma infer_batch_in_order_witness :
  infer_batch sample_oracles 1024 640 true [rgb_image; rgba_image; rgb_image]
    [lit "a"; lit "b"] ready_world
  = (Exn ValueError_length_mismatch, ready_world)
  /\ exists w',
       infer_batch sample_oracles 1024 640 true [rgb_image; rgba_image; rgb_image]
         [lit "a"; lit "b"; lit "c"] ready_world
       = (Ok [ (lit "some text", 2%float, 2); placeholder; placeholder ], w')
       /\ model_prompts (trace w') = [lit "a"; lit "c"].
Proof.
  split.
  - apply (infer_batch_in_order sample_oracles 1024 640 true
             [rgb_image; rgba_image; rgb_image] [lit "a"; lit "b"] ready_world).
    simpl. lia.
  - destruct (proj2 (infer_batch_in_order sample_oracles 1024 640 true
                       [rgb_image; rgba_image; rgb_image] [lit "a"; lit "b"; lit "c"]
                       ready_world) eq_refl) as (w' & Hrun & _ & Hp).
    exists w'. split.
    + rewrite Hrun. vm_compute. reflexivity.
    + rewrite Hp. vm_compute. reflexivity.
Defined.

(** * The renderer *)

Section Render.

Context {pixels font : Type}.
Variable draw : pixels -> draw_call font -> option pixels.
Variable textbbox : Z * Z -> pystr -> font -> option (Z * Z * Z * Z).
Variable truetype : Z -> option font.
Variable load_default : font.







Lemma copy_fresh (st : store pixels font) (im : image pixels) :
  heap st !! fst (copy st im) = None
  /\ heap (snd (copy st im)) = <[fst (copy st im) := im]> (heap st)
  /\ calls (snd (copy st im)) = calls st.
Proof.
  unfold copy. cbn. split; [|auto].
  apply not_elem_of_dom, is_fresh.
Qed.

End Render.



Example draw_one_box :
  let run := draw_bounding_boxes sample_draw (fun _ _ _ => Some (0, 0, 10, 10))
               (fun _ => None) tt 1%positive
               [Box (lit "title") [0.125%float; 0.5%float; 0.25%float; 0.75%float]]
               true 3 sample_store in
  fst run = Returns 2%positive
  /\ calls (snd run)
     = [ (2%positive, Rectangle (25, 50, 50, 75) None (Some (255, 0, 0)) 3);
         (2%positive, Rectangle (0, 0, 10, 10) (Some (255, 0, 0)) None 1);
         (2%positive, Text (25, 33) (lit "title") (255, 255, 255) tt) ].
Proof. split; vm_compute; reflexivity. Qed.

Example draw_no_box :
  draw_bounding_boxes sample_draw (fun _ _ _ => Some (0, 0, 10, 10)) (fun _ => None) tt
    1%positive [] true 3 sample_store
  = (Returns 2%positive,
     Store {[ 1%positive := Image (200, 100) []; 2%positive := Image (200, 100) [] ]} []).
Proof. vm_compute. reflexivity. Qed.

(** * The prompts *)

Section Trimmed.

Lemma rstrip_keeps_head (c : char) (s : pystr) :
  isspace c = false -> exists s', rstrip (c :: s) = c :: s'.
Proof.
  intros Hc. unfold rstrip. cbn [rev].
  rewrite (lstrip_app (rev s) [c]) by exact Hc.
  rewrite rev_app_distr. cbn. eauto.
Qed.

Lemma strip_trimmed (s : pystr) : trimmed (strip s).
Proof.
  unfold trimmed, strip.
  destruct (lstrip_split s) as (w & _ & [Hnil | Hstart]).
  - left. rewrite Hnil. reflexivity.
  - right. destruct (lstrip s) as [|c l] eqn:El; [contradiction|]. cbn in Hstart.
    destruct (rstrip_keeps_head c l Hstart) as (s' & Es').
    split; [rewrite Es'; exact Hstart|].
    destruct (rstrip_split (c :: l)) as (w' & _ & [Hnil | Hend]); [|exact Hend].
    rewrite Es' in Hnil. discriminate.
Qed.

Lemma trimmed_strip (s : pystr) : trimmed s -> strip s = s.
Proof.
  intros [-> | [Hs He]]; [reflexivity|]. apply strip_fixed; assumption.
Qed.

Lemma strip_idempotent (s : pystr) : strip (strip s) = strip s.
Proof. apply trimmed_strip, strip_trimmed. Qed.

Lemma strip_keeps_trimmed_piece (k s : pystr) :
  trimmed k -> contains k s = true -> contains k (strip s) = true.
Proof.
  intros Hk Hc. apply contains_true_iff in Hc as (a & b & ->).
  apply contains_true_iff. rewrite <- (trimmed_strip k Hk) at 1.
  apply strip_keeps_piece.
Qed.

End Trimmed.

Section Prompts.

Import PyDict PromptBuilder.

Lemma item_In {V : Type} (d : list (pystr * V)) (key : pystr) (v : V) :
  item d key = Some v -> In (key, v) d.
Proof.
  induction d as [|[k v'] d IH]; cbn; [discriminate|].
  destruct (decide (k = key)) as [->|]; [intros [= ->]; auto | auto].
Qed.

Lemma item_None {V : Type} (d : list (pystr * V)) (key : pystr) :
  item d key = None <-> ~ In key (keys d).
Proof.
  induction d as [|[k v'] d IH]; cbn; [tauto|].
  destruct (decide (k = key)) as [->|Hne]; [split; [discriminate|tauto]|].
  rewrite IH. tauto.
Qed.

Lemma default_template :
  item PROMPT_TEMPLATES DEFAULT_TASK
  = Some (lit "<image>" ++ [NEWLINE] ++ lit "<|grounding|>Convert the document to markdown.").
Proof. reflexivity. Qed.

Lemma IMAGE_TAG_trimmed : trimmed IMAGE_TAG.
Proof. right. split; reflexivity. Qed.

(** A prompt that is trimmed and holds the image tag passes every check of
    [validate_prompt] but the one on its length. *)
Lemma validate_prompt_tagged (p : pystr) :
  trimmed p -> contains IMAGE_TAG p = true -> validate_prompt p = length_verdict p.
Proof.
  intros Ht Hc. unfold validate_prompt, length_verdict.
  destruct p as [|x xs]; [discriminate Hc|].
  rewrite (trimmed_strip _ Ht), Hc. reflexivity.
Qed.

Lemma template_prompts_checked :
  forallb (fun p => contains IMAGE_TAG p
                    && bool_decide (strip p = p)
                    && (length p <=? 1000)%nat
                    && startswith (IMAGE_TAG ++ [NEWLINE]) p) template_prompts = true.
Proof. vm_compute. reflexivity. Qed.

Lemma template_prompt_facts (p : pystr) :
  In p template_prompts ->
  contains IMAGE_TAG p = true /\ strip p = p /\ (length p <= 1000)%nat
  /\ startswith (IMAGE_TAG ++ [NEWLINE]) p = true.
Proof.
  intros Hin. pose proof template_prompts_checked as H.
  rewrite forallb_forall in H. specialize (H p Hin).
  rewrite !andb_true_iff in H. destruct H as [[[H1 H2] H3] H4].
  apply bool_decide_eq_true in H2. apply Nat.leb_le in H3. auto.
Qed.

(** The prompt built is a template or comes from the custom prompt. *)
Lemma build_prompt_cases (task : pystr) (custom : option pystr) :
  exists p, build_prompt task custom = Some p
    /\ (In p template_prompts
        \/ exists c, task = CUSTOM_TASK /\ custom = Some c /\ strip c <> []
             /\ p = if contains IMAGE_TAG c then strip c
                    else IMAGE_TAG ++ [NEWLINE] ++ strip c).
Proof.
  assert (Hd : In (lit "<image>" ++ [NEWLINE]
                   ++ lit "<|grounding|>Convert the document to markdown.") template_prompts)
    by (left; reflexivity).
  unfold build_prompt. rewrite default_template.
  destruct (decide (task = CUSTOM_TASK)) as [->|Hne].
  - destruct custom as [[|c cs]|]; [eauto| |eauto].
    destruct (strip (c :: cs)) as [|x xs] eqn:Es; [eauto|].
    destruct (contains IMAGE_TAG (c :: cs)) eqn:Ec; cbn [negb];
      (eexists; split; [reflexivity|]); right; exists (c :: cs);
      rewrite Ec, Es; repeat split; congruence.
  - eexists. split; [reflexivity|]. left.
    unfold get. destruct (item PROMPT_TEMPLATES task) as [v|] eqn:Ei; [|exact Hd].
    apply item_In in Ei. apply (in_map snd) in Ei. exact Ei.
Qed.

Lemma custom_prompt_facts (c : pystr) :
  strip c <> [] ->
  let p := if contains IMAGE_TAG c then strip c else IMAGE_TAG ++ [NEWLINE] ++ strip c in
  contains IMAGE_TAG p = true /\ trimmed p /\ p <> [].
Proof.
  intros Hne. destruct (contains IMAGE_TAG c) eqn:Ec; cbn zeta.
  - split; [apply strip_keeps_trimmed_piece; [apply IMAGE_TAG_trimmed|exact Ec]|].
    split; [apply strip_trimmed|exact Hne].
  - split; [reflexivity|]. split; [|discriminate].
    right. split; [reflexivity|].
    destruct (strip_trimmed c) as [E|[_ He]]; [contradiction|].
    change (IMAGE_TAG ++ [NEWLINE] ++ strip c) with ((IMAGE_TAG ++ [NEWLINE]) ++ strip c).
    apply ends_nonspace_app. exact He.
Qed.

(** X1: [build_prompt] never fails, whatever the task and the custom prompt;
    the prompt it returns holds the [<image>] tag, has no white space at
    either end, and is accepted by [validate_prompt] unless it is longer
    than 1000 characters, which only a custom prompt can be. *)
Theorem build_prompt_accepted (task : pystr) (custom : option pystr) :
  exists p, build_prompt task custom = Some p
    /\ contains IMAGE_TAG p = true
    /\ strip p = p
    /\ validate_prompt p = length_verdict p
    /\ (task <> CUSTOM_TASK -> validate_prompt p = (true, [])).
Proof.
  destruct (build_prompt_cases task custom) as (p & Hp & Hcase).
  exists p. split; [exact Hp|].
  destruct Hcase as [Hin | (c & -> & -> & Hne & ->)].
  - destruct (template_prompt_facts p Hin) as (Hc & Hs & Hl & _).
    assert (Ht : trimmed p) by (rewrite <- Hs; apply strip_trimmed).
    repeat split; auto using validate_prompt_tagged.
    intros _. rewrite (validate_prompt_tagged p Ht Hc). unfold length_verdict.
    destruct (Nat.ltb_spec 1000 (length p)); [lia|reflexivity].
  - destruct (custom_prompt_facts c Hne) as (Hc & Ht & _).
    repeat split; auto using validate_prompt_tagged, trimmed_strip. congruence.
Qed.

(** X2: a prompt that [build_prompt] returned goes through [build_prompt]
    unchanged when it is given back as a custom prompt. *)
Theorem build_prompt_idempotent (task : pystr) (custom : option pystr) :
  exists p, build_prompt task custom = Some p
    /\ build_prompt CUSTOM_TASK (Some p) = Some p.
Proof.
  destruct (build_prompt_cases task custom) as (p & Hp & Hcase).
  exists p. split; [exact Hp|].
  assert (H : contains IMAGE_TAG p = true /\ trimmed p /\ p <> []).
  { destruct Hcase as [Hin | (c & -> & -> & Hne & ->)].
    - destruct (template_prompt_facts p Hin) as (Hc & Hs & _ & _).
      split; [exact Hc|]. split; [rewrite <- Hs; apply strip_trimmed|].
      intros ->. discriminate Hc.
    - apply custom_prompt_facts, Hne. }
  destruct H as (Hc & Ht & Hne).
  unfold build_prompt. rewrite decide_True by reflexivity.
  destruct p as [|x xs]; [contradiction|].
  rewrite (trimmed_strip _ Ht), Hc. reflexivity.
Qed.

Lemma item_Some {V : Type} (d : list (pystr * V)) (key : pystr) :
  In key (keys d) -> exists v, item d key = Some v /\ In (key, v) d.
Proof.
  intros Hin. destruct (item d key) as [v|] eqn:Ei.
  - exists v. split; [reflexivity|]. apply item_In, Ei.
  - apply item_None in Ei. contradiction.
Qed.

Lemma descriptions_checked :
  keys descriptions = get_all_tasks
  /\ forallb (fun kv => negb (bool_decide (snd kv = UNKNOWN_TASK))) descriptions = true.
Proof. split; vm_compute; reflexivity. Qed.

Lemma predefined_prompt (task : pystr) (custom : option pystr) :
  In task (keys PROMPT_TEMPLATES) ->
  build_prompt task custom = item PROMPT_TEMPLATES task.
Proof.
  intros Hin. unfold build_prompt. rewrite default_template.
  destruct (decide (task = CUSTOM_TASK)) as [->|Hne].
  - exfalso. revert Hin. vm_compute. intuition discriminate.
  - unfold get. destruct (item_Some _ _ Hin) as (v & -> & _). reflexivity.
Qed.

Lemma NoDup_snd_key {K V : Type} (d : list (K * V)) (a b : K) (v : V) :
  NoDup (map snd d) -> In (a, v) d -> In (b, v) d -> a = b.
Proof.
  induction d as [|[k x] d IH]; cbn; [tauto|].
  intros Hnd Ha Hb. apply NoDup_cons in Hnd as [Hx Hnd].
  assert (Hin : forall c, In (c, x) d -> False).
  { intros c Hc. apply Hx. apply (in_map snd) in Hc. apply list_elem_of_In. exact Hc. }
  destruct Ha as [Ha|Ha], Hb as [Hb|Hb].
  - congruence.
  - injection Ha as -> ->. exfalso. eapply Hin, Hb.
  - injection Hb as -> ->. exfalso. eapply Hin, Ha.
  - eapply IH; eassumption.
Qed.

Lemma templates_distinct :
  NoDup (map snd PROMPT_TEMPLATES) /\ NoDup get_all_tasks.
Proof. split; apply (bool_decide_unpack _); vm_compute; exact I. Qed.

(** X3: the task tables agree.  The tasks of [get_all_tasks] are pairwise
    different, are the tasks the API lists, and are exactly the tasks
    [get_task_description] knows; the
    predefined ones have pairwise different prompts; a task outside the
    list gets the prompt of the document task without an error; and only
    for the task for which the interface shows the custom prompt box does
    [build_prompt] read the custom prompt. *)
Theorem task_tables_agree (task : pystr) :
  NoDup get_all_tasks
  /\ App.tasks = get_all_tasks
  /\ (In task get_all_tasks <-> get_task_description task <> UNKNOWN_TASK)
  /\ (forall other c c',
        In task (keys PROMPT_TEMPLATES) -> In other (keys PROMPT_TEMPLATES) ->
        build_prompt task c = build_prompt other c' -> task = other)
  /\ (~ In task get_all_tasks ->
      forall c, build_prompt task c = build_prompt DEFAULT_TASK None)
  /\ (App.update_custom_prompt_visibility task = false ->
      forall c c', build_prompt task c = build_prompt task c').
Proof.
  destruct descriptions_checked as [Hkeys Hknown].
  split; [apply templates_distinct|]. split; [reflexivity|]. split; [|split; [|split]].
  - unfold get_task_description, get. rewrite <- Hkeys. split.
    + intros Hin. destruct (item_Some _ _ Hin) as (v & -> & Hv).
      rewrite forallb_forall in Hknown. specialize (Hknown _ Hv).
      apply negb_true_iff, bool_decide_eq_false in Hknown. exact Hknown.
    + intros Hne. destruct (item descriptions task) as [v|] eqn:Ei.
      * apply item_In in Ei. apply (in_map fst) in Ei. exact Ei.
      * contradiction.
  - intros other c c' Ht Ho. rewrite !predefined_prompt by assumption.
    destruct (item_Some _ _ Ht) as (v & Ev & Hv). destruct (item_Some _ _ Ho) as (v' & Ev' & Hv').
    rewrite Ev, Ev'. intros [= <-].
    eapply NoDup_snd_key; [exact (proj1 templates_distinct)|exact Hv|exact Hv'].
  - intros Hnot c. unfold build_prompt. rewrite default_template.
    rewrite (decide_False (P := DEFAULT_TASK = CUSTOM_TASK)) by discriminate.
    destruct (decide (task = CUSTOM_TASK)) as [->|Hne].
    + exfalso. apply Hnot. unfold get_all_tasks. apply in_or_app. right. left. reflexivity.
    + unfold get. replace (item PROMPT_TEMPLATES task) with (@None pystr); [reflexivity|].
      symmetry. apply item_None. intros Hin. apply Hnot. unfold get_all_tasks.
      apply in_or_app. left. exact Hin.
  - unfold App.update_custom_prompt_visibility. intros Hv c c'.
    apply bool_decide_eq_false in Hv. unfold build_prompt.
    rewrite !(decide_False (P := task = CUSTOM_TASK)) by exact Hv. reflexivity.
Qed.

End Prompts.

(** * The preparation of the image *)

Section Preprocess.

Import ImagePrep.

Lemma convert_rgb_mode (failure : option exn) (image image' : pil_image) :
  convert_rgb failure image = Ok image' ->
  mode image' = "RGB"%string /\ image_size image' = image_size image.
Proof. unfold convert_rgb. destruct failure; [discriminate|]. intros [= <-]. auto. Qed.

Lemma fallback_mode (o : ImagePrep.oracle) (image image' : pil_image) :
  fallback o image = Ok image' ->
  mode image' = "RGB"%string /\ image_size image' = image_size image.
Proof.
  unfold fallback. destruct (String.eqb_spec (mode image) "RGB") as [E|E]; cbn.
  - intros [= <-]. auto.
  - apply convert_rgb_mode.
Qed.

Lemma preprocess_image_result (o : ImagePrep.oracle) (image image' : pil_image) :
  preprocess_image o image = Ok image' ->
  mode image' = "RGB"%string
  /\ (image_size image' = image_size image
      \/ exists t, exif_transpose o = inl t /\ image_size image' = image_size t).
Proof.
  unfold preprocess_image. destruct (exif_transpose o) as [t|e0].
  - destruct (String.eqb_spec (mode t) "RGB") as [E|E]; cbn.
    + intros [= <-]. eauto.
    + destruct (convert_rgb (convert_first o) t) as [t2|e1] eqn:Ec.
      * intros [= <-]. apply convert_rgb_mode in Ec as [? ?]. eauto.
      * intros H. apply fallback_mode in H as [? ?]. eauto.
  - intros H. apply fallback_mode in H as [? ?]. auto.
Qed.

(** X4: the image [preprocess_image] returns is in mode RGB, whatever PIL
    did on the way, and has the size of the input or of its EXIF
    transposition; the call raises only the exception of the conversion in
    its handler; on an RGB image whose transposition, if there is one,
    is RGB too, it never raises. *)
Theorem preprocess_image_rgb (o : ImagePrep.oracle) (image : pil_image) :
  (forall image', preprocess_image o image = Ok image' ->
     mode image' = "RGB"%string
     /\ (image_size image' = image_size image
         \/ exists t, exif_transpose o = inl t /\ image_size image' = image_size t))
  /\ (forall e, preprocess_image o image = Exn e -> convert_again o = Some e)
  /\ (mode image = "RGB"%string ->
      (forall t, exif_transpose o = inl t -> mode t = "RGB"%string) ->
      exists image', preprocess_image o image = Ok image').
Proof.
  split; [intros image'; apply preprocess_image_result|].
  unfold preprocess_image. split.
  - intros e. unfold fallback, convert_rgb.
    destruct (exif_transpose o) as [t|e0].
    + destruct (negb (mode t =? "RGB")%string); [|discriminate].
      destruct (convert_first o); [|discriminate].
      destruct (convert_again o); congruence.
    + destruct (negb (mode image =? "RGB")%string); [|discriminate].
      destruct (convert_again o); congruence.
  - intros Hm Ht. unfold fallback. destruct (exif_transpose o) as [t|e0].
    + rewrite (Ht t eq_refl). cbn. eauto.
    + rewrite Hm. cbn. eauto.
Qed.

(** X5: preparation keeps an accepted image acceptable.  If
    [validate_image] accepts an image and the EXIF transposition, when
    there is one, keeps its two sides or swaps them, then the image
    [preprocess_image] returns is in mode RGB and [validate_image] accepts
    it too, with its format kept or dropped. *)
Theorem preprocess_keeps_valid (o : ImagePrep.oracle) (fmt fmt' : option pystr)
    (image image' : pil_image) :
  validate_image (Some (Picture fmt image)) = Valid ->
  (forall t, exif_transpose o = inl t ->
     image_size t = image_size image
     \/ image_size t = (snd (image_size image), fst (image_size image))) ->
  preprocess_image o image = Ok image' ->
  fmt' = fmt \/ fmt' = None ->
  mode image' = "RGB"%string /\ validate_image (Some (Picture fmt' image')) = Valid.
Proof.
  intros Hv Ht Hp Hf.
  apply preprocess_image_result in Hp as [Hm Hsize]. split; [exact Hm|].
  assert (Hs : image_size image' = image_size image
               \/ image_size image' = (snd (image_size image), fst (image_size image))).
  { destruct Hsize as [E|(t & Et & E)]; [auto|]. rewrite E. apply Ht, Et. }
  revert Hv. unfold validate_image. cbn [format pil].
  assert (Hu : match fmt' with
               | Some (c :: cs) => negb (bool_decide (upper (c :: cs) ∈ SUPPORTED_FORMATS))
               | _ => false
               end = true ->
               match fmt with
               | Some (c :: cs) => negb (bool_decide (upper (c :: cs) ∈ SUPPORTED_FORMATS))
               | _ => false
               end = true).
  { destruct Hf as [->| ->]; [auto|discriminate]. }
  destruct (match fmt with Some (c :: cs) => _ | _ => false end); [discriminate|].
  destruct (match fmt' with Some (c :: cs) => _ | _ => false end);
    [specialize (Hu eq_refl); discriminate|].
  destruct (image_size image) as [w h], (image_size image') as [w' h']. cbn [fst snd] in Hs.
  unfold MAX_IMAGE_SIZE.
  destruct (Z.leb_spec w 0), (Z.leb_spec h 0); cbn [orb]; try discriminate.
  destruct (Z.ltb_spec 10000 w), (Z.ltb_spec 10000 h); cbn [orb]; try discriminate.
  intros _.
  assert (Hwh : (w' = w /\ h' = h) \/ (w' = h /\ h' = w))
    by (destruct Hs as [E|E]; injection E; auto).
  destruct (Z.leb_spec w' 0), (Z.leb_spec h' 0); cbn [orb]; try lia.
  destruct (Z.ltb_spec 10000 w'), (Z.ltb_spec 10000 h'); cbn [orb]; try lia.
  reflexivity.
Qed.

Lemma preprocess_keeps_valid_witness :
  validate_image (Some (Picture (Some (lit "png")) rgba_image)) = Valid
  /\ preprocess_image (ImagePrep.Oracle (inl (PilImage "RGBA" (480, 640))) None None) rgba_image
     = Ok (PilImage "RGB" (480, 640))
  /\ validate_image (Some (Picture None (PilImage "RGB" (480, 640)))) = Valid.
Proof.
  split; [reflexivity|]. split; [reflexivity|].
  apply (preprocess_keeps_valid
           (ImagePrep.Oracle (inl (PilImage "RGBA" (480, 640))) None None)
           (Some (lit "png")) None rgba_image (PilImage "RGB" (480, 640)) eq_refl).
  - intros t [= <-]. right. reflexivity.
  - reflexivity.
  - right. reflexivity.
Defined.

(** Staging in [infer] depends on the image through its mode only. *)
Lemma staged_rgb (o : OCREngine.oracle) (image : pil_image) (p d : path) :
  mode image = "RGB"%string ->
  named_temporary_file o = inl p -> image_save o = None -> mkdtemp o = inl d ->
  staged o image = Some (p, d).
Proof.
  intros Hm Hp Hs Hd. unfold staged. rewrite Hp, Hs, Hd, Hm. reflexivity.
Qed.

(** X6: an image that went through [preprocess_image] passes the staging of
    [infer]: with the model loaded and the three staging calls of the
    environment succeeding, the model is called and [infer] ends as the
    model answers, whatever the mode of the image before the preparation. *)
Theorem preprocessed_image_reaches_model (po : ImagePrep.oracle) (o : OCREngine.oracle)
    (image image' : pil_image) (prompt : pystr) (base_size image_size : Z)
    (crop_mode save_results : bool) (w : world) (p d : path) :
  preprocess_image po image = Ok image' ->
  is_loaded w = true ->
  named_temporary_file o = inl p -> image_save o = None -> mkdtemp o = inl d ->
  model_prompts (trace (snd (infer o image' prompt base_size image_size crop_mode save_results w)))
  = model_prompts (trace w) ++ [prompt]
  /\ fst (infer o image' prompt base_size image_size crop_mode save_results w)
     = match model_answer o with
       | inl (Some t) => Ok (t, elapsed o, num_tokens t)
       | inl None => Exn (RuntimeError_inference_failed RuntimeError_model_returned_None)
       | inr e => Exn (RuntimeError_inference_failed e)
       end.
Proof.
  intros Hprep Hl Hp Hs Hd.
  destruct (preprocess_image_result po image image' Hprep) as [Hm _].
  pose proof (staged_rgb o image' p d Hm Hp Hs Hd) as Hst.
  split.
  - rewrite infer_model_prompts. unfold calls_model. rewrite Hl, Hst. reflexivity.
  - rewrite infer_result. unfold infer_outcome. rewrite Hl, Hst. reflexivity.
Qed.

Lemma preprocessed_image_reaches_model_witness :
  preprocess_image (ImagePrep.Oracle (inl rgba_image) None None) rgba_image = Ok rgb_image
  /\ fst (infer (plain_oracle (inl (Some (lit "text")))) rgb_image (lit "<image>")
            1024 640 true false ready_world)
     = Ok (lit "text", 2%float, 1).
Proof.
  split; [reflexivity|].
  exact (proj2 (preprocessed_image_reaches_model
                  (ImagePrep.Oracle (inl rgba_image) None None)
                  (plain_oracle (inl (Some (lit "text")))) rgba_image rgb_image
                  (lit "<image>") 1024 640 true false ready_world
                  "/tmp/tmpimg.jpg" "/tmp/tmpdir" eq_refl eq_refl eq_refl eq_refl eq_refl)).
Defined.

End Preprocess.

(** * The life cycle of the model *)

Section Manager.

Import ModelManager.

Ltac unfold_manager :=
  unfold load_model, unload_model, get_model, get_tokenizer, is_loaded, library, effect,
    try_except, mbind, ret, raise, emit, update, read,
    set_model, set_tokenizer, set_is_loaded.

Ltac oracle_cases :=
  repeat match goal with
    | |- context [match ?x with _ => _ end] =>
        match x with
        | tokenizer_from_pretrained _ => destruct x eqn:?
        | model_from_pretrained _ => destruct x eqn:?
        | model_eval _ => destruct x eqn:?
        | convert_to_float32 _ => destruct x eqn:?
        | model_to _ => destruct x eqn:?
        end; cbn
    end.

(** [load_model] on a CPU manager that is not loaded, step by step. *)
Lemma load_model_cpu (o : oracle) (name : pystr) (dt : torch_dtype)
    (m t : option handle) (cs : list call) :
  let s := State (Manager name "cpu" dt m t false) cs in
  match load_failure o with
  | None =>
      exists tok mdl,
        tokenizer_from_pretrained o = inl tok /\ model_from_pretrained o = inl mdl
        /\ load_model o s
           = (Ok tt,
              State (Manager name "cpu" dt (Some mdl) (Some tok) true)
                (cs ++ [TokenizerFromPretrained name;
                        ModelFromPretrained name false (Some float32);
                        ModelEval; ConvertToFloat32; ModelTo "cpu"]))
  | Some e =>
      exists m' t' new,
        load_model o s
        = (Exn (Exception_load_failed e), State (Manager name "cpu" dt m' t' false) (cs ++ new))
        /\ Forall (cpu_call name) new
        /\ (t' = t \/ exists tok, tokenizer_from_pretrained o = inl tok /\ t' = Some tok)
  end.
Proof.
  unfold load_failure. unfold_manager. cbn.
  oracle_cases; rewrite <- ?app_assoc; cbn;
    try (do 2 eexists; repeat split; reflexivity);
    (do 3 eexists; split; [reflexivity|]; split;
     [repeat constructor | eauto]).
Qed.

Lemma load_model_loaded (o : oracle) (s : state) :
  _is_loaded (self s) = true -> load_model o s = (Ok tt, s).
Proof. intros H. unfold_manager. rewrite H. reflexivity. Qed.

Lemma fresh_manager_ok (name : pystr) : manager_ok name (fresh_manager name).
Proof.
  unfold manager_ok. cbn. repeat split; try discriminate; auto.
Qed.

Lemma load_model_ok (o : oracle) (name : pystr) (s : state) :
  manager_ok name s -> manager_ok name (snd (load_model o s)).
Proof.
  intros Hok. destruct (_is_loaded (self s)) eqn:El.
  - rewrite load_model_loaded by exact El. exact Hok.
  - destruct s as [[n dev dt m t l] cs]. cbn in El. subst l.
    destruct Hok as (Hn & Hd & Hdt & _ & Hc). cbn in Hn, Hd, Hdt, Hc. subst n dev dt.
    pose proof (load_model_cpu o name float32 m t cs) as H. cbn zeta in H.
    destruct (load_failure o) as [e|].
    + destruct H as (m' & t' & new & -> & Hnew & Ht). cbn.
      unfold manager_ok. cbn. repeat split; try discriminate.
      apply Forall_app. auto.
    + destruct H as (tok & mdl & _ & _ & ->). cbn.
      unfold manager_ok. cbn. repeat split; eauto; try discriminate.
      apply Forall_app. split; [exact Hc|]. repeat constructor.
Qed.

Lemma unload_model_spec (name : pystr) (s : state) :
  manager_ok name s ->
  unload_model s
  = (Ok tt, if _is_loaded (self s) then State (init name) (calls s) else s).
Proof.
  intros (Hn & Hd & Hdt & _ & _). destruct s as [[n dev dt m t l] cs].
  cbn in Hn, Hd, Hdt. subst n dev dt. unfold_manager. cbn. destruct l; reflexivity.
Qed.

Lemma unload_model_ok (name : pystr) (s : state) :
  manager_ok name s -> manager_ok name (snd (unload_model s)).
Proof.
  intros Hok. rewrite (unload_model_spec name s Hok). cbn.
  destruct (_is_loaded (self s)); [|exact Hok].
  destruct Hok as (_ & _ & _ & _ & Hc).
  unfold manager_ok. cbn. repeat split; try discriminate; auto.
Qed.

Lemma getters_keep_state (s : state) :
  snd (get_model s) = s /\ snd (get_tokenizer s) = s /\ snd (is_loaded s) = s.
Proof. unfold_manager. destruct (_is_loaded (self s)); auto. Qed.

Lemma apply_ok (name : pystr) (op : operation) (s : state) :
  manager_ok name s -> manager_ok name (apply op s).
Proof.
  intros Hok. destruct (getters_keep_state s) as (Hm & Ht & Hl).
  destruct op; cbn [apply]; rewrite ?Hm, ?Ht, ?Hl; auto using load_model_ok, unload_model_ok.
Qed.

Lemma run_ok (name : pystr) (ops : list operation) :
  forall s, manager_ok name s -> manager_ok name (run ops s).
Proof.
  induction ops as [|op ops IH]; intros s Hok; [exact Hok|].
  cbn. apply IH, apply_ok, Hok.
Qed.

(** X7: whatever methods are called on a manager and however the loads
    go, the manager keeps its model name, stays on the CPU in float32, and
    reports itself loaded only while it holds a model and a tokenizer: so
    [get_model] and [get_tokenizer] either raise their "not loaded" error or
    return a loaded object, never [None]; and no call it makes asks for
    flash attention, reduced precision or an accelerator cache. *)
Theorem manager_invariant (name : pystr) (ops : list operation) :
  let s := run ops (fresh_manager name) in
  model_name (self s) = name
  /\ device (self s) = "cpu"%string
  /\ dtype (self s) = float32
  /\ (fst (get_model s) = Exn RuntimeError_model_not_loaded
      \/ exists h, fst (get_model s) = Ok (Some h))
  /\ (fst (get_tokenizer s) = Exn RuntimeError_tokenizer_not_loaded
      \/ exists h, fst (get_tokenizer s) = Ok (Some h))
  /\ Forall (cpu_call name) (calls s).
Proof.
  cbn zeta. pose proof (run_ok name ops _ (fresh_manager_ok name)) as Hok.
  destruct Hok as (Hn & Hd & Hdt & Hl & Hc).
  repeat split; auto; unfold_manager;
    (destruct (_is_loaded (self (run ops (fresh_manager name)))); cbn; [right|left; reflexivity]);
    destruct (Hl eq_refl) as [[h Hh] [h' Hh']]; rewrite ?Hh, ?Hh'; eauto.
Qed.

(** X8: [load_model] at any moment of a manager's life.  On a loaded
    manager it does nothing.  Otherwise it returns when every step of the
    load succeeds, after one request for the tokenizer and one for the
    model in float32, and the manager is then loaded and holds the two
    objects the library returned; when a step fails it raises the
    exception that wraps the failure of the first such step, the manager
    stays unloaded, and [get_model] then raises. *)
Theorem load_model_outcome (name : pystr) (ops : list operation) (o : oracle) :
  let s := run ops (fresh_manager name) in
  let r := load_model o s in
  if _is_loaded (self s) then r = (Ok tt, s)
  else match load_failure o with
       | None =>
           exists tok mdl,
             tokenizer_from_pretrained o = inl tok /\ model_from_pretrained o = inl mdl
             /\ fst r = Ok tt
             /\ _is_loaded (self (snd r)) = true
             /\ tokenizer (self (snd r)) = Some tok
             /\ model (self (snd r)) = Some mdl
             /\ calls (snd r)
                = calls s ++ [TokenizerFromPretrained name;
                              ModelFromPretrained name false (Some float32);
                              ModelEval; ConvertToFloat32; ModelTo "cpu"]
       | Some e =>
           fst r = Exn (Exception_load_failed e)
           /\ _is_loaded (self (snd r)) = false
           /\ fst (get_model (snd r)) = Exn RuntimeError_model_not_loaded
       end.
Proof.
  cbn zeta. pose proof (run_ok name ops _ (fresh_manager_ok name)) as Hok.
  destruct (run ops (fresh_manager name)) as [[n dev dt m t l] cs].
  destruct Hok as (Hn & Hd & Hdt & _). cbn in Hn, Hd, Hdt. subst n dev dt. cbn [self _is_loaded].
  destruct l; [apply load_model_loaded; reflexivity|].
  pose proof (load_model_cpu o name float32 m t cs) as H. cbn zeta in H.
  destruct (load_failure o) as [e|].
  - destruct H as (m' & t' & new & -> & _). cbn. auto.
  - destruct H as (tok & mdl & Et & Em & ->). cbn. exists tok, mdl. auto 10.
Qed.

(** X9: [unload_model] never raises and calls no library.  On a loaded
    manager it puts the manager back into the state it was made in; on a
    manager that is not loaded it changes nothing, so what a failed load
    left behind stays. *)
Theorem unload_model_outcome (name : pystr) (ops : list operation) :
  let s := run ops (fresh_manager name) in
  let r := unload_model s in
  fst r = Ok tt
  /\ calls (snd r) = calls s
  /\ _is_loaded (self (snd r)) = false
  /\ (if _is_loaded (self s) then self (snd r) = init name else snd r = s).
Proof.
  cbn zeta. pose proof (run_ok name ops _ (fresh_manager_ok name)) as Hok.
  rewrite (unload_model_spec name _ Hok). cbn.
  destruct (_is_loaded (self (run ops (fresh_manager name)))) eqn:El; cbn; auto.
Qed.

End Manager.

Section LoadThenInfer.

Import ModelManager App.

(** X10: [load_model_if_needed] and the engine.  Without a manager the call
    raises and changes nothing.  With one, at any moment of its life, the
    call either returns, and then the manager is loaded, the engine exists,
    a second call does nothing, and [infer] gets past its load check and
    ends as staging and the model decide; or it raises the wrapped failure
    of the load, the manager is not loaded, and [infer] on its engine
    raises "model not loaded". *)
Theorem load_model_if_needed_then_infer (name : pystr) (ops : list operation)
    (o : ModelManager.oracle) (engine : bool) :
  load_model_if_needed o (Globals None engine)
  = (inr RuntimeError_manager_not_initialized, Globals None engine)
  /\ let r := load_model_if_needed o (Globals (Some (run ops (fresh_manager name))) engine) in
     exists s', model_manager (snd r) = Some s'
       /\ forall (oi : OCREngine.oracle) (image : pil_image) (prompt : pystr)
                 (base_size image_size : Z) (crop_mode save_results : bool)
                 (files : gset path) (tr : list event),
          let answer := fst (infer oi image prompt base_size image_size crop_mode save_results
                               (engine_world s' files tr)) in
          match fst r with
          | inl _ =>
              _is_loaded (self s') = true
              /\ ocr_engine (snd r) = true
              /\ (forall o', load_model_if_needed o' (snd r) = (inl tt, snd r))
              /\ answer = infer_outcome true oi image
          | inr e =>
              (exists cause, load_failure o = Some cause
                             /\ e = FromManager (Exception_load_failed cause))
              /\ _is_loaded (self s') = false
              /\ ocr_engine (snd r) = engine
              /\ answer = OCREngine.Exn OCREngine.RuntimeError_model_not_loaded
          end.
Proof.
  split; [reflexivity|]. cbn zeta.
  pose proof (run_ok name ops _ (fresh_manager_ok name)) as Hok.
  destruct (run ops (fresh_manager name)) as [[n dev dt m t l] cs].
  destruct Hok as (Hn & Hd & Hdt & _). cbn in Hn, Hd, Hdt. subst n dev dt.
  unfold load_model_if_needed. cbn [model_manager is_loaded read self _is_loaded].
  destruct l.
  - eexists. split; [reflexivity|]. intros. cbn [fst snd].
    rewrite infer_result. cbn. auto.
  - pose proof (load_model_cpu o name float32 m t cs) as H. cbn zeta in H.
    destruct (load_failure o) as [e|].
    + destruct H as (m' & t' & new & -> & _). eexists. split; [reflexivity|].
      intros. cbn [fst snd]. rewrite infer_result. cbn. eauto 10.
    + destruct H as (tok & mdl & _ & _ & ->). eexists. split; [reflexivity|].
      intros. cbn [fst snd]. rewrite infer_result. cbn. auto.
Qed.

End LoadThenInfer.

(** * The files of a result *)

Section SaveResults.

Import ResultFiles.

Variable o : ResultFiles.oracle.
Variable join : path -> string -> path.

Ltac unfold_save :=
  unfold save_results, os_makedirs, write_file, ResultFiles.save_jpeg,
    try_except, mbind, ret, raise, emit, set_fs.

Ltac set_facts :=
  try assumption;
  unfold not in *; intros;
  repeat match goal with
    | H : _ ∈ _ ∪ _ |- _ => apply elem_of_union in H as [?|?]
    | H : _ ∈ {[ _ ]} |- _ => apply elem_of_singleton in H
    end;
  try congruence;
  rewrite ?elem_of_union, ?elem_of_singleton; tauto.

(** X11: [save_results] raises only when the output directory cannot be
    made, and then nothing was written.  Otherwise it returns: the
    directory exists, no file that existed is gone, the text path is
    returned exactly when the text is not empty and was opened and written,
    the image path exactly when there is an image that PIL could store as
    JPEG, neither depends on how the other went, and a path that is
    returned is the file name joined to the directory and exists. *)
Theorem save_results_outcome (text : pystr) (image : option pil_image) (output_dir : path)
    (prefix : string) (w : world) :
  let r := save_results o join text image output_dir prefix w in
  let text_path := join output_dir (prefix ++ ".md")%string in
  let image_path := join output_dir (prefix ++ "_visualization.jpg")%string in
  match makedirs o with
  | Some e => r = (Exn e, w)
  | None =>
      fst r = Ok (if text_saved o text then Some text_path else None,
                  if image_saved o image then Some image_path else None)
      /\ output_dir ∈ fs (snd r)
      /\ (forall p, p ∈ fs w -> p ∈ fs (snd r))
      /\ (text_saved o text = true -> text_path ∈ fs (snd r))
      /\ (image_saved o image = true -> image_path ∈ fs (snd r))
      /\ is_loaded (snd r) = is_loaded w
  end.
Proof.
  cbn zeta. unfold text_saved, image_saved. unfold_save.
  destruct w as [l s tr].
  destruct (makedirs o); [reflexivity|]. cbn.
  destruct text as [|c cs]; cbn;
    [|destruct (open_text o); cbn; [|destruct (write_text o); cbn]];
    (destruct image as [im|]; cbn;
     [destruct (bool_decide (mode im ∈ jpeg_modes)); cbn;
      [destruct (save_image o); cbn|try (destruct (save_image o); cbn)]|]);
    repeat split; try discriminate; set_facts.
Qed.

End SaveResults.

(** * More on the markup parser *)

Section Scan.

Lemma scan_partition_bounded (n : nat) :
  forall s, (length s <= n)%nat -> flat_map segment_text (scan s) = s.
Proof.
  induction n as [|n IH]; intros s Hlen.
  - destruct s; [reflexivity|cbn in Hlen; lia].
  - rewrite scan_eq. destruct (match_here s) as [[[label coords] rest]|] eqn:Em.
    + pose proof (match_here_shorter _ _ _ _ Em) as Hshort.
      apply match_here_sound in Em as (-> & _ & _).
      cbn [flat_map segment_text]. rewrite IH by lia. reflexivity.
    + destruct s as [|c s']; [reflexivity|]. cbn [flat_map segment_text].
      cbn in Hlen. rewrite IH by lia. reflexivity.
Qed.

Lemma scan_partition (s : pystr) : flat_map segment_text (scan s) = s.
Proof. apply (scan_partition_bounded (length s)). lia. Qed.

Lemma In_flat_map_piece {A} (f : A -> pystr) (l : list A) (x : A) :
  In x l -> Substring (f x) (flat_map f l).
Proof.
  intros Hin. apply in_split in Hin as (l1 & l2 & ->).
  rewrite flat_map_app. cbn. exists (flat_map f l1), (flat_map f l2). reflexivity.
Qed.

Lemma matched_piece (raw label coords : pystr) :
  In (Matched label coords) (scan raw) -> Substring (span label coords) raw.
Proof.
  intros Hin. rewrite <- (scan_partition raw) at 1.
  exact (In_flat_map_piece segment_text _ _ Hin).
Qed.

Lemma span_length (label coords : pystr) :
  length (span label coords) = (30 + length label + length coords)%nat.
Proof. unfold span. rewrite !length_app. cbn. lia. Qed.

Lemma segments_length (segs : list segment) :
  (length (flat_map (fun seg => match seg with
                                | Unmatched c => [c]
                                | Matched label _ => label
                                end) segs)
   + list_sum (map dropped
       (flat_map (fun seg => match seg with
                             | Unmatched _ => []
                             | Matched label coords => [(span label coords, label, coords)]
                             end) segs))
   = length (flat_map segment_text segs))%nat.
Proof.
  induction segs as [|[c|label coords] segs IH]; [reflexivity| |].
  - cbn [flat_map app segment_text length]. rewrite <- IH. reflexivity.
  - cbn [flat_map app segment_text map dropped list_sum].
    rewrite !length_app, span_length, <- IH. unfold list_sum. cbn [fold_right]. lia.
Qed.

(** X12: the matches of the span pattern are pieces of the raw text that do
    not overlap and come in text order: the raw text is the concatenation of
    its segments, matched spans and single characters between them.  So a
    match is a substring of the raw text, and replacing every match by its
    label, as [clean_markdown] does first, shortens the text by exactly the
    four tags and the coordinate text of every match. *)
Theorem matches_partition_text (raw : pystr) :
  flat_map segment_text (scan raw) = raw
  /\ (forall full label coords,
        In (full, label, coords) (re_findall raw) ->
        full = span label coords /\ Substring full raw /\ Substring label raw)
  /\ (length (re_sub raw) + list_sum (map dropped (re_findall raw)) = length raw)%nat.
Proof.
  split; [apply scan_partition|]. split.
  - intros full label coords Hin. apply re_findall_full in Hin as [-> Hin].
    split; [reflexivity|]. pose proof (matched_piece _ _ _ Hin) as (a & b & E).
    split; [exists a, b; exact E|].
    exists (a ++ REF_OPEN), (REF_CLOSE_DET_OPEN ++ coords ++ DET_CLOSE ++ b).
    rewrite E. unfold span. rewrite <- !app_assoc. reflexivity.
  - unfold re_sub, re_findall. rewrite segments_length, scan_partition. reflexivity.
Qed.

End Scan.

Section Boxes.

Variable eval : pystr -> outcome pyval.




End Boxes.


Section Untagged.

Lemma contains_tail (k : pystr) (c : char) (s : pystr) :
  contains k (c :: s) = false -> contains k s = false.
Proof. cbn [contains]. intros H. apply orb_false_iff in H as [_ H]. exact H. Qed.

Lemma match_here_tags (s label coords rest : pystr) :
  match_here s = Some (label, coords, rest) ->
  contains REF_OPEN s = true /\ contains DET_OPEN s = true.
Proof.
  intros H. apply match_here_sound in H as (-> & _ & _).
  split; apply contains_true_iff.
  - exists [], (label ++ REF_CLOSE_DET_OPEN ++ coords ++ DET_CLOSE ++ rest).
    unfold span. rewrite <- !app_assoc. reflexivity.
  - exists (REF_OPEN ++ label ++ REF_CLOSE), (coords ++ DET_CLOSE ++ rest).
    unfold span. change REF_CLOSE_DET_OPEN with (REF_CLOSE ++ DET_OPEN).
    rewrite <- !app_assoc. reflexivity.
Qed.

Lemma scan_untagged (raw : pystr) :
  contains REF_OPEN raw && contains DET_OPEN raw = false -> scan raw = map Unmatched raw.
Proof.
  induction raw as [|c s IH]; intros H; [apply scan_nil|].
  assert (Hm : match_here (c :: s) = None).
  { destruct (match_here (c :: s)) as [[[l cs] r]|] eqn:Em; [|reflexivity].
    apply match_here_tags in Em as [E1 E2]. rewrite E1, E2 in H. discriminate. }
  rewrite (scan_unmatched c s Hm). cbn [map]. f_equal. apply IH.
  apply andb_false_iff in H as [H|H]; apply contains_tail in H; rewrite H;
    [reflexivity|apply andb_false_r].
Qed.

(** X14: on a raw text that [parse_result] reports as without grounding
    (it lacks [<|ref|>] or lacks [<|det|>]) there is no match, [eval] is not
    called, and the result of [parse_result] is the raw text, the raw text
    without the [<|grounding|>] tags and trimmed, and no box.  So a text
    for which a box is reported is always reported as grounded. *)
Theorem parse_without_grounding (eval : pystr -> outcome pyval) (raw : pystr) :
  contains REF_OPEN raw && contains DET_OPEN raw = false ->
  re_findall raw = []
  /\ parse_result eval raw
     = Returns (Parsed raw (strip (remove_all GROUNDING raw)) [] false).
Proof.
  intros H. pose proof (scan_untagged raw H) as Hs.
  assert (Hf : re_findall raw = []).
  { unfold re_findall. rewrite Hs. apply findall_unmatched. }
  split; [exact Hf|].
  unfold parse_result, extract_bounding_boxes, clean_markdown. rewrite Hf, H.
  unfold re_sub. rewrite Hs, sub_unmatched. reflexivity.
Qed.

Lemma parse_without_grounding_witness :
  contains REF_OPEN sample_no_det && contains DET_OPEN sample_no_det = false
  /\ parse_result py_eval sample_no_det
     = Returns (Parsed sample_no_det (lit "<|ref|>no boxes here") [] false).
Proof.
  split; [reflexivity|].
  exact (proj2 (parse_without_grounding py_eval sample_no_det eq_refl)).
Defined.

Lemma lstrip_length (s : pystr) : (length (lstrip s) <= length s)%nat.
Proof.
  destruct (lstrip_split s) as (w & E & _). rewrite E at 2. rewrite length_app. lia.
Qed.

Lemma strip_length (s : pystr) : (length (strip s) <= length s)%nat.
Proof.
  unfold strip, rstrip. rewrite length_rev.
  etransitivity; [apply lstrip_length|]. rewrite length_rev. apply lstrip_length.
Qed.

Lemma remove_loop_length (old : pystr) (n : nat) :
  forall s, (length (remove_loop n old s) <= length s)%nat.
Proof.
  induction n as [|n IH]; intros s; cbn [remove_loop]; [cbn; lia|].
  destruct (startswith old s).
  - etransitivity; [apply IH|]. rewrite length_drop. lia.
  - destruct s as [|c s']; [reflexivity|]. cbn [length]. specialize (IH s'). lia.
Qed.

Lemma remove_all_length (old s : pystr) : (length (remove_all old s) <= length s)%nat.
Proof. unfold remove_all. destruct old; [reflexivity|apply remove_loop_length]. Qed.

(** X15: the text [clean_markdown] returns is never longer than the raw
    text and has no white space at either end; on a raw text without [<]
    cleaning is trimming. *)
Theorem clean_markdown_shrinks (raw : pystr) :
  (length (clean_markdown raw) <= length raw)%nat
  /\ trimmed (clean_markdown raw)
  /\ (plain raw -> clean_markdown raw = strip raw).
Proof.
  unfold clean_markdown. split; [|split; [apply strip_trimmed|]].
  - etransitivity; [apply strip_length|]. etransitivity; [apply remove_all_length|].
    pose proof (segments_length (scan raw)) as H. rewrite scan_partition in H.
    unfold re_sub. lia.
  - intros Hp. unfold re_sub.
    rewrite <- (app_nil_r raw) at 1. rewrite (scan_plain raw [] Hp), scan_nil, app_nil_r.
    rewrite sub_unmatched. change GROUNDING with (LT :: tl GROUNDING).
    rewrite remove_all_plain by exact Hp. reflexivity.
Qed.

End Untagged.

Section LiteralRoundTrip.

Lemma literal_items_well_formed (items : list (pystr * (Z * Z * Z * Z) * pystr)) :
  Forall literal_item_ok items ->
  Forall well_formed_item (map literal_item items)
  /\ Forall2 (evaluates_to py_eval) (map literal_item items) (map (fun it => snd (fst it)) items).
Proof.
  induction 1 as [|[[label pts] after] items (Hl & Ho & Ha & Hr) _ [IH1 IH2]];
    [split; constructor|].
  destruct (literal_item_evaluates label after pts Hl Ho Ha Hr) as [Hw He].
  split; constructor; assumption.
Qed.

Lemma literal_boxes (items : list (pystr * (Z * Z * Z * Z) * pystr)) :
  zip_with (fun it p => box_of_points (item_label it) p)
    (map literal_item items) (map (fun it => snd (fst it)) items)
  = map literal_box items.
Proof.
  induction items as [|[[label pts] after] items IH]; [reflexivity|].
  cbn [map zip_with literal_item item_label literal_box fst snd]. f_equal. exact IH.
Qed.

Lemma box_of_points_in_unit (label : pystr) (pts : Z * Z * Z * Z) :
  points_in_source_range pts -> Forall in_unit (bbox (box_of_points label pts)).
Proof.
  destruct pts as [[[x0 y0] x1] y1]. intros (H0 & H1 & H2 & H3). cbn.
  repeat constructor; apply source_range_facts; assumption.
Qed.

(** X16: writing and reading back.  A text written as spans whose
    coordinate texts are the literals [[[x0,y0],[x1,y1]]] of integers in
    [[0, 999]], with labels and text around them without [<] and labels
    without newline, is read back by [extract_bounding_boxes], with Python's
    own evaluation of the literals, as exactly the boxes written, in order,
    every coordinate divided by 999.0 and within [[0, 1]]; and
    [clean_markdown] returns the text with each span replaced by its label,
    trimmed. *)
Theorem literal_markup_round_trip (before : pystr)
    (items : list (pystr * (Z * Z * Z * Z) * pystr)) :
  plain before -> Forall literal_item_ok items ->
  let raw := markup before (map literal_item items) in
  extract_bounding_boxes py_eval raw = Returns (map literal_box items)
  /\ Forall (fun b => Forall in_unit (bbox b)) (map literal_box items)
  /\ clean_markdown raw = strip (labels_only before (map literal_item items)).
Proof.
  intros Hb Hitems. cbn zeta.
  destruct (literal_items_well_formed items Hitems) as [Hw He].
  split; [|split].
  - unfold extract_bounding_boxes. rewrite re_findall_markup by assumption.
    rewrite (collect_boxes_points py_eval _ _ [] He). cbn [app].
    rewrite literal_boxes. reflexivity.
  - apply List.Forall_forall. intros b Hin. apply in_map_iff in Hin as ([[label pts] after] & <- & Hin).
    rewrite List.Forall_forall in Hitems. specialize (Hitems _ Hin) as (_ & _ & _ & Hr).
    apply box_of_points_in_unit, Hr.
  - apply clean_markdown_markup; assumption.
Qed.

Lemma literal_markup_round_trip_witness :
  let raw := markup (lit "Page: ") (map literal_item sample_literal_items) in
  extract_bounding_boxes py_eval raw
  = Returns [box_of_points (lit "title") (100, 50, 300, 100);
             box_of_points (lit "plain text") (0, 150, 999, 200)]
  /\ clean_markdown raw = lit "Page: title and plain text".
Proof.
  assert (Hb : plain (lit "Page: ")) by (repeat constructor; vm_compute; discriminate).
  assert (Hi : Forall literal_item_ok sample_literal_items).
  { unfold sample_literal_items, literal_item_ok, plain, one_line, points_in_source_range,
      in_source_range.
    repeat constructor; vm_compute; discriminate. }
  destruct (literal_markup_round_trip (lit "Page: ") sample_literal_items Hb Hi)
    as (Hx & _ & Hc).
  split; [exact Hx|]. cbn zeta. rewrite Hc. vm_compute. reflexivity.
Defined.

End LiteralRoundTrip.

(** * More on the inference engine *)

Section InferMore.

Variable o : OCREngine.oracle.
Variables (image : pil_image) (prompt : pystr) (base_size image_size : Z).
Variables (crop_mode save_results : bool).

Local Abbreviation run := (infer o image prompt base_size image_size crop_mode save_results).

Ltac unfold_infer :=
  unfold infer, cleanup, NamedTemporaryFile, save_jpeg, mkdtemp_, model_infer, remove, rmtree,
    get_model, try_except, try_finally, mbind, ret, raise, emit, set_fs, exists_, when.

Ltac oracle_case :=
  match goal with
  | |- context [match ?x with _ => _ end] =>
      match x with
      | named_temporary_file _ => destruct x eqn:?
      | image_save _ => destruct x eqn:?
      | mkdtemp _ => destruct x eqn:?
      | model_answer _ => destruct x as [[?|]|?] eqn:?
      | os_remove _ => destruct x eqn:?
      | shutil_rmtree _ => destruct x eqn:?
      end
  | |- context [bool_decide ?P] => destruct (bool_decide P) eqn:?
  end.

Ltac oracle_cases := cbn; repeat (oracle_case; cbn).

Lemma num_tokens_quotient (t : pystr) : num_tokens t = Z.of_nat (length t) / 4.
Proof. destruct t; reflexivity. Qed.

(** When [infer] raises after the load check, the last thing it did was to
    log the exception it wraps. *)
Lemma infer_logs_cause (w : world) (e : exn) :
  is_loaded w = true -> fst (run w) = Exn e ->
  exists cause tr, e = RuntimeError_inference_failed cause
                   /\ trace (snd (run w)) = tr ++ [LogError cause].
Proof.
  unfold_infer. destruct w as [l s tr]. cbn. intros ->. cbn.
  oracle_cases; intros [= <-]; eexists; eexists; (split; [reflexivity|]);
    rewrite ?app_assoc; reflexivity.
Qed.

(** X17: how [infer] ends.  When it returns, the model was loaded and
    answered the text returned, the time is the one measured, and the token
    count is the length of the text divided by four, rounded down (the
    special case for an empty text changes nothing).  When it raises, the
    exception is "model not loaded" on a model that is not loaded, and
    otherwise the one [RuntimeError] that wraps the cause, which was logged
    as the last event: no other exception leaves [infer]. *)
Theorem infer_ends (w : world) :
  match fst (run w) with
  | Ok (t, time, tokens) =>
      is_loaded w = true /\ model_answer o = inl (Some t) /\ time = elapsed o
      /\ tokens = Z.of_nat (length t) / 4
  | Exn e =>
      (is_loaded w = false /\ e = RuntimeError_model_not_loaded)
      \/ (is_loaded w = true
          /\ exists cause tr, e = RuntimeError_inference_failed cause
                              /\ trace (snd (run w)) = tr ++ [LogError cause])
  end.
Proof.
  destruct (fst (run w)) as [[[t time] tokens]|e] eqn:E.
  - rewrite infer_result in E. unfold infer_outcome in E.
    destruct (is_loaded w); [|discriminate]. cbn in E.
    destruct (staged o image); [|discriminate].
    destruct (model_answer o) as [[t'|]|e']; try discriminate.
    injection E as -> <- <-. auto using num_tokens_quotient.
  - destruct (is_loaded w) eqn:El.
    + right. split; [reflexivity|]. apply infer_logs_cause; assumption.
    + left. split; [reflexivity|]. rewrite infer_result, El in E. cbn in E. congruence.
Qed.


(** X19: a removal that fails in the cleanup of [infer] is swallowed.  When
    staging went through, the model leaves the two staged paths in place,
    and [os.remove] fails, or [os.remove] succeeds and [shutil.rmtree]
    fails, the call still ends as staging and the model decide, the failure
    is logged as a warning, and the scratch directory stays on the disk;
    when it is [os.remove] that fails, the staged file stays too. *)
Theorem infer_swallows_cleanup_failure (w : world) (p d : path) (e : exn) :
  is_loaded w = true -> staged o image = Some (p, d) -> p <> d ->
  model_effect o = (fun s => s) ->
  os_remove o = Some e \/ (os_remove o = None /\ shutil_rmtree o = Some e) ->
  fst (run w) = infer_outcome true o image
  /\ In (LogWarning e) (trace (snd (run w)))
  /\ d ∈ fs (snd (run w))
  /\ (os_remove o = Some e -> p ∈ fs (snd (run w))).
Proof.
  unfold staged. intros Hl Hs Hpd Hid Hfail.
  split; [rewrite infer_result, Hl; reflexivity|].
  unfold_infer.
  destruct w as [l s tr]. cbn in Hl. subst l. cbn.
  destruct (named_temporary_file o) as [p'|]; [|discriminate].
  destruct (image_save o); [discriminate|].
  destruct (mkdtemp o) as [d'|]; [|discriminate].
  destruct (bool_decide (mode image ∈ jpeg_modes)); [|discriminate].
  injection Hs as -> ->. rewrite Hid. cbn.
  assert (Hp : (p : string) ∈ ({[d]} ∪ ({[p]} ∪ ({[p]} ∪ s)) : gset string))
    by (rewrite !elem_of_union, !elem_of_singleton; tauto).
  assert (Hd : (d : string) ∈ (({[d]} ∪ ({[p]} ∪ ({[p]} ∪ s))) ∖ {[p]} : gset string))
    by (rewrite elem_of_difference, !elem_of_union, !elem_of_singleton;
        split; [tauto|congruence]).
  assert (Hd' : (d : string) ∈ ({[d]} ∪ ({[p]} ∪ ({[p]} ∪ s)) : gset string))
    by (rewrite !elem_of_union, !elem_of_singleton; tauto).
  destruct Hfail as [Hrm|[Hrm Hrt]]; rewrite Hrm; try rewrite Hrt;
    destruct (model_answer o) as [[t|]|e']; cbn;
    rewrite ?(bool_decide_eq_true_2 _ Hp); cbn;
    rewrite ?(bool_decide_eq_true_2 _ Hd); cbn;
    (split; [rewrite !in_app_iff; cbn; tauto|]);
    (split; [assumption|]); (intros; first [assumption|discriminate]).
Qed.

End InferMore.


Lemma infer_swallows_cleanup_failure_witness :
  let o := Oracle (inl "/tmp/tmpimg.jpg"%string) None (inl "/tmp/tmpdir"%string)
             (inl (Some (lit "text"))) (fun s => s) 2%float
             None (Some (External "PermissionError")) in
  let r := infer o rgb_image (lit "<image>") 1024 640 true false ready_world in
  fst r = Ok (lit "text", 2%float, 1)
  /\ In (LogWarning (External "PermissionError")) (trace (snd r))
  /\ "/tmp/tmpdir"%string ∈ fs (snd r).
Proof.
  cbn zeta.
  destruct (infer_swallows_cleanup_failure
              (Oracle (inl "/tmp/tmpimg.jpg"%string) None (inl "/tmp/tmpdir"%string)
                 (inl (Some (lit "text"))) (fun s => s) 2%float
                 None (Some (External "PermissionError")))
              rgb_image (lit "<image>") 1024 640 true false ready_world
              "/tmp/tmpimg.jpg" "/tmp/tmpdir" (External "PermissionError")
              eq_refl eq_refl ltac:(discriminate) eq_refl (or_intror (conj eq_refl eq_refl)))
    as (Hr & Hlog & Hd & _).
  split; [exact Hr|]. split; [exact Hlog|exact Hd].
Defined.

Section BatchMore.

Variable oracles : nat -> OCREngine.oracle.
Variables (base_size image_size : Z) (crop_mode : bool).

Lemma batch_loop_unloaded (items : list (pil_image * pystr)) :
  forall (i : nat) (acc : list (pystr * float * Z)) (w : world),
    is_loaded w = false ->
    batch_loop oracles base_size image_size crop_mode i items acc w
    = (Ok (acc ++ replicate (length items) placeholder),
       World false (fs w)
         (trace w ++ replicate (length items) (LogError RuntimeError_model_not_loaded))).
Proof.
  induction items as [|[image prompt] items IH]; intros i acc w Hl.
  - cbn. rewrite !app_nil_r. destruct w. cbn in Hl. subst. reflexivity.
  - cbn [batch_loop]. unfold mbind at 1. unfold try_except.
    assert (E : infer (oracles i) image prompt base_size image_size crop_mode false w
                = (Exn RuntimeError_model_not_loaded, w)).
    { unfold infer, mbind. rewrite Hl. reflexivity. }
    rewrite E. unfold mbind, emit, ret. cbn [fst snd].
    rewrite IH by exact Hl. cbn [fs trace length replicate].
    rewrite <- !app_assoc. reflexivity.
Qed.

(** X20: [infer_batch] on a model that is not loaded does not raise the
    "model not loaded" error of [infer]: for lists of equal length it
    returns one placeholder [("", 0.0, 0)] per image, having logged one error
    per image, called the model for none and touched no file. *)
Theorem infer_batch_unloaded (images : list pil_image) (prompts : list pystr) (w : world) :
  is_loaded w = false -> length images = length prompts ->
  infer_batch oracles base_size image_size crop_mode images prompts w
  = (Ok (replicate (length images) placeholder),
     World false (fs w)
       (trace w ++ replicate (length images) (LogError RuntimeError_model_not_loaded))).
Proof.
  intros Hl Hlen. unfold infer_batch. rewrite Hlen, Nat.eqb_refl. cbn [negb].
  rewrite batch_loop_unloaded by exact Hl. cbn [app].
  rewrite length_zip_with. rewrite Hlen, Nat.min_id. reflexivity.
Qed.

End BatchMore.

Lemma infer_batch_unloaded_witness :
  infer_batch sample_oracles 1024 640 true [rgb_image; rgba_image] [lit "a"; lit "b"]
    unloaded_world
  = (Ok [placeholder; placeholder],
     World false ∅ [LogError RuntimeError_model_not_loaded;
                    LogError RuntimeError_model_not_loaded]).
Proof.
  exact (infer_batch_unloaded sample_oracles 1024 640 true [rgb_image; rgba_image]
           [lit "a"; lit "b"] unloaded_world eq_refl eq_refl).
Defined.

(** * More on the renderer *)

Section RenderMore.

Context {pixels font : Type}.
Variable draw : pixels -> draw_call font -> option pixels.
Variable textbbox : Z * Z -> pystr -> font -> option (Z * Z * Z * Z).
Variable truetype : Z -> option font.
Variable load_default : font.

(** A store in which the object [o] exists. *)
Local Abbreviation present o st := (is_Some (heap (pixels := pixels) (font := font) st !! o)).

Lemma draw_on_present (o : obj) (c : draw_call font) (st : store pixels font) :
  present o st ->
  calls (snd (draw_on draw o c st)) = calls st ++ [(o, c)]
  /\ present o (snd (draw_on draw o c st))
  /\ (outlines_drawable draw ->
      forall xy col width, c = Rectangle xy None (Some col) width ->
      fst (draw_on draw o c st) = Returns tt).
Proof.
  intros [im Him]. unfold draw_on. rewrite Him.
  destruct (draw (raster im) c) as [px|] eqn:Ed; cbn [fst snd calls heap].
  - split; [reflexivity|]. split; [|auto]. rewrite lookup_insert_eq. eauto.
  - split; [reflexivity|]. split; [eauto|].
    intros Hd xy col width ->. destruct (Hd (raster im) xy col width) as [px Hpx]. congruence.
Qed.

Lemma draw_on_returns (o : obj) (c : draw_call font) (st st' : store pixels font) :
  draw_on draw o c st = (Returns tt, st') -> present o st.
Proof.
  unfold draw_on. destruct (heap st !! o) as [im|]; [eauto|discriminate].
Qed.

Lemma draw_label_calls (o : obj) (x1 text_y : Z) (text_display : pystr) (c : color) (f : font)
    (st : store pixels font) :
  present o st ->
  present o (draw_label draw textbbox o x1 text_y text_display c f st)
  /\ exists labels,
       calls (draw_label draw textbbox o x1 text_y text_display c f st)
       = calls st ++ map (pair o) labels
       /\ (labels = []
           \/ exists bb, labels = [Rectangle bb (Some c) None 1]
                         \/ labels = [Rectangle bb (Some c) None 1;
                                      Text (x1, text_y) text_display (255, 255, 255) f]).
Proof.
  intros Hp. unfold draw_label.
  destruct (textbbox (x1, text_y) text_display f) as [bb|].
  - destruct (draw_on_present o (Rectangle bb (Some c) None 1) st Hp) as (Hc & Hp1 & _).
    destruct (draw_on draw o (Rectangle bb (Some c) None 1) st) as [[[]| |] st1];
      cbn [snd] in Hc, Hp1.
    + destruct (draw_on_present o (Text (x1, text_y) text_display (255, 255, 255) f) st1 Hp1)
        as (Hc2 & Hp2 & _).
      split; [exact Hp2|].
      exists [Rectangle bb (Some c) None 1; Text (x1, text_y) text_display (255, 255, 255) f].
      rewrite Hc2, Hc, <- app_assoc. split; [reflexivity|].
      right. exists bb. right. reflexivity.
    + split; [exact Hp1|]. exists [Rectangle bb (Some c) None 1].
      rewrite Hc. split; [reflexivity|]. right. exists bb. left. reflexivity.
    + split; [exact Hp1|]. exists [Rectangle bb (Some c) None 1].
      rewrite Hc. split; [reflexivity|]. right. exists bb. left. reflexivity.
  - split; [exact Hp|]. exists []. rewrite app_nil_r. auto.
Qed.

Lemma draw_box_calls (o : obj) (size : Z * Z) (f : font) (show_text : bool) (bw : Z)
    (idx : nat) (b : box) (st st' : store pixels font) :
  draw_box draw textbbox o (fst size) (snd size) (font_size_for size) f show_text bw idx b st
  = (Returns tt, st') ->
  present o st'
  /\ exists cs, calls st' = calls st ++ map (pair o) cs
                /\ box_calls size f show_text bw idx b cs.
Proof.
  unfold draw_box. fold (box_pixels (fst size) (snd size) b).
  change (length colors) with 8%nat. fold (box_color idx).
  destruct (box_pixels (fst size) (snd size) b) as [[[[x1 y1] x2] y2]| |] eqn:Epx;
    try discriminate.
  destruct (draw_on draw o (Rectangle (x1, y1, x2, y2) None (Some (box_color idx)) bw) st)
    as [r st1] eqn:Ed.
  destruct r as [[]| |]; try discriminate.
  pose proof (draw_on_returns _ _ _ _ Ed) as Hp.
  destruct (draw_on_present o (Rectangle (x1, y1, x2, y2) None (Some (box_color idx)) bw) st Hp)
    as (Hc & Hp1 & _).
  rewrite Ed in Hc, Hp1. cbn [snd] in Hc, Hp1.
  destruct show_text; cbn [andb].
  - destruct (Nat.eqb_spec (length (text b)) 0) as [E0|E0]; cbn [negb].
    + intros [= <-]. split; [exact Hp1|].
      exists [Rectangle (x1, y1, x2, y2) None (Some (box_color idx)) bw].
      rewrite Hc. split; [reflexivity|]. exists x1, y1, x2, y2, []. auto.
    + intros [= <-].
      match goal with |- context [draw_label draw textbbox o x1 ?ty ?td ?c f st1] =>
        destruct (draw_label_calls o x1 ty td c f st1 Hp1) as (Hp2 & labels & Hl & Hcase) end.
      split; [exact Hp2|].
      exists (Rectangle (x1, y1, x2, y2) None (Some (box_color idx)) bw :: labels).
      rewrite Hl, Hc, <- app_assoc. split; [reflexivity|].
      exists x1, y1, x2, y2, labels. split; [exact Epx|]. split; [reflexivity|].
      destruct Hcase as [->|[bb Hbb]]; [left; reflexivity|]. right.
      split; [reflexivity|]. split; [intros Et; rewrite Et in E0; apply E0; reflexivity|].
      exists bb. exact Hbb.
  - intros [= <-]. split; [exact Hp1|].
    exists [Rectangle (x1, y1, x2, y2) None (Some (box_color idx)) bw].
    rewrite Hc. split; [reflexivity|]. exists x1, y1, x2, y2, []. auto.
Qed.

Lemma draw_boxes_calls (o : obj) (size : Z * Z) (f : font) (show_text : bool) (bw : Z)
    (boxes : list box) :
  forall (idx : nat) (st st' : store pixels font),
    draw_boxes draw textbbox o (fst size) (snd size) (font_size_for size) f show_text bw
      idx boxes st = (Returns tt, st') ->
    exists groups,
      calls st' = calls st ++ map (pair o) (concat groups)
      /\ Forall2 (fun ib cs => box_calls size f show_text bw (fst ib) (snd ib) cs)
           (imap (fun i b => ((idx + i)%nat, b)) boxes) groups.
Proof.
  induction boxes as [|b boxes IH]; intros idx st st'.
  - cbn. intros [= <-]. exists []. rewrite app_nil_r. split; [reflexivity|constructor].
  - cbn [draw_boxes].
    destruct (draw_box draw textbbox o (fst size) (snd size) (font_size_for size) f show_text
                bw idx b st) as [r st1] eqn:Eb.
    destruct r as [[]| |]; try discriminate.
    intros Hrest. apply draw_box_calls in Eb as (_ & cs & Hc & Hb).
    apply IH in Hrest as (groups & Hg & Hall).
    exists (cs :: groups). split.
    + rewrite Hg, Hc. cbn [concat]. rewrite map_app, <- app_assoc. reflexivity.
    + cbn [imap]. constructor; [cbn [fst snd]; rewrite Nat.add_0_r; exact Hb|].
      erewrite imap_ext; [exact Hall|].
      intros i x _. cbn. f_equal. lia.
Qed.

Lemma draw_box_robust (o : obj) (size : Z * Z) (f : font) (show_text : bool) (bw : Z)
    (idx : nat) (b : box) (st : store pixels font) :
  outlines_drawable draw -> present o st ->
  (exists xy, box_pixels (fst size) (snd size) b = Returns xy) ->
  exists st',
    draw_box draw textbbox o (fst size) (snd size) (font_size_for size) f show_text bw idx b st
    = (Returns tt, st').
Proof.
  intros Hd Hp [[[[x1 y1] x2] y2] Epx]. unfold draw_box.
  fold (box_pixels (fst size) (snd size) b). rewrite Epx.
  match goal with |- context [draw_on draw o ?c st] =>
    destruct (draw_on_present o c st Hp) as (_ & _ & Hr);
    specialize (Hr Hd _ _ _ eq_refl); destruct (draw_on draw o c st) as [r st1] end.
  cbn [fst] in Hr. subst r.
  destruct (show_text && negb (length (text b) =? 0)%nat); eauto.
Qed.

Lemma draw_boxes_robust (o : obj) (size : Z * Z) (f : font) (show_text : bool) (bw : Z)
    (boxes : list box) :
  outlines_drawable draw ->
  Forall (fun b => exists xy, box_pixels (fst size) (snd size) b = Returns xy) boxes ->
  forall (idx : nat) (st : store pixels font),
    present o st ->
    exists st',
      draw_boxes draw textbbox o (fst size) (snd size) (font_size_for size) f show_text bw
        idx boxes st = (Returns tt, st').
Proof.
  intros Hd Hall. induction Hall as [|b boxes Hb _ IH]; intros idx st Hp; [cbn; eauto|].
  cbn [draw_boxes].
  destruct (draw_box_robust o size f show_text bw idx b st Hd Hp Hb) as [st1 E1].
  rewrite E1. apply IH. apply draw_box_calls in E1 as [Hp1 _]. exact Hp1.
Qed.

Lemma draw_bounding_boxes_unfold (im : image pixels) (image : obj) (boxes : list box)
    (show_text : bool) (box_width : Z) (st : store pixels font) :
  heap st !! image = Some im -> boxes <> [] ->
  draw_bounding_boxes draw textbbox truetype load_default image boxes show_text box_width st
  = match draw_boxes draw textbbox (fst (copy st im)) (fst (size im)) (snd (size im))
            (font_size_for (size im)) (font_for truetype load_default (size im))
            show_text box_width 0 boxes (snd (copy st im)) with
    | (Returns _, st2) => (Returns (fst (copy st im)), st2)
    | (Raises, st2) => (Raises, st2)
    | (Escapes, st2) => (Escapes, st2)
    end.
Proof.
  intros Him Hne. unfold draw_bounding_boxes. rewrite Him.
  destruct boxes as [|b boxes]; [contradiction|].
  unfold font_for, font_size_for. destruct (size im) as [w h]. reflexivity.
Qed.

Lemma display_text_length (t : pystr) : (length (display_text t) <= 23)%nat.
Proof.
  unfold display_text. destruct (Nat.ltb_spec 20 (length t)); [|lia].
  rewrite length_app, length_take. change (length (lit "...")) with 3%nat. lia.
Qed.

End RenderMore.

(** X21: what [draw_bounding_boxes] draws when it returns.  The calls it
    issues, all on the object it returns, are, box after box in the order
    of the list: the outline of the box at its pixel corners, in the colour
    of the palette at the position of the box modulo 8 and in the width
    asked for; then, only if labels are shown and the text of the box is not
    empty, the background of the label and after it the label, in white, at
    the left edge of the box, above it but not above the top of the image.
    The label is the text of the box cut to 20 characters and an ellipsis,
    so at most 23 characters. *)
Theorem draw_bounding_boxes_script {pixels font : Type}
    (draw : pixels -> draw_call font -> option pixels)
    (textbbox : Z * Z -> pystr -> font -> option (Z * Z * Z * Z))
    (truetype : Z -> option font) (load_default : font)
    (im : image pixels) (image o' : obj) (boxes : list box) (show_text : bool) (box_width : Z)
    (st : store pixels font) :
  heap st !! image = Some im ->
  let run := draw_bounding_boxes draw textbbox truetype load_default image boxes
               show_text box_width st in
  fst run = Returns o' ->
  exists groups,
    calls (snd run) = calls st ++ map (pair o') (concat groups)
    /\ Forall2 (fun ib cs =>
                  box_calls (size im) (font_for truetype load_default (size im))
                    show_text box_width (fst ib) (snd ib) cs
                  /\ (length (display_text (text (snd ib))) <= 23)%nat)
         (imap pair boxes) groups.
Proof.
  intros Him run. subst run. destruct boxes as [|b boxes].
  - unfold draw_bounding_boxes. rewrite Him. cbn. intros _.
    exists []. rewrite app_nil_r. split; [reflexivity|constructor].
  - rewrite (draw_bounding_boxes_unfold draw textbbox truetype load_default im image
               (b :: boxes) show_text box_width st Him) by discriminate.
    destruct (draw_boxes _ _ _ _ _ _ _ _ _ _ _ _) as [r st2] eqn:Eb.
    destruct r as [[]| |]; cbn [fst snd]; try discriminate.
    intros [= <-]. apply draw_boxes_calls in Eb as (groups & Hc & Hall).
    exists groups. split; [exact Hc|].
    eapply Forall2_impl; [exact Hall|].
    intros ib cs H. split; [exact H|apply display_text_length].
Qed.

Lemma draw_bounding_boxes_script_witness :
  let run := draw_bounding_boxes sample_draw (fun _ _ _ => Some (0, 0, 10, 10))
               (fun _ => None) tt 1%positive
               [Box (lit "title") [0.125%float; 0.5%float; 0.25%float; 0.75%float]]
               true 3 sample_store in
  fst run = Returns 2%positive
  /\ exists groups,
       calls (snd run) = map (pair 2%positive) (concat groups)
       /\ Forall2 (fun ib cs =>
                     box_calls (200, 100) tt true 3 (fst ib) (snd ib) cs
                     /\ (length (display_text (text (snd ib))) <= 23)%nat)
            [(0%nat, Box (lit "title") [0.125%float; 0.5%float; 0.25%float; 0.75%float])]
            groups.
Proof.
  split; [vm_compute; reflexivity|].
  exact (draw_bounding_boxes_script sample_draw (fun _ _ _ => Some (0, 0, 10, 10))
           (fun _ => None) tt (Image (200, 100) []) 1%positive 2%positive
           [Box (lit "title") [0.125%float; 0.5%float; 0.25%float; 0.75%float]]
           true 3 sample_store eq_refl eq_refl).
Defined.

(** X22: [draw_bounding_boxes] returns whenever the four coordinates of
    every box can be turned into pixels and PIL draws the outlines: no
    failure to load the font, to measure a label or to draw a label or its
    background makes it raise. *)
Theorem draw_bounding_boxes_robust {pixels font : Type}
    (draw : pixels -> draw_call font -> option pixels)
    (textbbox : Z * Z -> pystr -> font -> option (Z * Z * Z * Z))
    (truetype : Z -> option font) (load_default : font)
    (im : image pixels) (image : obj) (boxes : list box) (show_text : bool) (box_width : Z)
    (st : store pixels font) :
  heap st !! image = Some im ->
  outlines_drawable draw ->
  Forall (fun b => exists xy, box_pixels (fst (size im)) (snd (size im)) b = Returns xy) boxes ->
  exists o', fst (draw_bounding_boxes draw textbbox truetype load_default image boxes
                    show_text box_width st) = Returns o'.
Proof.
  intros Him Hd Hall. destruct boxes as [|b boxes].
  - unfold draw_bounding_boxes. rewrite Him. cbn. eauto.
  - rewrite (draw_bounding_boxes_unfold draw textbbox truetype load_default im image
               (b :: boxes) show_text box_width st Him) by discriminate.
    destruct (draw_boxes_robust draw textbbox (fst (copy st im)) (size im)
                (font_for truetype load_default (size im)) show_text box_width (b :: boxes)
                Hd Hall 0%nat (snd (copy st im))) as [st2 E2].
    + destruct (copy_fresh st im) as (_ & Hh & _). rewrite Hh, lookup_insert_eq. eauto.
    + rewrite E2. cbn. eauto.
Qed.

Lemma draw_bounding_boxes_robust_witness :
  exists o',
    fst (draw_bounding_boxes
           (fun px c => match c with
                        | Rectangle _ None _ _ => sample_draw px c
                        | _ => None
                        end)
           (fun _ _ _ => Some (0, 0, 10, 10)) (fun _ => None) tt 1%positive
           [Box (lit "title") [0.125%float; 0.5%float; 0.25%float; 0.75%float]]
           true 3 sample_store) = Returns o'.
Proof.
  apply (draw_bounding_boxes_robust _ _ _ _ (Image (200, 100) [])); [reflexivity| |].
  - intros px xy c width. cbn. eauto.
  - repeat constructor. eexists. vm_compute. reflexivity.
Defined.

(** * The resolution labels *)

Section Resolutions.

Import App.

(** X23: the resolution parameters and the crop check box.  Whatever the
    label, [get_resolution_params] returns one of the five tuples of its
    table, so sizes with 0 < image_size <= base_size <= 1280, and cropping
    only with the sizes (1024, 640); when it asks for cropping the check box
    set by [update_crop_option] is checked and locked.  For the labels the
    two servers offer, each label gets the tuple of the mode it names, and
    the check box is checked exactly when that tuple asks for cropping. *)
Theorem resolution_labels_consistent (mode : pystr) :
  (exists base_size image_size crop_mode,
     get_resolution_params mode = Some (base_size, image_size, crop_mode)
     /\ In (base_size, image_size, crop_mode) (map snd mode_mapping)
     /\ 0 < image_size <= base_size /\ base_size <= 1280
     /\ (crop_mode = true <-> (base_size, image_size) = (1024, 640))
     /\ (crop_mode = true ->
         update_crop_option mode = CheckboxUpdate true false))
  /\ map get_resolution_params RESOLUTION_CHOICES = map (fun kv => Some (snd kv)) mode_mapping
  /\ map get_resolution_params resolutions = map (fun kv => Some (snd kv)) mode_mapping
  /\ Forall (fun label => exists base_size image_size,
                            get_resolution_params label
                            = Some (base_size, image_size, value (update_crop_option label)))
       (RESOLUTION_CHOICES ++ resolutions).
Proof.
  split; [|split; [|split]]; try (vm_compute; reflexivity).
  - unfold get_resolution_params, update_crop_option, mode_mapping. cbn [first_key_in].
    destruct (contains (lit "Tiny") mode);
      [do 3 eexists; split; [reflexivity|]; cbn; intuition (try lia; congruence)|].
    destruct (contains (lit "Small") mode);
      [do 3 eexists; split; [reflexivity|]; cbn; intuition (try lia; congruence)|].
    destruct (contains (lit "Base") mode);
      [do 3 eexists; split; [reflexivity|]; cbn; intuition (try lia; congruence)|].
    destruct (contains (lit "Large") mode);
      [do 3 eexists; split; [reflexivity|]; cbn; intuition (try lia; congruence)|].
    destruct (contains (lit "Gundam") mode) eqn:Eg;
      do 3 eexists; (split; [reflexivity|]); cbn; intuition (try lia; congruence).
  - repeat constructor; do 2 eexists; vm_compute; reflexivity.
Qed.

End Resolutions.
